(** * image_processing: the pixel canvas, the PNG writer and the font

    A shallow embedding of [image_processing/canvas.py],
    [image_processing/png_writer.py] and [image_processing/font.py], the
    properties of the canvas and of the writer that the specification
    states, and further properties of the three.

    Conventions of the embedding.
    - Python [int] is [Z]; a [bytes] or [bytearray] object is a [list Z] whose
      elements are meant to lie in [0, 256).
    - Python [float] channels are modelled in exact rational arithmetic, as
      canonical rationals [Qc] (so that equality of pixels is Leibniz
      equality); rounding is not modelled.  True division raises
      [ZeroDivisionError] on a zero divisor, as in Python.  Where rounding
      decides what a blend leaves in a pixel, the colour arithmetic of
      [Canvas.blend] is given a second time in IEEE 754 binary64
      ([CanvasPy64]).
    - An exception is a value of [exn]; a call that may raise returns a
      [result].  A method that mutates its object in place returns the state
      the object is left in together with the exception, if any, that cut the
      method short.
    - A file is what is read from it or written to it: [Font.load] takes the
      bytes of the font file, [Canvas.to_png] returns the bytes of the PNG
      file.  Opening the file is not modelled. *)

From Stdlib Require Import ZArith QArith Qcanon Qround Lia Lqa ZifyBool Ascii.
From Corelib Require SpecFloat.
From stdpp Require Import gmap.
From stdpp Require Import base option list numbers.

Open Scope Z_scope.

(** ** Python run-time model *)

Module Py.

(** The [ValueError]s of the two modules, told apart by the place that
    raises them. *)
Inductive value_error : Set :=
  | ChannelOutOfRange      (* RgbaColor.__init__ *)
  | CoordinatesOutOfBounds (* Canvas.coordinate_to_index, Canvas.rect *)
  | NegativeSize           (* Canvas.rect *)
  | RectangleDoesNotFit    (* Canvas.rect *)
  | SizeMismatch           (* PngWriter.process_image_data *)
  | RangeStepZero          (* range() arg 3 must not be zero *)
  | NegativeCount          (* bytearray(n) with n < 0 *)
  | ByteOutOfRange.        (* a bytearray item outside range(0, 256) *)

Inductive exn : Set :=
  | ValueError (why : value_error)
  | IndexError
  | ZeroDivisionError
  | StructError            (* struct.error, from pack and unpack_from *)
  | TypeError.             (* reduce() of an empty sequence *)

Inductive result (A : Type) : Type :=
  | Ok (x : A)
  | Raise (e : exn).
Arguments Ok {A} x.
Arguments Raise {A} e.

#[export] Instance result_ret : MRet result := λ A x, Ok x.
#[export] Instance result_bind : MBind result := λ A B f m,
  match m with Ok x => f x | Raise e => Raise e end.
#[export] Instance result_fmap : FMap result := λ A B f m,
  match m with Ok x => Ok (f x) | Raise e => Raise e end.

(** [for x in xs: body], run on a mutable state: the loop stops at the first
    exception, and the state keeps every change made before it. *)
Fixpoint for_each {S X : Type} (body : S → X → result S) (xs : list X) (s : S)
  : S * option exn :=
  match xs with
  | [] => (s, None)
  | x :: xs' =>
      match body s x with
      | Ok s' => for_each body xs' s'
      | Raise e => (s, Some e)
      end
  end.

(** The same loop when the state is local to the function: an exception
    discards it. *)
Definition for_each_local {S X : Type} (body : S → X → result S)
    (xs : list X) (s : S) : result S :=
  match for_each body xs s with
  | (s', None) => Ok s'
  | (_, Some e) => Raise e
  end.

(** [range(start, stop, step)]. *)
Definition range3 (start stop step : Z) : result (list Z) :=
  if step =? 0 then Raise (ValueError RangeStepZero)
  else
    let n := if 0 <? step then (stop - start + step - 1) / step
             else (start - stop - step - 1) / (- step) in
    Ok ((λ k : nat, start + Z.of_nat k * step) <$> seq 0 (Z.to_nat n)).

(** [range(n)]. *)
Definition range (n : Z) : list Z := Z.of_nat <$> seq 0 (Z.to_nat n).

(** [enumerate(xs)]. *)
Definition enumerate {A : Type} (xs : list A) : list (Z * A) :=
  imap (λ i x, (Z.of_nat i, x)) xs.

(** The position a subscript [l[i]] denotes: negative subscripts count from
    the end, anything else outside the list is an [IndexError]. *)
Definition index {A : Type} (l : list A) (i : Z) : result nat :=
  let n := Z.of_nat (length l) in
  if (0 <=? i) && (i <? n) then Ok (Z.to_nat i)
  else if (- n <=? i) && (i <? 0) then Ok (Z.to_nat (n + i))
  else Raise IndexError.

(** [l[i]]. *)
Definition getitem {A : Type} (l : list A) (i : Z) : result A :=
  k ← index l i;
  match l !! k with
  | Some x => Ok x
  | None => Raise IndexError
  end.

(** [l[i] = x]. *)
Definition setitem {A : Type} (l : list A) (i : Z) (x : A) : result (list A) :=
  k ← index l i; Ok (<[k:=x]> l).

(** A slice bound, clamped as Python clamps it. *)
Definition clamp {A : Type} (l : list A) (i : Z) : nat :=
  let n := Z.of_nat (length l) in
  Z.to_nat (Z.min n (if i <? 0 then Z.max 0 (n + i) else i)).

(** [l[i:j]]. *)
Definition slice {A : Type} (l : list A) (i j : Z) : list A :=
  let lo := clamp l i in
  let hi := clamp l j in
  take (hi - lo) (drop lo l).

(** [l[i:j] = xs] on a [bytearray]: the slice is replaced by [xs], whatever
    the two lengths are. *)
Definition setslice {A : Type} (l : list A) (i j : Z) (xs : list A) : list A :=
  let lo := clamp l i in
  let hi := Nat.max lo (clamp l j) in
  take lo l ++ xs ++ drop hi l.

(** [x // y] and [x % y] on integers. *)
Definition floordiv (x y : Z) : result Z :=
  if y =? 0 then Raise ZeroDivisionError else Ok (x / y).
Definition mod_ (x y : Z) : result Z :=
  if y =? 0 then Raise ZeroDivisionError else Ok (x mod y).

(** Comparisons and true division on (exact) floats. *)
Definition leb (x y : Qc) : bool := Qle_bool x y.
Definition ltb (x y : Qc) : bool := negb (Qle_bool y x).
Definition truediv (x y : Qc) : result Qc :=
  if Qc_eq_bool y 0 then Raise ZeroDivisionError else Ok (x / y)%Qc.

(** [math.floor]. *)
Definition floor (x : Qc) : Z := Qfloor x.

(** [bytearray(n)]: [n] zero bytes. *)
Definition bytearray (n : Z) : result (list Z) :=
  if n <? 0 then Raise (ValueError NegativeCount)
  else Ok (replicate (Z.to_nat n) 0).

(** [struct.pack("!<k>B", b1, ..., bk)]: every argument must fit a byte. *)
Definition pack_B (bs : list Z) : result (list Z) :=
  if forallb (λ b, (0 <=? b) && (b <=? 255)) bs then Ok bs
  else Raise StructError.

(** [struct.unpack_from("!<k>B", data, offset)] for [offset >= 0]: the buffer
    must hold [k] bytes from [offset] on. *)
Definition unpack_from_B (k : nat) (data : list Z) (offset : Z)
  : result (list Z) :=
  if Z.of_nat (length data) - offset <? Z.of_nat k then Raise StructError
  else Ok (take k (drop (Z.to_nat offset) data)).

(** [struct.pack("!I", n)]: four bytes, most significant first. *)
Definition pack_I (n : Z) : result (list Z) :=
  if (0 <=? n) && (n <? 2 ^ 32)
  then Ok [ (n / 2 ^ 24) mod 256; (n / 2 ^ 16) mod 256;
            (n / 2 ^ 8) mod 256; n mod 256 ]
  else Raise StructError.

(** The elements of a [bytes] object. *)
Definition is_byte (n : Z) : Prop := 0 ≤ n < 256.

(** The ["4s"] field of [struct.pack]: the argument cut or zero-padded to
    four bytes. *)
Definition pack_4s (s : list Z) : list Z :=
  take 4 s ++ replicate (4 - length s) 0.

(** [struct.pack("!H", n)]: two bytes, most significant first. *)
Definition pack_H (n : Z) : result (list Z) :=
  if (0 <=? n) && (n <? 2 ^ 16) then Ok [ (n / 2 ^ 8) mod 256; n mod 256 ]
  else Raise StructError.

(** [struct.pack("!b", n)]: a signed byte, in two's complement. *)
Definition pack_b (n : Z) : result (list Z) :=
  if (-128 <=? n) && (n <? 128) then Ok [ n mod 256 ]
  else Raise StructError.

(** The integer fields of a [struct] format: ["I"], ["H"], ["B"], ["b"]. *)
Inductive field : Set := fmt_I | fmt_H | fmt_B | fmt_b.

Definition pack_field (f : field) (n : Z) : result (list Z) :=
  match f with
  | fmt_I => pack_I n
  | fmt_H => pack_H n
  | fmt_B => pack_B [n]
  | fmt_b => pack_b n
  end.

(** [struct.pack(format, *args)] in network byte order (["!"]: big-endian,
    no padding between the fields): one argument a field, every argument
    within the range of its field. *)
Definition pack (format : list field) (args : list Z) : result (list Z) :=
  if negb (length format =? length args)%nat then Raise StructError
  else
    packed ← mapM (λ '(f, n), pack_field f n) (zip format args);
    Ok (concat packed).

(** [m; f] on a mutable object: the statements [f] run on the state that [m]
    leaves, unless [m] raised. *)
Definition and_then {S : Type} (m : S * option exn)
    (f : S → S * option exn) : S * option exn :=
  match m with
  | (s, None) => f s
  | (s, Some e) => (s, Some e)
  end.

(** [for x in xs: body] when an iteration that raises may have changed the
    state before: the body returns the state it leaves together with its
    exception. *)
Fixpoint for_each_mut {S X : Type} (body : S → X → S * option exn)
    (xs : list X) (s : S) : S * option exn :=
  match xs with
  | [] => (s, None)
  | x :: xs' => and_then (body s x) (for_each_mut body xs')
  end.

End Py.

Import Py.

(** ** canvas.py *)

Module CanvasPy.

(** The float literal [n / d]. *)
Definition q (n : Z) (d : positive) : Qc := Q2Qc (n # d).

(** *** class RgbaColor *)

Record RgbaColor : Set := mkColor { r : Qc; g : Qc; b : Qc; a : Qc }.

(** [RgbaColor.__init__] *)
Definition RgbaColor_init (r g b a : Qc) : result RgbaColor :=
  if ltb r 0 || ltb 1 r then Raise (ValueError ChannelOutOfRange)
  else if ltb g 0 || ltb 1 g then Raise (ValueError ChannelOutOfRange)
  else if ltb b 0 || ltb 1 b then Raise (ValueError ChannelOutOfRange)
  else if ltb a 0 || ltb 1 a then Raise (ValueError ChannelOutOfRange)
  else Ok (mkColor r g b a).

(** *** class Canvas

    The pixel list holds one colour object per position; no object is shared
    between two positions or two canvases ([clear], [copy], [rect] and the
    imports all store fresh copies), so a canvas is its list of colour
    values. *)

Record Canvas : Set := mkCanvas {
  width : Z;
  height : Z;
  bgcolor : RgbaColor;
  canvas : list RgbaColor
}.

(** The canvas [c] once its pixel list has become [px]. *)
Definition with_canvas (c : Canvas) (px : list RgbaColor) : Canvas :=
  mkCanvas (width c) (height c) (bgcolor c) px.

(** [Canvas.clear] *)
Definition clear (c : Canvas) : Canvas :=
  with_canvas c ((λ _, bgcolor c) <$> range (width c * height c)).

(** [Canvas.__init__] *)
Definition Canvas_init (width height : Z) (bgcolor : RgbaColor) : Canvas :=
  clear (mkCanvas width height bgcolor []).

(** [Canvas.copy] *)
Definition copy (c : Canvas) : Canvas :=
  with_canvas (Canvas_init (width c) (height c) (bgcolor c))
              ((λ color, color) <$> canvas c).

(** [Canvas.coordinate_to_index] *)
Definition coordinate_to_index (c : Canvas) (x y : Z) : result Z :=
  if (x <? 0) || (x >? width c - 1) || (y <? 0) || (y >? height c - 1)
  then Raise (ValueError CoordinatesOutOfBounds)
  else Ok (x + width c * y).

(** [Canvas.at] *)
Definition at_ (c : Canvas) (x y : Z) : result RgbaColor :=
  i ← coordinate_to_index c x y; getitem (canvas c) i.

(** The body of the inner loop of [Canvas.rect], on the pixel list of the
    new canvas. *)
Definition rect_body (c : Canvas) (x y width : Z) (target_y : Z)
    (px : list RgbaColor) (target_x : Z) : result (list RgbaColor) :=
  color ← at_ c (x + target_x) (y + target_y);
  let target_i := target_y * width + target_x in
  setitem px target_i color.

(** [Canvas.rect] *)
Definition rect (c : Canvas) (x y width height : Z) : result Canvas :=
  if (x <? 0) || (x >? CanvasPy.width c - 1)
     || (y <? 0) || (y >? CanvasPy.height c - 1)
  then Raise (ValueError CoordinatesOutOfBounds)
  else if (width <? 0) || (height <? 0)
  then Raise (ValueError NegativeSize)
  else if (x + width >? CanvasPy.width c) || (y + height >? CanvasPy.height c)
  then Raise (ValueError RectangleDoesNotFit)
  else
    let rect := Canvas_init width height (bgcolor c) in
    px ← for_each_local
           (λ px target_y,
              for_each_local (rect_body c x y width target_y)
                             (range width) px)
           (range height) (canvas rect);
    Ok (with_canvas rect px).

(** The body of the [else] branch of [Canvas.blend] followed by the test on
    the new alpha: source over destination.  The three divisions share their
    divisor, so either the first one raises, before any channel of the
    destination is assigned, or none does. *)
Definition over (src_color dst_color : RgbaColor) : result RgbaColor :=
  let new_alpha := (a src_color + a dst_color * (1 - a src_color))%Qc in
  r' ← truediv (r src_color * a src_color
                + r dst_color * a dst_color * (1 - a src_color))%Qc new_alpha;
  g' ← truediv (g src_color * a src_color
                + g dst_color * a dst_color * (1 - a src_color))%Qc new_alpha;
  b' ← truediv (b src_color * a src_color
                + b dst_color * a dst_color * (1 - a src_color))%Qc new_alpha;
  if ltb new_alpha (q 1 1000000) then Ok (mkColor 0 0 0 0)
  else Ok (mkColor r' g' b' new_alpha).

(** What one iteration of [Canvas.blend] leaves in the destination colour. *)
Definition blend_color (ignore_src_alpha : bool) (src_color dst_color : RgbaColor)
  : result RgbaColor :=
  if ignore_src_alpha || leb (q 999999 1000000) (a src_color)
  then Ok (mkColor (r src_color) (g src_color) (b src_color) (a src_color))
  else over src_color dst_color.

(** One iteration of the loop of [Canvas.blend], on the pixel list of the
    destination ([self_width], [self_height] are the destination's). *)
Definition blend_body (self_width self_height src_width : Z)
    (offset_x offset_y : Z) (ignore_src_alpha : bool)
    (px : list RgbaColor) (i : Z) (src_color : RgbaColor)
  : result (list RgbaColor) :=
  src_x ← mod_ i src_width;
  src_y ← floordiv i src_width;
  let target_x := offset_x + src_x in
  let target_y := offset_y + src_y in
  if (target_x <? 0) || (target_x >? self_width - 1)
     || (target_y <? 0) || (target_y >? self_height - 1)
  then Ok px
  else
    k ← index px (target_y * self_width + target_x);
    dst_color ← getitem px (target_y * self_width + target_x);
    dst_color' ← blend_color ignore_src_alpha src_color dst_color;
    Ok (<[k:=dst_color']> px).

(** [Canvas.blend], source and destination being two canvases. *)
Definition blend (self src : Canvas) (offset_x offset_y : Z)
    (ignore_src_alpha : bool) : Canvas * option exn :=
  let '(px, e) :=
    for_each
      (λ px '(i, src_color),
         blend_body (width self) (height self) (width src)
                    offset_x offset_y ignore_src_alpha px i src_color)
      (enumerate (canvas src)) (canvas self) in
  (with_canvas self px, e).

(** [Canvas.blend] of a canvas onto itself: the source colour of iteration
    [i] is read from the pixel list as earlier iterations left it. *)
Definition blend_self (self : Canvas) (offset_x offset_y : Z)
    (ignore_src_alpha : bool) : Canvas * option exn :=
  let '(px, e) :=
    for_each
      (λ px i,
         src_color ← getitem px i;
         blend_body (width self) (height self) (width self)
                    offset_x offset_y ignore_src_alpha px i src_color)
      (range (Z.of_nat (length (canvas self)))) (canvas self) in
  (with_canvas self px, e).

(** One iteration of the loop of [Canvas.bytes], on the [bytearray] being
    filled. *)
Definition bytes_body (bgcolor : RgbaColor) (data : list Z) (i : Z)
    (color : RgbaColor) : result (list Z) :=
  packed ←
    (if leb (q 999 1000) (a color)
     then pack_B [ floor (r color * q 255 1)%Qc;
                   floor (g color * q 255 1)%Qc;
                   floor (b color * q 255 1)%Qc ]
     else
       let r' := floor ((r color * a color
                         + r bgcolor * (1 - a color)) * q 255 1)%Qc in
       let g' := floor ((g color * a color
                         + g bgcolor * (1 - a color)) * q 255 1)%Qc in
       let b' := floor ((b color * a color
                         + b bgcolor * (1 - a color)) * q 255 1)%Qc in
       pack_B [r'; g'; b']);
  Ok (setslice data (i * 3) (i * 3 + 3) packed).

(** [Canvas.bytes] *)
Definition bytes (c : Canvas) : result (list Z) :=
  data ← bytearray (width c * height c * 3);
  for_each_local
    (λ data '(i, color), bytes_body (bgcolor c) data i color)
    (enumerate (canvas c)) data.

(** One iteration of the loop of [Canvas.import_rgb_data] and of
    [Canvas.import_rgba_data], on the pixel list: [stride] bytes a pixel,
    [color_of] building the colour from the unpacked bytes. *)
Definition import_body (stride : nat) (color_of : list Z → result RgbaColor)
    (data : list Z) (px : list RgbaColor) (i : Z) : result (list RgbaColor) :=
  channels ← unpack_from_B stride data i;
  color ← color_of channels;
  setitem px (i / Z.of_nat stride) color.

(** The common shape of the two imports. *)
Definition import_data (stride : nat)
    (color_of : list Z → result RgbaColor) (c : Canvas) (data : list Z)
  : Canvas * option exn :=
  match range3 0 (Z.of_nat (length data)) (Z.of_nat stride) with
  | Raise e => (c, Some e)
  | Ok offsets =>
      let '(px, e) :=
        for_each (import_body stride color_of data) offsets (canvas c) in
      (with_canvas c px, e)
  end.

(** [n / 255] for a byte [n]. *)
Definition channel_of_byte (n : Z) : Qc := (Qc_of_Z n / q 255 1)%Qc.

(** [Canvas.import_rgb_data].  [unpack_from] returns as many values as the
    format asks for, so the last branch of the [match] is never taken. *)
Definition import_rgb_data : Canvas → list Z → Canvas * option exn :=
  import_data 3 (λ channels,
    match channels with
    | [r; g; b] =>
        RgbaColor_init (channel_of_byte r) (channel_of_byte g)
                       (channel_of_byte b) 1
    | _ => Raise StructError
    end).

(** [Canvas.import_rgba_data] *)
Definition import_rgba_data : Canvas → list Z → Canvas * option exn :=
  import_data 4 (λ channels,
    match channels with
    | [r; g; b; a] =>
        RgbaColor_init (channel_of_byte r) (channel_of_byte g)
                       (channel_of_byte b) (channel_of_byte a)
    | _ => Raise StructError
    end).

End CanvasPy.

(** ** canvas.py, the colour arithmetic in binary64

    A Python [float] is an IEEE 754 binary64 number, and every operation on
    floats rounds to the nearest one, ties to even.  [SpecFloat] gives these
    operations on [spec_float]. *)

Module CanvasPy64.

Definition float : Set := SpecFloat.spec_float.

#[export] Instance float_eq_dec : EqDecision float.
Proof. solve_decision. Defined.

(** The precision and the exponent bound of binary64. *)
Definition prec : Z := 53.
Definition emax : Z := 1024.

(** [float(n)] for an integer [n], exact below 2^53. *)
Definition of_int (n : Z) : float :=
  SpecFloat.binary_normalize prec emax n 0 false.

Definition add (x y : float) : float := SpecFloat.SFadd prec emax x y.
Definition sub (x y : float) : float := SpecFloat.SFsub prec emax x y.
Definition mul (x y : float) : float := SpecFloat.SFmul prec emax x y.

(** [x / y]: Python raises on a zero divisor, of either sign. *)
Definition truediv (x y : float) : result float :=
  match y with
  | SpecFloat.S754_zero _ => Raise ZeroDivisionError
  | _ => Ok (SpecFloat.SFdiv prec emax x y)
  end.

Definition ltb (x y : float) : bool := SpecFloat.SFltb x y.
Definition leb (x y : float) : bool := SpecFloat.SFleb x y.

(** The float that the decimal literal of [n / d] denotes, for integers [n]
    and [d] below 2^53: the one nearest to the quotient.  It is also the
    value of the true division [n / d] of two Python integers. *)
Definition literal (n d : Z) : float :=
  SpecFloat.SFdiv prec emax (of_int n) (of_int d).

Record RgbaColor : Set := mkColor { r : float; g : float; b : float; a : float }.

(** The [else] branch of [Canvas.blend] followed by the test on the new
    alpha, as [CanvasPy.over]. *)
Definition over (src_color dst_color : RgbaColor) : result RgbaColor :=
  let new_alpha :=
    add (a src_color) (mul (a dst_color) (sub (of_int 1) (a src_color))) in
  r' ← truediv (add (mul (r src_color) (a src_color))
                    (mul (mul (r dst_color) (a dst_color))
                         (sub (of_int 1) (a src_color)))) new_alpha;
  g' ← truediv (add (mul (g src_color) (a src_color))
                    (mul (mul (g dst_color) (a dst_color))
                         (sub (of_int 1) (a src_color)))) new_alpha;
  b' ← truediv (add (mul (b src_color) (a src_color))
                    (mul (mul (b dst_color) (a dst_color))
                         (sub (of_int 1) (a src_color)))) new_alpha;
  if ltb new_alpha (literal 1 1000000)
  then Ok (mkColor (of_int 0) (of_int 0) (of_int 0) (of_int 0))
  else Ok (mkColor r' g' b' new_alpha).

(** What one iteration of [Canvas.blend] leaves in the destination colour,
    as [CanvasPy.blend_color]. *)
Definition blend_color (ignore_src_alpha : bool)
    (src_color dst_color : RgbaColor) : result RgbaColor :=
  if ignore_src_alpha || leb (literal 999999 1000000) (a src_color)
  then Ok (mkColor (r src_color) (g src_color) (b src_color) (a src_color))
  else over src_color dst_color.

(** The channel that the imports make of the byte [n]: [n / 255]. *)
Definition channel_of_byte (n : Z) : float := literal n 255.

(** A canvas of binary64 colours, as [CanvasPy.Canvas]. *)
Record Canvas : Set := mkCanvas {
  width : Z;
  height : Z;
  bgcolor : RgbaColor;
  canvas : list RgbaColor
}.

(** One iteration of the loop of [Canvas.blend], as
    [CanvasPy.blend_body]. *)
Definition blend_body (self_width self_height src_width : Z)
    (offset_x offset_y : Z) (ignore_src_alpha : bool)
    (px : list RgbaColor) (i : Z) (src_color : RgbaColor)
  : result (list RgbaColor) :=
  src_x ← mod_ i src_width;
  src_y ← floordiv i src_width;
  let target_x := offset_x + src_x in
  let target_y := offset_y + src_y in
  if (target_x <? 0) || (target_x >? self_width - 1)
     || (target_y <? 0) || (target_y >? self_height - 1)
  then Ok px
  else
    k ← index px (target_y * self_width + target_x);
    dst_color ← getitem px (target_y * self_width + target_x);
    dst_color' ← blend_color ignore_src_alpha src_color dst_color;
    Ok (<[k:=dst_color']> px).

(** [Canvas.blend], source and destination being two canvases, as
    [CanvasPy.blend]. *)
Definition blend (self src : Canvas) (offset_x offset_y : Z)
    (ignore_src_alpha : bool) : Canvas * option exn :=
  let '(px, e) :=
    for_each
      (λ px '(i, src_color),
         blend_body (width self) (height self) (width src)
                    offset_x offset_y ignore_src_alpha px i src_color)
      (enumerate (canvas src)) (canvas self) in
  (mkCanvas (width self) (height self) (bgcolor self) px, e).

End CanvasPy64.

(** ** png_writer.py *)

Module PngWriterPy.

(** *** zlib

    [zlib.crc32(data, value)] is the CRC-32 of PNG, zip and Ethernet: the
    reflected polynomial [0xEDB88320], the running value complemented on the
    way in and on the way out. *)

Definition crc32_shift (c : Z) : Z :=
  if Z.odd c then Z.lxor (Z.shiftr c 1) 0xEDB88320 else Z.shiftr c 1.

Definition crc32_byte (c byte : Z) : Z :=
  Nat.iter 8 crc32_shift (Z.lxor c byte).

Definition crc32 (data : list Z) (value : Z) : Z :=
  Z.lxor (fold_left crc32_byte data (Z.lxor (value mod 2 ^ 32) 0xFFFFFFFF))
         0xFFFFFFFF.

(** [ctypes.c_byte(y).value]: [y] as a signed 8-bit integer. *)
Definition c_byte (y : Z) : Z := (y + 128) mod 256 - 128.

(** [functools.reduce(f, xs)], without an initial value. *)
Definition reduce {A : Type} (f : A → A → A) (xs : list A) : result A :=
  match xs with
  | [] => Raise TypeError
  | x :: xs' => Ok (fold_left f xs' x)
  end.

(** [sorted(xs, key=key)]: ascending and stable, elements of equal key keep
    their order. *)
Fixpoint insert_by {A : Type} (key : A → Z) (x : A) (xs : list A) : list A :=
  match xs with
  | [] => [x]
  | y :: ys => if key x <=? key y then x :: y :: ys
               else y :: insert_by key x ys
  end.

Definition sorted {A : Type} (xs : list A) (key : A → Z) : list A :=
  foldr (insert_by key) [] xs.

(** *** class PngWriter *)

Record PngWriter : Set := mkPngWriter {
  stream : list Z;          (* the bytes written to the stream so far *)
  width : Z;
  height : Z;
  dynamic_filtering : bool
}.

(** [self.stream.write(data)] *)
Definition stream_write (self : PngWriter) (data : list Z) : PngWriter :=
  mkPngWriter (stream self ++ data) (width self) (height self)
              (dynamic_filtering self).

(** [PngWriter.write_chunk] *)
Definition write_chunk (self : PngWriter) (type data : list Z)
  : PngWriter * option exn :=
  match pack_I (Z.of_nat (length data)) with
  | Raise e => (self, Some e)
  | Ok len =>
      let head := len ++ pack_4s type in
      let self := stream_write self head in
      let self := stream_write self data in
      match pack_I (crc32 data (crc32 type 0)) with
      | Raise e => (self, Some e)
      | Ok tail => (stream_write self tail, None)
      end
  end.

(** [if prev_scanline:] is false for [None] and for an empty line. *)
Definition truthy (prev_scanline : option (list Z)) : option (list Z) :=
  match prev_scanline with
  | Some (x :: l) => Some (x :: l)
  | _ => None
  end.

(** [new_scanline[i] = v] on a [bytearray]. *)
Definition setbyte (l : list Z) (i v : Z) : result (list Z) :=
  if (0 <=? v) && (v <? 256) then setitem l i v
  else Raise (ValueError ByteOutOfRange).

(** The frame shared by the Sub, Up, Average and Paeth filters:
    [new_scanline = bytearray(1 + len(scanline))], [new_scanline[0] = tag],
    then [new_scanline[i + 1] = value i x] for [i, x] in
    [enumerate(scanline)]. *)
Definition filter_frame (tag : Z) (value : Z → Z → result Z)
    (scanline : list Z) : result (list Z) :=
  new_scanline ← bytearray (1 + Z.of_nat (length scanline));
  new_scanline ← setbyte new_scanline 0 tag;
  for_each_local
    (λ new_scanline '(i, x),
       v ← value i x; setbyte new_scanline (i + 1) v)
    (enumerate scanline) new_scanline.

(** [PngWriter.none_filter] *)
Definition none_filter (scanline : list Z) (prev_scanline : option (list Z))
  : result (list Z) :=
  Ok ([0] ++ scanline).

(** [a = 0 if i < 3 else line[i - 3]] *)
Definition left_of (line : list Z) (i : Z) : result Z :=
  if i <? 3 then Ok 0 else getitem line (i - 3).

(** [PngWriter.sub_filter] *)
Definition sub_filter (scanline : list Z) (prev_scanline : option (list Z))
  : result (list Z) :=
  filter_frame 1
    (λ i x, a ← left_of scanline i; Ok ((x - a) mod 256))
    scanline.

(** [PngWriter.up_filter] *)
Definition up_filter (scanline : list Z) (prev_scanline : option (list Z))
  : result (list Z) :=
  filter_frame 2
    (λ i x,
       b ← match truthy prev_scanline with
           | Some prev => getitem prev i
           | None => Ok 0
           end;
       Ok ((x - b) mod 256))
    scanline.

(** [PngWriter.average_filter] *)
Definition average_filter (scanline : list Z) (prev_scanline : option (list Z))
  : result (list Z) :=
  filter_frame 3
    (λ i x,
       a ← left_of scanline i;
       b ← match truthy prev_scanline with
           | Some prev => getitem prev i
           | None => Ok 0
           end;
       avg ← floor <$> truediv (Qc_of_Z (a + b)) (Qc_of_Z 2);
       Ok ((x - avg) mod 256))
    scanline.

(** The Paeth predictor, as the loop body of [paeth_filter] computes it. *)
Definition paeth_predictor (a b c : Z) : Z :=
  let p := a + b - c in
  let pa := Z.abs (p - a) in
  let pb := Z.abs (p - b) in
  let pc := Z.abs (p - c) in
  if (pa <=? pb) && (pa <=? pc) then a
  else if pb <=? pc then b
  else c.

(** [PngWriter.paeth_filter] *)
Definition paeth_filter (scanline : list Z) (prev_scanline : option (list Z))
  : result (list Z) :=
  filter_frame 4
    (λ i x,
       a ← left_of scanline i;
       '(b, c) ← match truthy prev_scanline with
                 | Some prev =>
                     b ← getitem prev i;
                     c ← left_of prev i;
                     Ok (b, c)
                 | None => Ok (0, 0)
                 end;
       let pr := paeth_predictor a b c in
       Ok ((x - pr) mod 256))
    scanline.

(** The list [filters] of [process_image_data]. *)
Definition filters : list (list Z → option (list Z) → result (list Z)) :=
  [none_filter; sub_filter; up_filter; average_filter; paeth_filter].

(** The lambda [min_sum_of_abs_diff] of [process_image_data]. *)
Definition min_sum_of_abs_diff (line : list Z) : result Z :=
  reduce (λ x y, x + Z.abs (c_byte y)) (slice line 1 (Z.of_nat (length line))).

(** The list [results] that [process_image_data] builds for one line: every
    filter's output with its score. *)
Definition results (line : list Z) (previous_line : option (list Z))
  : result (list (list Z * Z)) :=
  mapM (λ filter_,
          processed_line ← filter_ line previous_line;
          score ← min_sum_of_abs_diff processed_line;
          Ok (processed_line, score))
       filters.

(** The line that the dynamic branch of [process_image_data] appends to
    [processed]: [ranking[0][0]]. *)
Definition dynamic_line (line : list Z) (previous_line : option (list Z))
  : result (list Z) :=
  results ← results line previous_line;
  let ranking := sorted results snd in
  fst <$> getitem ranking 0.

Section process.

(** [zlib.compress(data, 9)], an opaque total function on byte strings. *)
Variable compress : list Z → list Z.

(** [PngWriter.process_image_data] *)
Definition process_image_data (self : PngWriter) (image : list Z)
  : result (list Z) :=
  if negb (Z.of_nat (length image) =? width self * height self * 3)
  then Raise (ValueError SizeMismatch)
  else
    offsets ← range3 0 (width self * height self * 3) (width self * 3);
    let scanlines := (λ i, slice image i (i + width self * 3)) <$> offsets in
    processed ←
      mapM (λ i,
              line ← getitem scanlines i;
              previous_line ←
                (if i =? 0 then Ok None else Some <$> getitem scanlines (i - 1));
              if dynamic_filtering self
              then dynamic_line line previous_line
              else paeth_filter line previous_line)
           (range (height self));
    Ok (compress (concat processed)).

(** [PngWriter.write_idat]: the argument of [write_chunk] is evaluated
    first. *)
Definition write_idat (self : PngWriter) (image : list Z)
  : PngWriter * option exn :=
  match process_image_data self image with
  | Raise e => (self, Some e)
  | Ok data => write_chunk self [73; 68; 65; 84] data
  end.

(** [PngWriter.write_iend] *)
Definition write_iend (self : PngWriter) : PngWriter * option exn :=
  write_chunk self [73; 69; 78; 68] [].

End process.

(** [PngWriter.write_signature] *)
Definition write_signature (self : PngWriter) : PngWriter :=
  stream_write self [137; 80; 78; 71; 13; 10; 26; 10].

(** [PngWriter.write_ihdr] *)
Definition write_ihdr (self : PngWriter) : PngWriter * option exn :=
  match pack [fmt_I; fmt_I; fmt_b; fmt_b; fmt_b; fmt_b; fmt_b]
             [width self; height self; 8; 2; 0; 0; 0] with
  | Raise e => (self, Some e)
  | Ok data => write_chunk self [73; 72; 68; 82] data
  end.

(** [PngWriter.write_actl] *)
Definition write_actl (self : PngWriter) (num_frames num_plays : Z)
  : PngWriter * option exn :=
  match pack [fmt_I; fmt_I] [num_frames; num_plays] with
  | Raise e => (self, Some e)
  | Ok data => write_chunk self [97; 99; 84; 76] data
  end.

(** [PngWriter.write_fctl] *)
Definition write_fctl (self : PngWriter) (seq delay_num delay_den : Z)
  : PngWriter * option exn :=
  match pack [fmt_I; fmt_I; fmt_I; fmt_I; fmt_I; fmt_H; fmt_H; fmt_B; fmt_B]
             [seq; width self; height self; 0; 0; delay_num; delay_den; 0; 0]
  with
  | Raise e => (self, Some e)
  | Ok data => write_chunk self [102; 99; 84; 76] data
  end.

Section image.

Variable compress : list Z → list Z.

(** [PngWriter.write_fdat]: of the argument of [write_chunk], [pack] is
    evaluated before [process_image_data]. *)
Definition write_fdat (self : PngWriter) (seq : Z) (image : list Z)
  : PngWriter * option exn :=
  match pack [fmt_I] [seq] with
  | Raise e => (self, Some e)
  | Ok head =>
      match process_image_data compress self image with
      | Raise e => (self, Some e)
      | Ok data => write_chunk self [102; 100; 65; 84] (head ++ data)
      end
  end.

(** [PngWriter.write_image] *)
Definition write_image (self : PngWriter) (image : list Z)
  : PngWriter * option exn :=
  and_then (write_signature self, None) (λ self,
  and_then (write_ihdr self) (λ self,
  and_then (write_idat compress self image) (λ self,
  write_iend self))).

End image.

End PngWriterPy.

(** ** canvas.py, the export to PNG *)

Module CanvasPngPy.

Section to_png.

Variable compress : list Z → list Z.

(** [Canvas.to_png], from the point where [open(path, "wb")] has returned
    the new, empty file: the bytes the call leaves in the file, and its
    exception.  The argument [self.bytes()] is evaluated before
    [write_image] writes anything. *)
Definition to_png (self : CanvasPy.Canvas) : list Z * option exn :=
  let w := PngWriterPy.mkPngWriter [] (CanvasPy.width self)
                                   (CanvasPy.height self) true in
  match CanvasPy.bytes self with
  | Raise e => (PngWriterPy.stream w, Some e)
  | Ok image =>
      let '(w, e) := PngWriterPy.write_image compress w image in
      (PngWriterPy.stream w, e)
  end.

End to_png.

End CanvasPngPy.

(** ** font.py *)

Module FontPy.

Import CanvasPy.

(** A [str] is the list of its characters; the characters are 8-bit. *)
Abbreviation str := (list ascii) (only parsing).

(** The exceptions of [font.py]: the [ValueError] of [Font.load], and
    whatever the canvas raises. *)
Inductive font_exn : Set :=
  | CharacterDimensions
  | FromCanvas (e : exn).

(** *** class Font

    [charmap] maps a character to the canvas of its letter.  The letters are
    canvases of their own, made by [Canvas.rect]. *)

Record Font : Type := mkFont {
  charmap : gmap ascii Canvas;
  char_height : Z;
  char_width : Z
}.

(** [Font.__init__] *)
Definition Font_init : Font := mkFont ∅ 0 0.

(** One iteration of the loop of [Font.load], on [self.charmap]. *)
Definition load_body (canvas : Canvas) (char_width char_height : Z)
    (cm : gmap ascii Canvas) (i : Z) (c : ascii)
  : result (gmap ascii Canvas) :=
  letter ← rect canvas (i * char_width) 0 char_width char_height;
  Ok (<[c:=letter]> cm).

(** [Font.load], [file] being what [f.read()] returns for the opened font
    file.  The character dimensions are assigned last. *)
Definition load (self : Font) (file : list Z) (charmap : str)
    (char_width char_height : Z) : Font * option font_exn :=
  if (char_width <=? 0) || (char_height <=? 0)
  then (self, Some CharacterDimensions)
  else
    let dim_x := Z.of_nat (length charmap) * char_width in
    let dim_y := char_height in
    match RgbaColor_init 0 0 0 0 with
    | Raise e => (self, Some (FromCanvas e))
    | Ok bgcolor =>
        let canvas := Canvas_init dim_x dim_y bgcolor in
        match import_rgba_data canvas file with
        | (_, Some e) => (self, Some (FromCanvas e))
        | (canvas, None) =>
            match for_each
                    (λ cm '(i, c), load_body canvas char_width char_height
                                             cm i c)
                    (enumerate charmap) (FontPy.charmap self) with
            | (cm, Some e) =>
                (mkFont cm (FontPy.char_height self) (FontPy.char_width self),
                 Some (FromCanvas e))
            | (cm, None) => (mkFont cm char_height char_width, None)
            end
        end
    end.

(** One iteration of the loop of [Font.write], on the target canvas and the
    two offsets. *)
Definition write_body (self : Font) (x y : Z) (st : Canvas * Z * Z)
    (c : ascii) : Canvas * Z * Z * option exn :=
  let '(target, x_offset, y_offset) := st in
  match charmap self !! c with
  | Some letter =>
      let '(target, e) :=
        blend target letter (x + x_offset) (y + y_offset) false in
      match e with
      | Some e => ((target, x_offset, y_offset), Some e)
      | None => ((target, x_offset + char_width self, y_offset), None)
      end
  | None =>
      if Ascii.eqb c "010"
      then ((target, 0, y_offset + (char_height self + 2)), None)
      else ((target, x_offset + char_width self, y_offset), None)
  end.

(** [Font.write]: the state the target canvas is left in, and the
    exception, if any.  The target is not one of the font's own letters. *)
Definition write (self : Font) (target : Canvas) (x y : Z) (text : str)
  : Canvas * option exn :=
  let '((target, _, _), e) :=
    for_each_mut (write_body self x y) text (target, 0, 0) in
  (target, e).

End FontPy.

(** ** example.py *)

Module ExamplePy.

Import Stdlib.Strings.String.
Import CanvasPy FontPy.

(** The script as a function of what it reads from its three input files:
    the canvas it has drawn when it comes to write it, what it leaves in the
    output file, if it gets as far as opening it, and the exception that ends
    it, if any.  What it prints, and the timing, are left out. *)

(** [charmap]: the characters from the space to the closing brace, in the
    order of their codes. *)
Definition charmap : str := ascii_of_nat <$> seq 32 94.

Definition hello : str :=
  list_ascii_of_string "Hello world!" ++ ["010"%char]
  ++ list_ascii_of_string "This is a test!".

(** ["Long string is long! " * 8] *)
Definition long : str :=
  List.concat (replicate 8 (list_ascii_of_string "Long string is long! ")).

(** A statement on a canvas, followed by the rest of the script. *)
Definition then_ {A : Type} (m : Canvas * option exn)
    (rest : Canvas → option A * option font_exn)
  : option A * option font_exn :=
  match m with
  | (canvas, None) => rest canvas
  | (_, Some e) => (None, Some (FromCanvas e))
  end.

(** The construction of a colour, followed by the rest of the script. *)
Definition with_color {A : Type} (m : result RgbaColor)
    (rest : RgbaColor → option A * option font_exn)
  : option A * option font_exn :=
  match m with
  | Ok color => rest color
  | Raise e => (None, Some (FromCanvas e))
  end.

(** The script up to the call of [to_png]: the canvas it has drawn. *)
Definition drawing (background overlay font_file : list Z)
  : option Canvas * option font_exn :=
  with_color (RgbaColor_init 0 0 0 1) (λ black,
  let canvas := Canvas_init 256 256 black in
  then_ (import_rgb_data canvas background) (λ canvas,
  with_color (RgbaColor_init 0 0 0 0) (λ transparent,
  let foreground := Canvas_init 96 64 transparent in
  then_ (import_rgba_data foreground overlay) (λ foreground,
  then_ (blend canvas foreground 32 32 false) (λ canvas,
  then_ (blend canvas foreground 64 64 false) (λ canvas,
  then_ (blend canvas foreground 96 96 false) (λ canvas,
  then_ (blend canvas foreground (-48) 224 false) (λ canvas,
  let font := Font_init in
  match load font font_file charmap 8 16 with
  | (_, Some e) => (None, Some e)
  | (font, None) =>
      then_ (write font canvas 8 176 hello) (λ canvas,
      then_ (write font canvas 4 0 long) (λ canvas,
      match rect canvas 8 176 24 32 with
      | Raise e => (None, Some (FromCanvas e))
      | Ok rect =>
          then_ (blend canvas rect 160 176 false) (λ canvas,
          (Some canvas, None))
      end))
  end)))))))).

Section example.

Variable compress : list Z → list Z.

(** The whole script: the drawing, then [canvas.to_png]. *)
Definition example (background overlay font_file : list Z)
  : option (list Z) * option font_exn :=
  match drawing background overlay font_file with
  | (Some canvas, None) =>
      let '(file, e) := CanvasPngPy.to_png compress canvas in
      (Some file, FromCanvas <$> e)
  | (_, e) => (None, e)
  end.

End example.

End ExamplePy.

(** ** Vocabulary of the specification *)

Module CanvasSpec.

Import CanvasPy.

(** A channel within [0.0, 1.0] inclusive. *)
Definition channel_ok (x : Qc) : Prop := (0 ≤ x)%Qc ∧ (x ≤ 1)%Qc.

(** The invariant of a colour: its four channels lie within [0.0, 1.0]. *)
Definition color_ok (p : RgbaColor) : Prop :=
  channel_ok (r p) ∧ channel_ok (g p) ∧ channel_ok (b p) ∧ channel_ok (a p).

(** The invariant of the claims on a canvas: every pixel is a valid colour. *)
Definition pixels_ok (c : Canvas) : Prop := Forall color_ok (canvas c).

(** The pixel list has the length [clear] gives it. *)
Definition canvas_wf (c : Canvas) : Prop :=
  length (canvas c) = Z.to_nat (width c * height c).

(** Pixel [k] of a raw RGB buffer: three bytes from offset [3 * k], opaque. *)
Definition rgb_pixel (data : list Z) (k : nat) : RgbaColor :=
  mkColor (channel_of_byte (data !!! (3 * k)%nat))
          (channel_of_byte (data !!! (3 * k + 1)%nat))
          (channel_of_byte (data !!! (3 * k + 2)%nat))
          1.

(** Pixel [k] of a raw RGBA buffer: four bytes from offset [4 * k]. *)
Definition rgba_pixel (data : list Z) (k : nat) : RgbaColor :=
  mkColor (channel_of_byte (data !!! (4 * k)%nat))
          (channel_of_byte (data !!! (4 * k + 1)%nat))
          (channel_of_byte (data !!! (4 * k + 2)%nat))
          (channel_of_byte (data !!! (4 * k + 3)%nat)).

(** The pixel list after the first [n] pixels have been overwritten, in
    row-major order, by [pixel 0], ..., [pixel (n - 1)]. *)
Definition overwritten (n : nat) (pixel : nat → RgbaColor)
    (px : list RgbaColor) : list RgbaColor :=
  (pixel <$> seq 0 n) ++ drop n px.

(** The three bytes an opaque pixel contributes to the flattened output:
    [floor(channel * 255)] for r, g, b. *)
Definition opaque_rgb (p : RgbaColor) : list Z :=
  [ floor (r p * q 255 1)%Qc; floor (g p * q 255 1)%Qc;
    floor (b p * q 255 1)%Qc ].

(** [rc] holds the pixels of the rectangle [(x, y, w, h)] of [c], row by
    row. *)
Definition rect_of (c : Canvas) (x y w h : Z) (rc : Canvas) : Prop :=
  width rc = w ∧ height rc = h ∧ bgcolor rc = bgcolor c ∧ canvas_wf rc ∧
  ∀ i j, 0 ≤ i < w → 0 ≤ j < h →
    ∃ p, at_ c (x + i) (y + j) = Ok p ∧ at_ rc i j = Ok p.

(** A source pixel that [blend] copies over the destination as it is. *)
Definition opaque (p : RgbaColor) : Prop := (q 999999 1000000 ≤ a p)%Qc.


(** Invariant of the loops of [rect]: the first [m] cells of the new pixel
    list, in row-major order, hold the pixels of the rectangle. *)
Definition filled (c : Canvas) (x y w h : Z) (m : Z) (px : list RgbaColor)
  : Prop :=
  length px = Z.to_nat (w * h) ∧
  ∀ k, 0 ≤ k < m →
    px !! Z.to_nat k
    = canvas c !! Z.to_nat (x + k `mod` w + width c * (y + k `div` w)).

(** Invariant of the loop of [blend] when every source pixel is copied as it
    is: the targets of the first [m] source pixels hold these pixels. *)
Definition placed (self src : Canvas) (x y : Z) (m : Z) (px : list RgbaColor)
  : Prop :=
  length px = Z.to_nat (width self * height self) ∧
  ∀ k, 0 ≤ k < m →
    px !! Z.to_nat ((y + k `div` width src) * width self
                    + (x + k `mod` width src))
    = canvas src !! Z.to_nat k.

(** The coordinates [(x, y)] denote a pixel of [c]. *)
Definition inside (c : Canvas) (x y : Z) : Prop :=
  0 ≤ x < width c ∧ 0 ≤ y < height c.

(** [c'] has the dimensions, the background and the number of pixels of
    [c]. *)
Definition same_shape (c c' : Canvas) : Prop :=
  width c' = width c ∧ height c' = height c ∧ bgcolor c' = bgcolor c ∧
  length (canvas c') = length (canvas c).

(** The pixel [(X, Y)] of the destination lies under a source of [w] by [h]
    pixels placed at offset [(x, y)]. *)
Definition under (x y w h : Z) (X Y : Z) : Prop :=
  x ≤ X < x + w ∧ y ≤ Y < y + h.

(** The three bytes a pixel contributes to the flattened output: the pixel
    as it is when its alpha is at least 0.999, the pixel over the background
    colour otherwise. *)
Definition flat_rgb (bgcolor p : RgbaColor) : list Z :=
  if leb (q 999 1000) (a p) then opaque_rgb p
  else [ floor ((r p * a p + r bgcolor * (1 - a p)) * q 255 1)%Qc;
         floor ((g p * a p + g bgcolor * (1 - a p)) * q 255 1)%Qc;
         floor ((b p * a p + b bgcolor * (1 - a p)) * q 255 1)%Qc ].

End CanvasSpec.

Module PngSpec.

Import PngWriterPy.

(** [n] as [k] bytes, most significant first. *)
Fixpoint big_endian (k : nat) (n : Z) : list Z :=
  match k with
  | O => []
  | S k' => big_endian k' (n / 256) ++ [n mod 256]
  end.

(** The integer that a big-endian byte string denotes. *)
Definition big_endian_value (bs : list Z) : Z :=
  fold_left (λ acc byte, acc * 256 + byte) bs 0.

(** A byte read as a signed 8-bit value. *)
Definition signed8 (y : Z) : Z := if y <? 128 then y else y - 256.

(** The score the specification gives a filtered line: the sum, over its
    bytes but the leading tag byte, of the absolute value of the byte read as
    a signed 8-bit value. *)
Definition abs_sum (processed_line : list Z) : Z :=
  foldr (λ y acc, Z.abs (signed8 y) + acc) 0 (tail processed_line).

(** Byte [i] of a line, 0 if there is none. *)
Definition byte_at (line : option (list Z)) (i : Z) : Z :=
  match line with
  | Some l => if i <? 0 then 0 else l !!! Z.to_nat i
  | None => 0
  end.

(** The Paeth predictor in the words of the specification: with
    [p = a + b - c], the one of [a], [b], [c] whose distance to [p] is the
    least, [a] before [b] before [c] when distances tie. *)
Definition nearest_of (a b c : Z) : Z :=
  let p := a + b - c in
  let least := Z.min (Z.abs (p - a)) (Z.min (Z.abs (p - b)) (Z.abs (p - c))) in
  if Z.abs (p - a) =? least then a
  else if Z.abs (p - b) =? least then b
  else c.

(** The Paeth-filtered line of the specification: tag 4, then each byte less
    its predictor, modulo 256. *)
Definition paeth_line (scanline : list Z) (prev_scanline : option (list Z))
  : list Z :=
  4 :: imap (λ i x,
               let a := byte_at (Some scanline) (Z.of_nat i - 3) in
               let b := byte_at prev_scanline (Z.of_nat i) in
               let c := byte_at prev_scanline (Z.of_nat i - 3) in
               (x - nearest_of a b c) mod 256)
            scanline.

(** The previous scanline, when there is one, is as long as the scanline. *)
Definition same_length (scanline : list Z) (prev_scanline : option (list Z))
  : Prop :=
  ∀ prev, prev_scanline = Some prev → length prev = length scanline.

(** A 32-bit running value of the CRC. *)
Definition word32 (c : Z) : Prop := 0 ≤ c < 2 ^ 32.

(** The output of a filter: a line of bytes, one longer than the
    scanline. *)
Definition filtered (scanline out : list Z) : Prop :=
  length out = S (length scanline) ∧ Forall is_byte out.

(** A candidate of a line: the output of a filter together with the score
    that [process_image_data] assigns to it. *)
Definition candidate (line : list Z) (previous_line : option (list Z))
    (filter_ : list Z → option (list Z) → result (list Z))
    (entry : list Z * Z) : Prop :=
  filter_ line previous_line = Ok entry.1 ∧
  min_sum_of_abs_diff entry.1 = Ok entry.2 ∧
  0 ≤ entry.2.

(** The line that the filter of type [tag] makes with the predictor
    [predict]: the type byte, then every byte less what [predict] makes of
    [a] (the byte 3 positions left, 0 if none), [b] (the byte above, 0 if
    none) and [c] (the byte 3 positions left of [b], 0 if none), modulo
    256. *)
Definition filtered_line (tag : Z) (predict : Z → Z → Z → Z)
    (scanline : list Z) (prev_scanline : option (list Z)) : list Z :=
  tag :: imap (λ i x,
                 let a := byte_at (Some scanline) (Z.of_nat i - 3) in
                 let b := byte_at prev_scanline (Z.of_nat i) in
                 let c := byte_at prev_scanline (Z.of_nat i - 3) in
                 (x - predict a b c) mod 256)
              scanline.

(** A chunk of a PNG stream: the length of the data as four bytes, the type,
    the data, and the CRC-32 of type and data as four bytes. *)
Definition chunk (type data : list Z) : list Z :=
  big_endian 4 (Z.of_nat (length data)) ++ type ++ data
  ++ big_endian 4 (crc32 (type ++ data) 0).

(** The eight bytes every PNG stream starts with. *)
Definition signature : list Z := [137; 80; 78; 71; 13; 10; 26; 10].

(** The data of the IHDR chunk of an 8-bit RGB image without interlacing:
    width, height, bit depth 8, colour type 2, and three zeros. *)
Definition ihdr_data (width height : Z) : list Z :=
  big_endian 4 width ++ big_endian 4 height ++ [8; 2; 0; 0; 0].

(** The type tags of the chunks, in ASCII. *)
Definition IHDR : list Z := [73; 72; 68; 82].
Definition IDAT : list Z := [73; 68; 65; 84].
Definition IEND : list Z := [73; 69; 78; 68].
Definition acTL : list Z := [97; 99; 84; 76].
Definition fcTL : list Z := [102; 99; 84; 76].
Definition fdAT : list Z := [102; 100; 65; 84].

(** An unsigned integer of [bits] bits. *)
Definition unsigned (bits : Z) (n : Z) : Prop := 0 ≤ n < 2 ^ bits.

(** The data of the acTL chunk: the number of frames and the number of
    plays. *)
Definition actl_data (num_frames num_plays : Z) : list Z :=
  big_endian 4 num_frames ++ big_endian 4 num_plays.

(** The data of the fcTL chunk of a frame that covers the whole image:
    sequence number, width, height, offsets 0 and 0, the delay as a
    fraction, dispose and blend operations 0 and 0. *)
Definition fctl_data (seq width height delay_num delay_den : Z) : list Z :=
  big_endian 4 seq ++ big_endian 4 width ++ big_endian 4 height
  ++ big_endian 4 0 ++ big_endian 4 0
  ++ big_endian 2 delay_num ++ big_endian 2 delay_den ++ [0; 0].

(** Scanline [k] of an image of [width] pixels a line, and the scanline
    before it. *)
Definition scanline_of (width : Z) (image : list Z) (k : nat) : list Z :=
  take (Z.to_nat (width * 3)) (drop (k * Z.to_nat (width * 3)) image).

Definition previous_of (width : Z) (image : list Z) (k : nat)
  : option (list Z) :=
  match k with
  | O => None
  | S k' => Some (scanline_of width image k')
  end.

(** The line [out] is what was asked of one of the five filters, of the
    Paeth filter in static mode, for scanline [k] of the image under
    scanline [k - 1]. *)
Definition line_of (self : PngWriter) (image : list Z) (k : nat)
    (out : list Z) : Prop :=
  filtered (scanline_of (width self) image k) out ∧
  ∃ filter_, filter_ ∈ filters ∧
    (dynamic_filtering self = false → filter_ = paeth_filter) ∧
    filter_ (scanline_of (width self) image k)
            (previous_of (width self) image k) = Ok out.

End PngSpec.

Module FontSpec.

Import CanvasPy CanvasSpec FontPy.

(** Every letter of the font holds width × height pixels, with valid
    channels. *)
Definition letters_ok (self : Font) : Prop :=
  ∀ c letter, charmap self !! c = Some letter →
    canvas_wf letter ∧ pixels_ok letter.

(** The sheet that [Font.load] cuts the letters from: the canvas of [n]
    cells of [char_width] by [char_height] pixels side by side, once the font
    file has been imported into it. *)
Definition sheet (file : list Z) (n : nat) (char_width char_height : Z)
  : Canvas :=
  (import_rgba_data
     (Canvas_init (Z.of_nat n * char_width) char_height (mkColor 0 0 0 0))
     file).1.

(** [i] is the last position of the character [c] in [charmap]. *)
Definition last_position (charmap : str) (i : nat) (c : ascii) : Prop :=
  charmap !! i = Some c ∧ ∀ j, (i < j)%nat → charmap !! j ≠ Some c.

(** The line-feed character. *)
Definition newline : ascii := "010".

End FontSpec.

Module ExampleSpec.

Import CanvasPy CanvasSpec.

(** The file holds bytes, whole pixels of [stride] bytes, and no more than
    [pixels] of them. *)
Definition whole_pixels (stride : nat) (pixels : Z) (file : list Z) : Prop :=
  Forall is_byte file ∧ (length file `mod` stride = 0)%nat ∧
  Z.of_nat (length file `div` stride) ≤ pixels.

(** A canvas of [w] by [h] valid pixels, all of alpha at least 0.999999. *)
Definition opaque_canvas (w h : Z) (c : Canvas) : Prop :=
  width c = w ∧ height c = h ∧ canvas_wf c ∧ pixels_ok c ∧
  color_ok (bgcolor c) ∧ Forall opaque (canvas c).

End ExampleSpec.

(** * Properties *)

(** ** Properties of the run-time model *)

Module PyFacts.

Lemma bind_Ok {A B : Type} (m : result A) (f : A → result B) y :
  m ≫= f = Ok y ↔ ∃ x, m = Ok x ∧ f x = Ok y.
Proof.
  destruct m as [x|e]; simpl.
  - split; [by exists x | by intros (? & [= <-] & ?)].
  - split; [done | by intros (? & ? & _)].
Qed.

Section py_lemmas.
Context {S X : Type}.
Implicit Types (body : S → X → result S) (xs : list X) (s : S).

Lemma for_each_app body xs ys s :
  for_each body (xs ++ ys) s =
  match for_each body xs s with
  | (s', None) => for_each body ys s'
  | (s', Some e) => (s', Some e)
  end.
Proof.
  revert s. induction xs as [|x xs IH]; intros s; simpl; [done|].
  destruct (body s x); [apply IH | done].
Qed.

(** A property of the state that every completed iteration preserves holds
    when the loop stops, however it stops. *)
Lemma for_each_inv (P : S → Prop) body xs s :
  P s →
  (∀ s x s', x ∈ xs → P s → body s x = Ok s' → P s') →
  P (for_each body xs s).1.
Proof.
  revert s. induction xs as [|x xs IH]; intros s Hs Hstep; simpl; [done|].
  destruct (body s x) as [s'|e] eqn:Hb; [|done].
  apply IH.
  - apply (Hstep s x); [left | done..].
  - intros s1 y s2 Hy. apply Hstep. by right.
Qed.

(** A loop whose iterations all succeed and leave the state as it is. *)
Lemma for_each_skip body xs s :
  (∀ x, x ∈ xs → body s x = Ok s) → for_each body xs s = (s, None).
Proof.
  induction xs as [|x xs IH]; intros Hstep; simpl; [done|].
  rewrite Hstep by left. apply IH. intros y Hy. apply Hstep. by right.
Qed.

Lemma for_each_local_inv (P : S → Prop) body xs s s' :
  P s →
  (∀ s x s', x ∈ xs → P s → body s x = Ok s' → P s') →
  for_each_local body xs s = Ok s' → P s'.
Proof.
  intros Hs Hstep. unfold for_each_local.
  pose proof (for_each_inv P body xs s Hs Hstep) as HP.
  destruct (for_each body xs s) as [s1 [e|]]; [done|].
  by intros [= <-].
Qed.

End py_lemmas.

Section index_lemmas.
Context {A : Type}.
Implicit Types (l : list A) (i : Z) (k : nat).

Lemma Forall_elem (P : A → Prop) l x : Forall P l → x ∈ l → P x.
Proof. induction 1; inversion 1; subst; auto. Qed.

Lemma index_nonneg l i :
  0 ≤ i < Z.of_nat (length l) → index l i = Ok (Z.to_nat i).
Proof.
  intros Hi. unfold index. case_match; [done | lia].
Qed.

Lemma getitem_Ok l i x : getitem l i = Ok x → x ∈ l.
Proof.
  unfold getitem. destruct (index l i) as [k|]; simpl; [|done].
  destruct (l !! k) eqn:Hk; [|done].
  intros [= <-]. by eapply list_elem_of_lookup_2.
Qed.

Lemma getitem_nonneg l i x :
  0 ≤ i → l !! Z.to_nat i = Some x → getitem l i = Ok x.
Proof.
  intros Hi Hx. unfold getitem. rewrite index_nonneg.
  - simpl. by rewrite Hx.
  - apply lookup_lt_Some in Hx. lia.
Qed.

Lemma setitem_Forall (P : A → Prop) l i x l' :
  Forall P l → P x → setitem l i x = Ok l' → Forall P l'.
Proof.
  unfold setitem. destruct (index l i) as [k|]; simpl; [|done].
  intros Hl Hx [= <-]. by apply Forall_insert.
Qed.

End index_lemmas.

Lemma leb_spec x y : leb x y = true ↔ (x ≤ y)%Qc.
Proof. unfold leb. apply Qle_bool_iff. Qed.

Lemma ltb_false x y : ltb x y = false ↔ (y ≤ x)%Qc.
Proof.
  unfold ltb. rewrite negb_false_iff. apply Qle_bool_iff.
Qed.

Lemma truediv_Ok x y z : truediv x y = Ok z ↔ y ≠ 0%Qc ∧ z = (x / y)%Qc.
Proof.
  unfold truediv, Qc_eq_bool. destruct (Qcanon.Qc_eq_dec y 0%Qc) as [->|Hy].
  - split; [done | by intros [[] _]].
  - split; [by intros [= <-] | by intros [_ ->]].
Qed.


Lemma enumerate_snoc {A : Type} (l : list A) x :
  enumerate (l ++ [x]) = enumerate l ++ [(Z.of_nat (length l), x)].
Proof. unfold enumerate. rewrite imap_app. simpl. by rewrite Nat.add_0_r. Qed.

Lemma enumerate_elem {A} (l : list A) i x : (i, x) ∈ enumerate l → x ∈ l.
Proof.
  unfold enumerate. intros (k & y & [= -> ->] & Hk)%elem_of_lookup_imap.
  by eapply list_elem_of_lookup_2.
Qed.

(** A loop whose iterations all succeed, with an invariant that counts
    them. *)
Lemma for_each_counted {S X : Type} (P : nat → S → Prop)
    (body : S → X → result S) xs s :
  P 0%nat s →
  (∀ k x s, xs !! k = Some x → P k s →
            ∃ s', body s x = Ok s' ∧ P (Datatypes.S k) s') →
  ∃ s', for_each body xs s = (s', None) ∧ P (length xs) s'.
Proof.
  induction xs as [|x xs IH] using rev_ind; intros Hs Hstep.
  { by exists s. }
  destruct IH as (s1 & Hrun & Hs1); [done| |].
  { intros k y s0 Hy. apply Hstep. by apply lookup_app_l_Some. }
  destruct (Hstep (length xs) x s1) as (s2 & Hbody & Hs2); [|done|].
  { by rewrite list_lookup_middle. }
  exists s2. rewrite for_each_app, Hrun. simpl. rewrite Hbody.
  split; [done|]. rewrite length_app. simpl.
  by rewrite Nat.add_1_r.
Qed.

Lemma range_lookup n k x : range n !! k = Some x → x = Z.of_nat k ∧ x < n.
Proof.
  unfold range. rewrite list_lookup_fmap.
  destruct (seq 0 (Z.to_nat n) !! k) as [j|] eqn:Hj; [|done].
  apply lookup_seq in Hj as [-> ?]. intros [= <-]. lia.
Qed.

Lemma range_length n : length (range n) = Z.to_nat n.
Proof. unfold range. by rewrite length_fmap, length_seq. Qed.

Lemma enumerate_lookup {A : Type} (l : list A) k i x :
  enumerate l !! k = Some (i, x) → i = Z.of_nat k ∧ l !! k = Some x.
Proof.
  unfold enumerate. rewrite list_lookup_imap.
  destruct (l !! k); [|done]. by intros [= <- <-].
Qed.

Lemma enumerate_length {A : Type} (l : list A) :
  length (enumerate l) = length l.
Proof. unfold enumerate. apply length_imap. Qed.

Lemma clamp_inside {A : Type} (l : list A) i :
  0 ≤ i ≤ Z.of_nat (length l) → clamp l i = Z.to_nat i.
Proof. intros Hi. unfold clamp. case_match; lia. Qed.

Lemma bind_Raise {A B : Type} (m : result A) (f : A → result B) e :
  m ≫= f = Raise e ↔ m = Raise e ∨ ∃ x, m = Ok x ∧ f x = Raise e.
Proof.
  destruct m as [x|e']; simpl.
  - split; [intros H; right; by exists x | by intros [?|(? & [= <-] & ?)]].
  - split; [intros [= <-]; by left | by intros [[= <-]|(? & ? & _)]].
Qed.

(** The exception that stops a loop is one that its body raised, in a state
    that the completed iterations led to. *)
Lemma for_each_raises {S X : Type} (P : S → Prop) (Q : exn → Prop)
    (body : S → X → result S) xs s e :
  P s →
  (∀ s x s', x ∈ xs → P s → body s x = Ok s' → P s') →
  (∀ s x e, x ∈ xs → P s → body s x = Raise e → Q e) →
  (for_each body xs s).2 = Some e → Q e.
Proof.
  revert s. induction xs as [|x xs IH]; intros s Hs Hstep Hraise; simpl.
  { done. }
  destruct (body s x) as [s'|e'] eqn:Hb.
  - apply IH.
    + apply (Hstep s x); [left | done..].
    + intros s1 y s2 Hy. apply Hstep. by right.
    + intros s1 y e1 Hy. apply Hraise. by right.
  - intros [= <-]. apply (Hraise s x); [left | done..].
Qed.

Lemma mod_Ok x y z : mod_ x y = Ok z ↔ y ≠ 0 ∧ z = x `mod` y.
Proof.
  unfold mod_. destruct (Z.eqb_spec y 0).
  - split; [done | by intros [? _]].
  - split; [by intros [= <-] | by intros [_ ->]].
Qed.

Lemma floordiv_Ok x y z : floordiv x y = Ok z ↔ y ≠ 0 ∧ z = x `div` y.
Proof.
  unfold floordiv. destruct (Z.eqb_spec y 0).
  - split; [done | by intros [? _]].
  - split; [by intros [= <-] | by intros [_ ->]].
Qed.

(** Two lists of the same length that agree at a position agree under the
    subscript of that position. *)
Lemma getitem_agree {A : Type} (l1 l2 : list A) i :
  length l1 = length l2 → 0 ≤ i →
  l1 !! Z.to_nat i = l2 !! Z.to_nat i →
  getitem l1 i = getitem l2 i.
Proof.
  intros Hlen Hi Hlookup. unfold getitem, index. rewrite Hlen.
  destruct ((0 <=? i) && (i <? Z.of_nat (length l2))); simpl.
  - by rewrite Hlookup.
  - case_match; [lia | done].
Qed.

Lemma for_each_mut_app {S X : Type} (body : S → X → S * option exn) xs ys s :
  for_each_mut body (xs ++ ys) s
  = and_then (for_each_mut body xs s) (for_each_mut body ys).
Proof.
  revert s. induction xs as [|x xs IH]; intros s; simpl.
  - done.
  - unfold and_then at 1 3. destruct (body s x) as [s' [e|]]; [done|].
    apply IH.
Qed.

(** A property of the state that every iteration preserves, whether it
    completes or raises, holds when the loop stops. *)
Lemma for_each_mut_inv {S X : Type} (P : S → Prop)
    (body : S → X → S * option exn) xs s :
  P s →
  (∀ s x, x ∈ xs → P s → P (body s x).1) →
  P (for_each_mut body xs s).1.
Proof.
  revert s. induction xs as [|x xs IH]; intros s Hs Hstep; simpl; [done|].
  pose proof (Hstep s x ltac:(left) Hs) as Hs'.
  unfold and_then. destruct (body s x) as [s' [e|]]; [done|].
  apply IH; [done|]. intros s1 y Hy. apply Hstep. by right.
Qed.

End PyFacts.

Import PyFacts.

(** * The canvas *)

Module CanvasFacts.

Import CanvasPy CanvasSpec.

(** ** The channel invariant *)

Lemma color_ok_transparent_black : color_ok (mkColor 0 0 0 0).
Proof. repeat split; done. Qed.

Lemma RgbaColor_init_ok r g b a p :
  RgbaColor_init r g b a = Ok p → color_ok p ∧ p = mkColor r g b a.
Proof.
  unfold RgbaColor_init. intros H.
  repeat match type of H with
  | (if ?c then _ else _) = _ =>
      destruct c eqn:?; [done|]
  end.
  injection H as <-.
  repeat match goal with
  | E : _ || _ = false |- _ =>
      apply orb_false_iff in E as [?%ltb_false ?%ltb_false]
  end.
  by repeat split.
Qed.

(** Inequalities between canonical rationals, read as inequalities of [Q]. *)
Ltac qc_to_q :=
  unfold channel_ok, Qcle, Qclt, Qcminus, Qcplus, Qcmult, Qcopp in *;
  simpl in *;
  repeat match goal with
  | H : context [Qred _] |- _ => rewrite !Qred_correct in H
  end;
  rewrite ?Qred_correct.

(** The new alpha of source-over-destination stays within [0, 1]. *)
Lemma over_alpha_ok sa da :
  channel_ok sa → channel_ok da → channel_ok (sa + da * (1 - sa))%Qc.
Proof.
  intros [Hs0 Hs1] [Hd0 Hd1]. qc_to_q.
  assert (0 <= this da * (1 + - this sa))%Q by nra.
  assert (this da * (1 + - this sa) <= 1 + - this sa)%Q by nra.
  split; lra.
Qed.

(** The numerator of a blended channel lies between 0 and the new alpha. *)
Lemma over_numerator_ok sc sa dc da :
  channel_ok sc → channel_ok sa → channel_ok dc → channel_ok da →
  (0 ≤ sc * sa + dc * da * (1 - sa))%Qc ∧
  (sc * sa + dc * da * (1 - sa) ≤ sa + da * (1 - sa))%Qc.
Proof.
  intros [Hc0 Hc1] [Hs0 Hs1] [He0 He1] [Hd0 Hd1]. qc_to_q.
  assert (0 <= this sc * this sa)%Q by nra.
  assert (this sc * this sa <= this sa)%Q by nra.
  assert (0 <= this da * (1 + - this sa))%Q by nra.
  assert (0 <= this dc * (this da * (1 + - this sa)))%Q by nra.
  assert (this dc * (this da * (1 + - this sa))
          <= this da * (1 + - this sa))%Q by nra.
  split; lra.
Qed.

Lemma quotient_ok (x y : Qc) :
  (0 ≤ x)%Qc → (x ≤ y)%Qc → y ≠ 0%Qc → channel_ok (x / y)%Qc.
Proof.
  intros Hx Hxy Hy.
  assert (0 < y)%Qc as Hpos.
  { apply Qcle_lt_or_eq in Hxy as [Hlt | ->].
    - by eapply Qcle_lt_trans.
    - apply Qcle_lt_or_eq in Hx as [Hlt | Heq]; [done | by destruct Hy]. }
  split.
  - unfold Qcdiv. apply Qcmult_nonneg_nonneg; [done|].
    by apply Qclt_le_weak, Qcinv_pos.
  - apply (Qcmult_lt_0_le_reg_r _ _ y); [done|].
    replace (x / y * y)%Qc with x by (by field).
    by rewrite Qcmult_1_l.
Qed.

Lemma over_ok s d d' :
  color_ok s → color_ok d → over s d = Ok d' → color_ok d'.
Proof.
  intros (Hsr & Hsg & Hsb & Hsa) (Hdr & Hdg & Hdb & Hda). unfold over.
  cbv zeta. intros H.
  apply bind_Ok in H as (r' & [Hne ->]%truediv_Ok & H).
  apply bind_Ok in H as (g' & [_ ->]%truediv_Ok & H).
  apply bind_Ok in H as (b' & [_ ->]%truediv_Ok & H).
  destruct (ltb _ _); injection H as <-; [apply color_ok_transparent_black|].
  repeat split; simpl;
    try (apply quotient_ok; [apply over_numerator_ok..|]; done);
    by apply over_alpha_ok.
Qed.

Lemma blend_color_ok ign s d d' :
  color_ok s → color_ok d → blend_color ign s d = Ok d' → color_ok d'.
Proof.
  unfold blend_color. intros Hs Hd. case_match.
  - intros [= <-]. by destruct s.
  - by apply over_ok.
Qed.

Lemma blend_body_ok sw sh srcw ox oy ign px i s px' :
  Forall color_ok px → color_ok s →
  blend_body sw sh srcw ox oy ign px i s = Ok px' → Forall color_ok px'.
Proof.
  intros Hpx Hs. unfold blend_body. intros H.
  apply bind_Ok in H as (src_x & _ & H).
  apply bind_Ok in H as (src_y & _ & H).
  case_match; [by injection H as <-|].
  apply bind_Ok in H as (k & _ & H).
  apply bind_Ok in H as (d & Hd & H).
  apply bind_Ok in H as (d' & Hd' & H).
  injection H as <-. apply Forall_insert; [done|].
  eapply blend_color_ok; [done| |done].
  apply getitem_Ok in Hd. by apply (Forall_elem _ _ _ Hpx).
Qed.

Lemma blend_pixels_ok self src ox oy ign :
  pixels_ok self → pixels_ok src → pixels_ok (blend self src ox oy ign).1.
Proof.
  intros Hself Hsrc. unfold blend, pixels_ok.
  match goal with |- context [for_each ?f ?xs ?s] =>
    pose proof (for_each_inv (Forall color_ok) f xs s Hself) as H;
    destruct (for_each f xs s) as [px e] end.
  apply H. intros px0 [i s] px1 Hin Hpx0. apply blend_body_ok; [done|].
  apply enumerate_elem in Hin. by apply (Forall_elem _ _ _ Hsrc).
Qed.

Lemma blend_self_pixels_ok self ox oy ign :
  pixels_ok self → pixels_ok (blend_self self ox oy ign).1.
Proof.
  intros Hself. unfold blend_self, pixels_ok.
  match goal with |- context [for_each ?f ?xs ?s] =>
    pose proof (for_each_inv (Forall color_ok) f xs s Hself) as H;
    destruct (for_each f xs s) as [px e] end.
  apply H. intros px0 i px1 _ Hpx0.
  destruct (getitem px0 i) as [s|] eqn:Hs; simpl; [|done].
  apply blend_body_ok; [done|].
  apply getitem_Ok in Hs. by apply (Forall_elem _ _ _ Hpx0).
Qed.

Lemma clear_pixels_ok c : color_ok (bgcolor c) → pixels_ok (clear c).
Proof.
  intros Hbg. unfold pixels_ok, clear. simpl.
  apply Forall_fmap, Forall_true. by intros ?.
Qed.

Lemma Canvas_init_pixels_ok w h bg : color_ok bg → pixels_ok (Canvas_init w h bg).
Proof. intros Hbg. by apply clear_pixels_ok. Qed.

Lemma copy_pixels_ok c : pixels_ok c → pixels_ok (copy c).
Proof. unfold pixels_ok, copy. simpl. by rewrite list_fmap_id. Qed.

Lemma import_data_pixels_ok stride color_of c data :
  (∀ channels p, color_of channels = Ok p → color_ok p) →
  pixels_ok c → pixels_ok (import_data stride color_of c data).1.
Proof.
  intros Hcolor Hc. unfold import_data.
  destruct (range3 _ _ _) as [offsets|]; [|done].
  match goal with |- context [for_each ?f ?xs ?s] =>
    pose proof (for_each_inv (Forall color_ok) f xs s Hc) as H;
    destruct (for_each f xs s) as [px e] end.
  apply H. intros px0 i px1 _ Hpx0. unfold import_body. intros Hbody.
  apply bind_Ok in Hbody as (channels & _ & Hbody).
  apply bind_Ok in Hbody as (p & Hp & Hbody).
  eapply setitem_Forall; [done| |done]. by eapply Hcolor.
Qed.

Lemma import_rgb_data_pixels_ok c data :
  pixels_ok c → pixels_ok (import_rgb_data c data).1.
Proof.
  apply import_data_pixels_ok. intros channels p.
  destruct channels as [|? [|? [|? [|]]]]; try done.
  by intros [? _]%RgbaColor_init_ok.
Qed.

Lemma import_rgba_data_pixels_ok c data :
  pixels_ok c → pixels_ok (import_rgba_data c data).1.
Proof.
  apply import_data_pixels_ok. intros channels p.
  destruct channels as [|? [|? [|? [|? [|]]]]]; try done.
  by intros [? _]%RgbaColor_init_ok.
Qed.

Lemma rect_pixels_ok c x y w h rc :
  color_ok (bgcolor c) → pixels_ok c → rect c x y w h = Ok rc → pixels_ok rc.
Proof.
  intros Hbg Hc. unfold rect.
  repeat (case_match; [done|]).
  destruct (for_each_local _ _ _) as [px|] eqn:Hpx; simpl; [|done].
  intros [= <-]. unfold pixels_ok. simpl.
  eapply (for_each_local_inv (Forall color_ok)); [| |exact Hpx].
  { by apply Canvas_init_pixels_ok. }
  intros px0 ty px1 _ Hpx0.
  apply (for_each_local_inv (Forall color_ok)); [done|].
  intros px2 tx px3 _ Hpx2. unfold rect_body. intros Hbody.
  apply bind_Ok in Hbody as (color & Hat & Hbody).
  eapply setitem_Forall; [done| |done].
  unfold at_ in Hat. destruct (coordinate_to_index _ _ _); simpl in Hat; [|done].
  apply getitem_Ok in Hat. by apply (Forall_elem _ _ _ Hc).
Qed.

(** ** Blending a fully transparent source *)

Lemma canvas_wf_width c : canvas_wf c → canvas c ≠ [] → width c ≠ 0.
Proof.
  unfold canvas_wf. intros Hwf Hne Hw. rewrite Hw, Z.mul_0_l in Hwf.
  by destruct (canvas c).
Qed.

(** A target inside the destination is a position of its pixel list. *)
Lemma target_index (px : list RgbaColor) sw sh tx ty :
  length px = Z.to_nat (sw * sh) →
  (tx <? 0) || (tx >? sw - 1) || (ty <? 0) || (ty >? sh - 1) = false →
  index px (ty * sw + tx) = Ok (Z.to_nat (ty * sw + tx)) ∧
  0 ≤ ty * sw + tx < sw * sh.
Proof.
  intros Hlen Hin.
  assert (0 ≤ ty * sw + tx < sw * sh) as Hidx by nia.
  split; [|done]. apply index_nonneg. lia.
Qed.


(** Under a fully transparent source, a destination pixel of positive alpha
    below 0.000001 is reset to transparent black. *)
Lemma over_transparent_collapse s d :
  a s = 0%Qc → a d ≠ 0%Qc → (a d < q 1 1000000)%Qc →
  over s d = Ok (mkColor 0 0 0 0).
Proof.
  intros Hs Hne Hd. unfold over. rewrite Hs.
  replace (0 + a d * (1 - 0))%Qc with (a d) by ring.
  assert (∀ x : Qc, truediv x (a d) = Ok (x / a d)%Qc) as Hdiv.
  { intros x. by apply truediv_Ok. }
  rewrite !Hdiv. simpl.
  assert (ltb (a d) (q 1 1000000) = true) as ->; [|done].
  unfold ltb. apply negb_true_iff, not_true_iff_false.
  intros Hle%Qle_bool_iff. by apply Qle_not_lt in Hle.
Qed.





(** Over a destination pixel of alpha exactly 0 the new alpha is 0 and the
    division by it raises [ZeroDivisionError], before the test on the new
    alpha is reached. *)
Lemma blend_transparent_source_raises :
  let self := Canvas_init 1 1 (mkColor 0 0 0 0) in
  let src := Canvas_init 1 1 (mkColor 0 0 0 0) in
  blend self src 0 0 false = (self, Some ZeroDivisionError).
Proof. reflexivity. Qed.

(** ** Importing raw pixel data *)

Lemma channel_of_byte_ok n : is_byte n → channel_ok (channel_of_byte n).
Proof.
  intros [H0 H1]. unfold channel_of_byte.
  apply quotient_ok.
  - rewrite <- Z2Qc_inj_0. by apply (proj1 (Z2Qc_inj_le 0 n)).
  - replace (q 255 1) with (Qc_of_Z 255) by (apply Qc_is_canon; reflexivity).
    apply (proj1 (Z2Qc_inj_le n 255)). lia.
  - done.
Qed.

Lemma RgbaColor_init_Ok r g b a :
  color_ok (mkColor r g b a) → RgbaColor_init r g b a = Ok (mkColor r g b a).
Proof.
  intros ([? ?] & [? ?] & [? ?] & [? ?]); simpl in *. unfold RgbaColor_init.
  by rewrite !(proj2 (ltb_false _ _)).
Qed.

Section import_data.
Context (stride : nat) (color_of : list Z → result RgbaColor).
Context (pixel : nat → RgbaColor) (data : list Z).
Context (Hstride : (0 < stride)%nat).
Context (Hcolor : ∀ k, (k < length data `div` stride)%nat →
  color_of (take stride (drop (k * stride) data)) = Ok (pixel k)).

Local Abbreviation body := (import_body stride color_of data).
Local Abbreviation offset :=
  (λ k : nat, 0 + Z.of_nat k * Z.of_nat stride).

Lemma import_whole_pixel px k :
  (k < length data `div` stride)%nat → (k < length px)%nat →
  body px (offset k) = Ok (<[k:=pixel k]> px).
Proof using Hstride Hcolor.
  intros Hk Hpx. unfold import_body, unpack_from_B.
  pose proof (Nat.div_mod_eq (length data) stride) as Hdiv.
  pose proof (Nat.mod_upper_bound (length data) stride) as Hmod.
  case_match; [nia|]. simpl.
  replace (Z.to_nat (0 + Z.of_nat k * Z.of_nat stride)) with (k * stride)%nat
    by lia.
  rewrite Hcolor by done. simpl.
  replace ((0 + Z.of_nat k * Z.of_nat stride) `div` Z.of_nat stride)
    with (Z.of_nat k) by (rewrite Z.add_0_l, Z.div_mul; lia).
  unfold setitem. rewrite index_nonneg by lia. simpl.
  by rewrite Nat2Z.id.
Qed.

Lemma import_whole_pixels px m :
  (m ≤ length data `div` stride)%nat → (m ≤ length px)%nat →
  for_each body (offset <$> seq 0 m) px = (overwritten m pixel px, None).
Proof using Hstride Hcolor.
  unfold overwritten. induction m as [|m IH]; intros Hm Hpx; [done|].
  rewrite seq_S, !fmap_app, for_each_app, IH by lia. simpl.
  rewrite import_whole_pixel; [|lia|rewrite length_app, length_fmap,
    length_seq, length_drop; lia].
  f_equal. rewrite <- (Nat.add_0_r m) at 1.
  replace m with (length (pixel <$> seq 0 m)) at 1
    by (by rewrite length_fmap, length_seq).
  rewrite insert_app_r, <- app_assoc. f_equal.
  destruct (lookup_lt_is_Some_2 px m) as [x Hx]; [lia|].
  by rewrite (drop_S _ _ _ Hx).
Qed.

Lemma import_partial_pixel px :
  (length data `mod` stride ≠ 0)%nat →
  body px (offset (length data `div` stride)%nat) = Raise StructError.
Proof using Hstride.
  intros Hmod. unfold import_body, unpack_from_B.
  pose proof (Nat.div_mod_eq (length data) stride) as Hdiv.
  pose proof (Nat.mod_upper_bound (length data) stride) as Hlt.
  case_match; [done | nia].
Qed.

Lemma range3_offsets :
  range3 0 (Z.of_nat (length data)) (Z.of_nat stride) =
  Ok (offset <$> seq 0 (length data `div` stride
                        + (if (length data `mod` stride =? 0)%nat
                           then 0 else 1))).
Proof using Hstride.
  unfold range3.
  pose proof (Nat.div_mod_eq (length data) stride) as Hdiv.
  pose proof (Nat.mod_upper_bound (length data) stride) as Hlt.
  destruct (Z.of_nat stride =? 0) eqn:E; [lia|].
  destruct (0 <? Z.of_nat stride) eqn:E'; [|lia].
  do 3 f_equal.
  set (n := (length data `div` stride)%nat) in *.
  set (m := (length data `mod` stride)%nat) in *.
  replace (Z.of_nat (length data) - 0 + Z.of_nat stride - 1)
    with ((Z.of_nat n + (if (m =? 0)%nat then 0 else 1)) * Z.of_nat stride
          + (if (m =? 0)%nat then Z.of_nat stride - 1 else Z.of_nat m - 1)).
  - rewrite Z.div_add_l, Z.div_small by (destruct (m =? 0)%nat eqn:?; lia).
    destruct (m =? 0)%nat; lia.
  - destruct (m =? 0)%nat eqn:?; nia.
Qed.

Lemma import_data_overwrites c :
  (length data `div` stride ≤ length (canvas c))%nat →
  import_data stride color_of c data =
  (with_canvas c (overwritten (length data `div` stride) pixel (canvas c)),
   if (length data `mod` stride =? 0)%nat then None else Some StructError).
Proof using Hstride Hcolor.
  intros Hfit. unfold import_data. rewrite range3_offsets.
  rewrite seq_app, fmap_app, for_each_app.
  rewrite import_whole_pixels by done.
  destruct (length data `mod` stride =? 0)%nat eqn:E; simpl; [done|].
  rewrite import_partial_pixel; [done | lia].
Qed.

End import_data.

Lemma drop_cons_total (l : list Z) i :
  (i < length l)%nat → drop i l = l !!! i :: drop (S i) l.
Proof.
  intros Hi. destruct (lookup_lt_is_Some_2 l i Hi) as [x Hx].
  by rewrite (drop_S _ _ _ Hx), (list_lookup_total_correct _ _ _ Hx).
Qed.

Lemma Forall_lookup_total_byte (data : list Z) i :
  Forall is_byte data → (i < length data)%nat → is_byte (data !!! i).
Proof.
  intros Hdata Hi. destruct (lookup_lt_is_Some_2 data i Hi) as [x Hx].
  rewrite (list_lookup_total_correct _ _ _ Hx).
  apply (Forall_elem _ _ _ Hdata). by eapply list_elem_of_lookup_2.
Qed.

Lemma rgb_color_of data k :
  Forall is_byte data → (k < length data `div` 3)%nat →
  match take 3 (drop (k * 3) data) with
  | [r; g; b] =>
      RgbaColor_init (channel_of_byte r) (channel_of_byte g)
                     (channel_of_byte b) 1
  | _ => Raise StructError
  end = Ok (rgb_pixel data k).
Proof.
  intros Hdata Hk.
  pose proof (Nat.div_mod_eq (length data) 3) as Hdiv.
  rewrite (drop_cons_total data (k * 3)) by lia.
  rewrite (drop_cons_total data (S (k * 3))) by lia.
  rewrite (drop_cons_total data (S (S (k * 3)))) by lia.
  simpl.
  replace (k * 3)%nat with (3 * k)%nat by lia.
  replace (S (3 * k)) with (3 * k + 1)%nat by lia.
  replace (S (3 * k + 1)) with (3 * k + 2)%nat by lia.
  apply RgbaColor_init_Ok.
  repeat split; simpl; try done;
    apply channel_of_byte_ok, Forall_lookup_total_byte; done || lia.
Qed.

Lemma rgba_color_of data k :
  Forall is_byte data → (k < length data `div` 4)%nat →
  match take 4 (drop (k * 4) data) with
  | [r; g; b; a] =>
      RgbaColor_init (channel_of_byte r) (channel_of_byte g)
                     (channel_of_byte b) (channel_of_byte a)
  | _ => Raise StructError
  end = Ok (rgba_pixel data k).
Proof.
  intros Hdata Hk.
  pose proof (Nat.div_mod_eq (length data) 4) as Hdiv.
  rewrite (drop_cons_total data (k * 4)) by lia.
  rewrite (drop_cons_total data (S (k * 4))) by lia.
  rewrite (drop_cons_total data (S (S (k * 4)))) by lia.
  rewrite (drop_cons_total data (S (S (S (k * 4))))) by lia.
  simpl.
  replace (k * 4)%nat with (4 * k)%nat by lia.
  replace (S (4 * k)) with (4 * k + 1)%nat by lia.
  replace (S (4 * k + 1)) with (4 * k + 2)%nat by lia.
  replace (S (4 * k + 2)) with (4 * k + 3)%nat by lia.
  apply RgbaColor_init_Ok.
  repeat split; simpl;
    apply channel_of_byte_ok, Forall_lookup_total_byte; done || lia.
Qed.

(** An import whose buffer holds whole pixels only succeeds, and overwrites
    the first [len / stride] pixels in row-major order. *)
Lemma import_rgb_data_whole c data :
  Forall is_byte data →
  (length data `div` 3 ≤ length (canvas c))%nat →
  (length data `mod` 3 = 0)%nat →
  import_rgb_data c data =
  (with_canvas c (overwritten (length data `div` 3) (rgb_pixel data) (canvas c)),
   None).
Proof.
  intros Hdata Hfit Hmod. unfold import_rgb_data.
  rewrite (import_data_overwrites 3 _ (rgb_pixel data)); [|lia| |done].
  - by rewrite Hmod.
  - intros k Hk. by apply rgb_color_of.
Qed.

Lemma import_rgba_data_whole c data :
  Forall is_byte data →
  (length data `div` 4 ≤ length (canvas c))%nat →
  (length data `mod` 4 = 0)%nat →
  import_rgba_data c data =
  (with_canvas c (overwritten (length data `div` 4) (rgba_pixel data) (canvas c)),
   None).
Proof.
  intros Hdata Hfit Hmod. unfold import_rgba_data.
  rewrite (import_data_overwrites 4 _ (rgba_pixel data)); [|lia| |done].
  - by rewrite Hmod.
  - intros k Hk. by apply rgba_color_of.
Qed.

(** C3, as amended.  A buffer that holds no more whole pixels than the
    pixel array has its [len // stride] whole pixels written into the pixel
    array in row-major order (stride 3 for [import_rgb_data], 4 for
    [import_rgba_data]).  When its length is not a multiple of the stride,
    the import then fails with [struct.error] at the trailing partial pixel;
    when it is, the import completes without error. *)
Theorem import_partial_pixel_raises c data :
  Forall is_byte data →
  ((length data `div` 3 ≤ length (canvas c))%nat →
   import_rgb_data c data =
   (with_canvas c
      (overwritten (length data `div` 3) (rgb_pixel data) (canvas c)),
    if (length data `mod` 3 =? 0)%nat then None else Some StructError)) ∧
  ((length data `div` 4 ≤ length (canvas c))%nat →
   import_rgba_data c data =
   (with_canvas c
      (overwritten (length data `div` 4) (rgba_pixel data) (canvas c)),
    if (length data `mod` 4 =? 0)%nat then None else Some StructError)).
Proof.
  intros Hdata. split; intros Hfit.
  - unfold import_rgb_data.
    rewrite (import_data_overwrites 3 _ (rgb_pixel data)); [done|lia| |done].
    intros k Hk. by apply rgb_color_of.
  - unfold import_rgba_data.
    rewrite (import_data_overwrites 4 _ (rgba_pixel data)); [done|lia| |done].
    intros k Hk. by apply rgba_color_of.
Qed.

Lemma import_partial_pixel_raises_witness :
  let c := Canvas_init 2 1 (mkColor 0 0 0 1) in
  let data := [255; 0; 0; 51; 102] in
  import_rgb_data c data =
    (with_canvas c (overwritten 1 (rgb_pixel data) (canvas c)),
     Some StructError) ∧
  import_rgba_data c data =
    (with_canvas c (overwritten 1 (rgba_pixel data) (canvas c)),
     Some StructError) ∧
  import_rgb_data c (take 3 data) =
    (with_canvas c (overwritten 1 (rgb_pixel (take 3 data)) (canvas c)),
     None) ∧
  import_rgba_data c (take 4 data) =
    (with_canvas c (overwritten 1 (rgba_pixel (take 4 data)) (canvas c)),
     None).
Proof.
  intros c data.
  assert (Forall is_byte data) as Hdata by (repeat constructor; lia).
  assert (Forall is_byte (take 3 data)) as Hdata3
    by (repeat constructor; lia).
  assert (Forall is_byte (take 4 data)) as Hdata4
    by (repeat constructor; lia).
  destruct (import_partial_pixel_raises c data Hdata) as [Hrgb Hrgba].
  destruct (import_partial_pixel_raises c (take 3 data) Hdata3) as [Hrgb3 _].
  destruct (import_partial_pixel_raises c (take 4 data) Hdata4) as [_ Hrgba4].
  split; [|split; [|split]].
  - apply Hrgb. simpl. lia.
  - apply Hrgba. simpl. lia.
  - apply Hrgb3. simpl. lia.
  - apply Hrgba4. simpl. lia.
Defined.

(** C3 as stated fails: a trailing partial pixel is not truncated, the
    import raises [struct.error] on it. *)
Lemma import_short_trailing_bytes_raise :
  (import_rgb_data (Canvas_init 2 1 (mkColor 0 0 0 1)) [255; 255; 255; 51]).2
  = Some StructError ∧
  (import_rgba_data (Canvas_init 2 1 (mkColor 0 0 0 1))
                    [255; 255; 255; 51; 7]).2
  = Some StructError.
Proof. split; reflexivity. Qed.

(** ** Flattening to RGB bytes *)

Lemma floor_channel x : channel_ok x → 0 ≤ floor (x * q 255 1)%Qc ≤ 255.
Proof.
  intros [H0 H1]. unfold floor.
  assert (0 <= this (x * q 255 1)%Qc)%Q as Hlo.
  { change (0 ≤ x * q 255 1)%Qc. by apply Qcmult_nonneg_nonneg. }
  assert (this (x * q 255 1)%Qc <= inject_Z 255)%Q as Hhi.
  { change (x * q 255 1 ≤ q 255 1)%Qc.
    rewrite <- (Qcmult_1_l (q 255 1)) at 2.
    by apply Qcmult_le_compat_r. }
  apply Qfloor_resp_le in Hlo, Hhi. rewrite Qfloor_Z in Hhi.
  change (Qfloor 0) with 0 in Hlo. lia.
Qed.

Lemma pack_opaque_rgb p : color_ok p → pack_B (opaque_rgb p) = Ok (opaque_rgb p).
Proof.
  intros (Hr & Hg & Hb & _). unfold pack_B, opaque_rgb. simpl.
  apply floor_channel in Hr, Hg, Hb.
  repeat (case_match; try lia). done.
Qed.

(** Writing three bytes over the first three zeros that follow a filled
    prefix. *)
Lemma setslice_fill (filled packed : list Z) (m rest : nat) :
  length filled = (3 * m)%nat → length packed = 3%nat →
  setslice (filled ++ replicate (3 * (1 + rest)) 0)
           (Z.of_nat m * 3) (Z.of_nat m * 3 + 3) packed
  = (filled ++ packed) ++ replicate (3 * rest) 0.
Proof.
  intros Hfilled Hpacked. unfold setslice.
  rewrite !clamp_inside by (rewrite length_app, length_replicate; lia).
  replace (Z.to_nat (Z.of_nat m * 3)) with (length filled) by lia.
  replace (Z.to_nat (Z.of_nat m * 3 + 3)) with (length filled + 3)%nat by lia.
  rewrite Nat.max_r by lia.
  rewrite take_app_length, drop_app_add, drop_replicate, <- app_assoc.
  do 3 f_equal. lia.
Qed.

Lemma bytes_body_opaque bg filled (m rest : nat) p :
  length filled = (3 * m)%nat → color_ok p → a p = 1%Qc →
  bytes_body bg (filled ++ replicate (3 * (1 + rest)) 0) (Z.of_nat m) p
  = Ok ((filled ++ opaque_rgb p) ++ replicate (3 * rest) 0).
Proof.
  intros Hfilled Hp Ha. unfold bytes_body. rewrite Ha.
  change (leb (q 999 1000) 1) with true. cbv iota.
  fold (opaque_rgb p). rewrite pack_opaque_rgb by done.
  unfold mbind, result_bind. by rewrite setslice_fill.
Qed.

Lemma length_flat_map_opaque_rgb l :
  length (l ≫= opaque_rgb) = (3 * length l)%nat.
Proof.
  induction l as [|p l IH]; [done|].
  rewrite bind_cons, length_app, IH. simpl. lia.
Qed.

Lemma bytes_loop_opaque bg l rest :
  Forall color_ok l → Forall (λ p, a p = 1%Qc) l →
  for_each (λ data '(i, color), bytes_body bg data i color) (enumerate l)
           (replicate (3 * (length l + rest)) 0)
  = ((l ≫= opaque_rgb) ++ replicate (3 * rest) 0, None).
Proof.
  revert rest. induction l as [|p l IH] using rev_ind; intros rest Hok Ha.
  { done. }
  apply Forall_app in Hok as [Hok Hp%Forall_inv].
  apply Forall_app in Ha as [Ha Hpa%Forall_inv].
  rewrite enumerate_snoc, for_each_app, length_app.
  change (length [p]) with 1%nat.
  replace (length l + 1 + rest)%nat with (length l + (1 + rest))%nat by lia.
  rewrite IH by done. cbn [for_each].
  rewrite bytes_body_opaque by (done || apply length_flat_map_opaque_rgb).
  rewrite bind_app. simpl. by rewrite <- !app_assoc.
Qed.



(** ** Extracting a rectangle and blending it back *)

(** Position of the pixel at [(x, y)] in the pixel list of a well-formed
    canvas. *)
Lemma at_inside c x y :
  canvas_wf c → 0 ≤ x < width c → 0 ≤ y < height c →
  ∃ p, canvas c !! Z.to_nat (x + width c * y) = Some p ∧ at_ c x y = Ok p.
Proof.
  intros Hwf Hx Hy. unfold canvas_wf in Hwf.
  assert (0 ≤ x + width c * y < width c * height c) as Hidx by nia.
  destruct (lookup_lt_is_Some_2 (canvas c) (Z.to_nat (x + width c * y)))
    as [p Hp]; [lia|].
  exists p. split; [done|]. unfold at_, coordinate_to_index.
  case_match; [lia|]. simpl. apply getitem_nonneg; [lia | done].
Qed.

Lemma cell_div_mod w i j :
  0 ≤ i < w → (j * w + i) `div` w = j ∧ (j * w + i) `mod` w = i.
Proof.
  intros Hi. split.
  - rewrite Z.add_comm, Z.div_add by lia. rewrite Z.div_small; lia.
  - rewrite Z.add_comm, Z.mod_add by lia. apply Z.mod_small; lia.
Qed.

Section rect.
Context (c : Canvas) (x y w h : Z).
Context (Hwf : canvas_wf c).
Context (Hx : 0 ≤ x ≤ width c - 1) (Hy : 0 ≤ y ≤ height c - 1).
Context (Hw : 0 ≤ w) (Hh : 0 ≤ h).
Context (Hfitx : x + w ≤ width c) (Hfity : y + h ≤ height c).

Local Abbreviation filled := (CanvasSpec.filled c x y w h).
Local Abbreviation inner := (rect_body c x y w).

Lemma rect_cell px i j :
  0 ≤ i < w → 0 ≤ j < h → filled (j * w + i) px →
  ∃ px', inner j px i = Ok px' ∧ filled (j * w + i + 1) px'.
Proof using Hwf Hx Hy Hw Hh Hfitx Hfity.
  intros Hi Hj [Hlen Hcells]. unfold rect_body.
  destruct (at_inside c (x + i) (y + j)) as (p & Hp & ->); [done|lia..|].
  simpl. unfold setitem.
  assert (0 ≤ j * w + i < w * h) as Hidx by nia.
  rewrite index_nonneg by lia. simpl.
  eexists. split; [done|]. split; [by rewrite length_insert|].
  intros k Hk. destruct (decide (k = j * w + i)) as [->|Hne].
  - rewrite list_lookup_insert_eq by lia.
    destruct (cell_div_mod w i j Hi) as [-> ->]. by rewrite Hp.
  - rewrite list_lookup_insert_ne by lia. apply Hcells. lia.
Qed.

Lemma rect_row px j :
  0 ≤ j < h → filled (j * w) px →
  ∃ px', for_each_local (inner j) (range w) px = Ok px' ∧
         filled ((j + 1) * w) px'.
Proof using Hwf Hx Hy Hw Hh Hfitx Hfity.
  intros Hj Hpx. unfold for_each_local.
  destruct (for_each_counted (λ n, filled (j * w + Z.of_nat n))
              (inner j) (range w) px) as (px' & -> & Hpx').
  - by rewrite Z.add_0_r.
  - intros k i px0 [-> Hi]%range_lookup Hpx0.
    destruct (rect_cell px0 (Z.of_nat k) j) as (px1 & ? & Hpx1); [lia..|done|].
    exists px1. split; [done|].
    by replace (j * w + Z.of_nat (S k)) with (j * w + Z.of_nat k + 1) by lia.
  - exists px'. split; [done|].
    rewrite range_length in Hpx'.
    by replace ((j + 1) * w) with (j * w + Z.of_nat (Z.to_nat w)) by lia.
Qed.

Lemma rect_rows px :
  filled 0 px →
  ∃ px', for_each_local
           (λ px target_y, for_each_local (inner target_y) (range w) px)
           (range h) px = Ok px' ∧
         filled (h * w) px'.
Proof using Hwf Hx Hy Hw Hh Hfitx Hfity.
  intros Hpx. unfold for_each_local at 1.
  destruct (for_each_counted (λ n, filled (Z.of_nat n * w))
              (λ px target_y, for_each_local (inner target_y) (range w) px)
              (range h) px) as (px' & -> & Hpx').
  - done.
  - intros k j px0 [-> Hj]%range_lookup Hpx0.
    destruct (rect_row px0 (Z.of_nat k)) as (px1 & ? & Hpx1); [lia|done|].
    exists px1. split; [done|].
    by replace (Z.of_nat (S k)) with (Z.of_nat k + 1) by lia.
  - exists px'. split; [done|].
    rewrite range_length in Hpx'. by rewrite Z2Nat.id in Hpx'.
Qed.

(** [rect] succeeds on a rectangle that fits, and returns its pixels. *)
Lemma rect_Ok : ∃ rc, rect c x y w h = Ok rc ∧ rect_of c x y w h rc.
Proof using Hwf Hx Hy Hw Hh Hfitx Hfity.
  unfold rect.
  repeat (case_match; [lia|]).
  destruct (rect_rows (canvas (Canvas_init w h (bgcolor c))))
    as (px & Hrun & Hlen & Hcells).
  { split; [|lia]. simpl. by rewrite length_fmap, range_length. }
  cbv zeta. rewrite Hrun. simpl.
  eexists. split; [done|].
  repeat split; simpl; [done|].
  intros i j Hi Hj.
  destruct (at_inside c (x + i) (y + j)) as (p & Hp & ->); [done|lia..|].
  exists p. split; [done|].
  unfold at_, coordinate_to_index. simpl. case_match; [lia|]. simpl.
  apply getitem_nonneg; [lia|].
  replace (i + w * j) with (j * w + i) by lia.
  rewrite Hcells by nia.
  destruct (cell_div_mod w i j Hi) as [-> ->]. done.
Qed.

End rect.

Lemma blend_color_replace ign s d :
  ign = true ∨ opaque s → blend_color ign s d = Ok s.
Proof.
  intros H. unfold blend_color.
  assert (ign || leb (q 999999 1000000) (a s) = true) as ->.
  { destruct H as [->|H]; [done|]. apply orb_true_iff. right.
    by apply leb_spec. }
  by destruct s.
Qed.

(** Two source pixels of a source that fits the destination never share
    their target. *)
Lemma target_inj W w x y k1 k2 :
  0 < w → 0 ≤ x → x + w ≤ W →
  (y + k1 `div` w) * W + (x + k1 `mod` w)
  = (y + k2 `div` w) * W + (x + k2 `mod` w) →
  k1 = k2.
Proof.
  intros Hw Hx Hfit Heq.
  pose proof (Z.mod_pos_bound k1 w Hw) as Hb1.
  pose proof (Z.mod_pos_bound k2 w Hw) as Hb2.
  assert (k1 `div` w = k2 `div` w) as Hdiv by nia.
  assert (k1 `mod` w = k2 `mod` w) as Hmod by nia.
  rewrite (Z.div_mod k1 w), (Z.div_mod k2 w) by lia. congruence.
Qed.

Section blend_back.
Context (self src : Canvas) (x y : Z) (ign : bool).
Context (Hself : canvas_wf self) (Hsrc : canvas_wf src).
Context (Hw : 0 ≤ width src) (Hh : 0 ≤ height src).
Context (Hx : 0 ≤ x) (Hy : 0 ≤ y).
Context (Hfitx : x + width src ≤ width self).
Context (Hfity : y + height src ≤ height self).
Context (Hreplace : ign = true ∨ Forall opaque (canvas src)).

Local Abbreviation placed := (CanvasSpec.placed self src x y).

Lemma blend_body_replace px (k : nat) s :
  canvas src !! k = Some s → placed (Z.of_nat k) px →
  ∃ px', blend_body (width self) (height self) (width src) x y ign
                    px (Z.of_nat k) s = Ok px' ∧
         placed (Z.of_nat (S k)) px'.
Proof using Hself Hsrc Hw Hh Hx Hy Hfitx Hfity Hreplace.
  intros Hs [Hlen Hplaced].
  assert (Z.of_nat k < width src * height src) as Hk.
  { apply lookup_lt_Some in Hs. unfold canvas_wf in Hsrc. lia. }
  assert (0 < width src) as Hpos by nia.
  pose proof (Z.mod_pos_bound (Z.of_nat k) (width src) Hpos) as Hmod.
  assert (0 ≤ Z.of_nat k `div` width src < height src) as Hdiv.
  { split; [apply Z.div_pos; lia|]. apply Z.div_lt_upper_bound; lia. }
  unfold blend_body, mod_, floordiv.
  destruct (width src =? 0) eqn:E; [lia|]. simpl.
  case_match eqn:Hin; [lia|].
  destruct (target_index px _ _ _ _ Hlen Hin) as [Hidx Hrange].
  rewrite Hidx. simpl.
  match goal with |- context [getitem px ?i] =>
    destruct (lookup_lt_is_Some_2 px (Z.to_nat i)) as [d Hd]; [lia|];
    rewrite (getitem_nonneg px i d) by (done || lia) end.
  simpl. rewrite blend_color_replace.
  2:{ destruct Hreplace as [?|Hop]; [by left | right].
      apply (Forall_elem _ _ _ Hop). by eapply list_elem_of_lookup_2. }
  simpl. eexists. split; [done|]. split; [by rewrite length_insert|].
  intros k' Hk'. destruct (decide (k' = Z.of_nat k)) as [->|Hne].
  - rewrite list_lookup_insert_eq by lia. by rewrite Nat2Z.id.
  - rewrite list_lookup_insert_ne; [apply Hplaced; lia|].
    intros Heq. apply Hne. symmetry.
    apply (target_inj (width self) (width src) x y); [done..|].
    pose proof (Z.mod_pos_bound k' (width src) Hpos).
    assert (0 ≤ k' `div` width src) by (apply Z.div_pos; lia).
    nia.
Qed.

(** Blending a source that lies within the destination, and whose pixels
    are all copied as they are, puts every source pixel at its target. *)
Lemma blend_replace :
  ∃ self', blend self src x y ign = (self', None) ∧
    width self' = width self ∧ height self' = height self ∧
    ∀ i j, 0 ≤ i < width src → 0 ≤ j < height src →
      ∃ p, at_ src i j = Ok p ∧ at_ self' (x + i) (y + j) = Ok p.
Proof using Hself Hsrc Hw Hh Hx Hy Hfitx Hfity Hreplace.
  unfold blend.
  match goal with |- context [for_each ?f ?xs ?s] =>
    destruct (for_each_counted (λ n, placed (Z.of_nat n)) f xs s)
      as (px & -> & Hlen & Hplaced) end.
  - split; [done | lia].
  - intros k [i s] px [-> Hs]%enumerate_lookup Hpx.
    by apply blend_body_replace.
  - eexists. split; [done|]. split; [done|]. split; [done|].
    intros i j Hi Hj. rewrite enumerate_length in Hplaced.
    destruct (at_inside src i j) as (p & Hp & ->); [done..|].
    exists p. split; [done|].
    unfold at_, coordinate_to_index. simpl. case_match; [lia|]. simpl.
    apply getitem_nonneg; [nia|].
    specialize (Hplaced (j * width src + i)).
    destruct (cell_div_mod (width src) i j Hi) as [Hd Hm].
    rewrite Hd, Hm in Hplaced.
    replace (x + i + width self * (y + j))
      with ((y + j) * width self + (x + i)) by lia.
    rewrite Hplaced.
    + by replace (j * width src + i) with (i + width src * j) by lia.
    + unfold canvas_wf in Hsrc. nia.
Qed.

End blend_back.

(** Two colours are equal when their channels are equal as fractions. *)
Lemma color_ext p1 p2 :
  this (r p1) = this (r p2) → this (g p1) = this (g p2) →
  this (b p1) = this (b p2) → this (a p1) = this (a p2) → p1 = p2.
Proof.
  destruct p1, p2; simpl. intros Hr Hg Hb Ha.
  f_equal; apply Qc_is_canon; by rewrite ?Hr, ?Hg, ?Hb, ?Ha.
Qed.

Lemma clear_copy_wf c :
  canvas_wf (clear (copy c)) ∧
  width (clear (copy c)) = width c ∧ height (clear (copy c)) = height c.
Proof.
  repeat split. unfold canvas_wf. simpl. by rewrite length_fmap, range_length.
Qed.

(** C4, as amended.  For every (well-formed) canvas and every rectangle
    [(x, y, w, h)] that [rect] accepts, [rect] returns the rectangle; and when
    the extracted pixels all have alpha at least 0.999999, or the blend is
    told to ignore the source alpha, blending the extracted canvas at offset
    [(x, y)] onto a cleared copy of the canvas succeeds and reproduces the
    pixels of the original rectangle exactly. *)
Theorem rect_then_blend_reproduces c x y w h ign :
  canvas_wf c →
  0 ≤ x ≤ width c - 1 → 0 ≤ y ≤ height c - 1 →
  0 ≤ w → 0 ≤ h →
  x + w ≤ width c → y + h ≤ height c →
  ∃ rc, rect c x y w h = Ok rc ∧ rect_of c x y w h rc ∧
    (ign = true ∨ Forall opaque (canvas rc) →
     ∃ c', blend (clear (copy c)) rc x y ign = (c', None) ∧
       ∀ i j, 0 ≤ i < w → 0 ≤ j < h →
         ∃ p, at_ c (x + i) (y + j) = Ok p ∧ at_ c' (x + i) (y + j) = Ok p).
Proof.
  intros Hwf Hx Hy Hw Hh Hfitx Hfity.
  destruct (rect_Ok c x y w h) as (rc & Hrect & Hof); [done..|].
  exists rc. split; [done|]. split; [done|]. intros Hreplace.
  destruct Hof as (Hrw & Hrh & _ & Hrwf & Hcells).
  destruct (clear_copy_wf c) as (Hcwf & Hcw & Hch).
  destruct (blend_replace (clear (copy c)) rc x y ign)
    as (c' & Hblend & _ & _ & Hplaced); try done; try lia.
  exists c'. split; [done|]. intros i j Hi Hj.
  destruct (Hcells i j Hi Hj) as (p & Hp & Hrc).
  destruct (Hplaced i j) as (p' & Hrc' & Hp'); [lia..|].
  exists p. split; [done|]. congruence.
Qed.

Lemma rect_then_blend_reproduces_witness :
  let c := (import_rgb_data (Canvas_init 2 2 (mkColor 0 0 0 1))
              [255; 0; 0; 0; 255; 0; 0; 0; 255; 255; 255; 255]).1 in
  ∃ rc c', rect c 1 0 1 2 = Ok rc ∧
    blend (clear (copy c)) rc 1 0 false = (c', None) ∧
    ∀ i j, 0 ≤ i < 1 → 0 ≤ j < 2 →
      ∃ p, at_ c (1 + i) (0 + j) = Ok p ∧ at_ c' (1 + i) (0 + j) = Ok p.
Proof.
  intros c.
  destruct (rect_then_blend_reproduces c 1 0 1 2 false)
    as (rc & Hrect & _ & Hblend); [reflexivity | simpl; lia..|].
  destruct Hblend as (c' & Hblend & Hsame).
  - right. vm_compute in Hrect. injection Hrect as <-.
    repeat constructor; vm_compute; discriminate.
  - by exists rc, c'.
Defined.

(** C4 as stated fails: a translucent pixel is composited over the
    background of the cleared copy, not copied.  The pixel (1, 1, 1, 0.2)
    over opaque black comes back as (0.2, 0.2, 0.2, 1). *)
Lemma rect_then_blend_changes_translucent_pixel :
  let c := (import_rgba_data (Canvas_init 1 1 (mkColor 0 0 0 1))
              [255; 255; 255; 51]).1 in
  ∃ rc c', rect c 0 0 1 1 = Ok rc ∧
    blend (clear (copy c)) rc 0 0 false = (c', None) ∧
    at_ c 0 0 = Ok (mkColor 1 1 1 (q 1 5)) ∧
    at_ c' 0 0 = Ok (mkColor (q 1 5) (q 1 5) (q 1 5) 1) ∧
    at_ c' 0 0 ≠ at_ c 0 0.
Proof.
  intros c. eexists. eexists. split; [reflexivity|]. split; [reflexivity|].
  split; [|split].
  - apply (f_equal Ok), color_ext; reflexivity.
  - apply (f_equal Ok), color_ext; reflexivity.
  - intros Heq. apply (f_equal (λ o, match o with
                                      | Ok p => this (r p)
                                      | Raise _ => 0%Q
                                      end)) in Heq.
    vm_compute in Heq. discriminate.
Qed.

(** ** The channel invariant, operation by operation *)

(** C10.  In exact arithmetic, every canvas operation leaves every pixel's
    four channels within [0.0, 1.0]: construction and [clear] (with a valid
    background colour), [blend] for all offsets and flags, of another canvas
    or of the canvas itself, both imports, [copy], and [rect], also when the
    operation is cut short by an exception. *)
Theorem canvas_operations_preserve_channel_range self src :
  color_ok (bgcolor self) → pixels_ok self → pixels_ok src →
  (∀ w h, pixels_ok (Canvas_init w h (bgcolor self))) ∧
  pixels_ok (clear self) ∧
  pixels_ok (copy self) ∧
  (∀ ox oy ign, pixels_ok (blend self src ox oy ign).1) ∧
  (∀ ox oy ign, pixels_ok (blend_self self ox oy ign).1) ∧
  (∀ data, pixels_ok (import_rgb_data self data).1) ∧
  (∀ data, pixels_ok (import_rgba_data self data).1) ∧
  (∀ x y w h rc, rect self x y w h = Ok rc →
                 pixels_ok rc ∧ color_ok (bgcolor rc)).
Proof.
  intros Hbg Hself Hsrc.
  split; [intros w h; by apply Canvas_init_pixels_ok|].
  split; [by apply clear_pixels_ok|].
  split; [by apply copy_pixels_ok|].
  split; [intros; by apply blend_pixels_ok|].
  split; [intros; by apply blend_self_pixels_ok|].
  split; [intros; by apply import_rgb_data_pixels_ok|].
  split; [intros; by apply import_rgba_data_pixels_ok|].
  intros x y w h rc Hrect. split; [by eapply rect_pixels_ok|].
  revert Hrect. unfold rect. repeat (case_match; [done|]).
  by intros (px & _ & [= <-])%bind_Ok.
Qed.

Lemma canvas_operations_preserve_channel_range_witness :
  let self := Canvas_init 2 2 (mkColor 0 0 0 1) in
  let src := Canvas_init 2 1 (mkColor 1 1 1 (q 1 2)) in
  pixels_ok (blend self src 1 1 false).1 ∧
  pixels_ok (blend_self self 1 0 false).1 ∧
  pixels_ok (import_rgba_data self [1; 2; 3; 4; 5]).1.
Proof.
  intros self src.
  destruct (canvas_operations_preserve_channel_range self src)
    as (_ & _ & _ & Hblend & Hblend_self & _ & Himport & _).
  - repeat split; vm_compute; discriminate.
  - repeat constructor; vm_compute; discriminate.
  - repeat constructor; vm_compute; discriminate.
  - repeat split; [apply Hblend | apply Hblend_self | apply Himport].
Defined.

(** ** Coordinates and positions *)

Lemma inside_dec c x y :
  (x <? 0) || (x >? width c - 1) || (y <? 0) || (y >? height c - 1) = false
  ↔ inside c x y.
Proof. unfold inside. lia. Qed.

(** X1.  [coordinate_to_index] numbers the pixels row by row: on the
    coordinates of a pixel it returns a position below width × height, from
    which [blend]'s [i % width, i // width] gives the coordinates back; on
    any other coordinates it raises [ValueError]; and every position below
    width × height is the index of the coordinates [(i % width, i // width)]. *)
Theorem coordinate_to_index_row_major c :
  (∀ x y, inside c x y →
     ∃ i, coordinate_to_index c x y = Ok i ∧ 0 ≤ i < width c * height c ∧
          i `mod` width c = x ∧ i `div` width c = y) ∧
  (∀ x y, ¬ inside c x y →
     coordinate_to_index c x y = Raise (ValueError CoordinatesOutOfBounds)) ∧
  (∀ i, 0 < width c → 0 ≤ i < width c * height c →
     inside c (i `mod` width c) (i `div` width c) ∧
     coordinate_to_index c (i `mod` width c) (i `div` width c) = Ok i).
Proof.
  split; [|split].
  - intros x y Hin. pose proof Hin as [Hx Hy].
    exists (x + width c * y). unfold coordinate_to_index.
    rewrite (proj2 (inside_dec c x y) Hin). split; [done|].
    split; [nia|].
    replace (x + width c * y) with (y * width c + x) by lia.
    destruct (cell_div_mod (width c) x y Hx) as [-> ->]. done.
  - intros x y Hout. unfold coordinate_to_index.
    destruct (_ || _) eqn:E; [done|]. by apply inside_dec in E.
  - intros i Hw Hi.
    pose proof (Z.mod_pos_bound i (width c) Hw) as Hmod.
    assert (0 ≤ i `div` width c < height c) as Hdiv.
    { split; [apply Z.div_pos; lia|]. apply Z.div_lt_upper_bound; lia. }
    split; [done|]. unfold coordinate_to_index.
    rewrite (proj2 (inside_dec c _ _)) by done.
    f_equal. pose proof (Z.div_mod i (width c)). lia.
Qed.

Lemma coordinate_to_index_row_major_witness :
  let c := Canvas_init 3 2 (mkColor 0 0 0 1) in
  (∃ i, coordinate_to_index c 2 1 = Ok i ∧ i `mod` 3 = 2 ∧ i `div` 3 = 1) ∧
  coordinate_to_index c 3 1 = Raise (ValueError CoordinatesOutOfBounds) ∧
  coordinate_to_index c (5 `mod` 3) (5 `div` 3) = Ok 5.
Proof.
  intros c.
  destruct (coordinate_to_index_row_major c) as (Hin & Hout & Hback).
  split; [|split].
  - destruct (Hin 2 1) as (i & Hi & _ & Hmod & Hdiv); [|by exists i].
    unfold inside. simpl. lia.
  - apply Hout. unfold inside. simpl. lia.
  - apply Hback; simpl; lia.
Defined.

(** X2.  On a canvas that holds width × height pixels, [at] returns the
    pixel stored at position [x + width * y] for the coordinates of a pixel,
    and raises [ValueError], never [IndexError], for any other
    coordinates. *)
Theorem at_defined_inside c x y :
  canvas_wf c →
  (inside c x y →
   ∃ p, at_ c x y = Ok p ∧
        canvas c !! Z.to_nat (x + width c * y) = Some p) ∧
  (¬ inside c x y →
   at_ c x y = Raise (ValueError CoordinatesOutOfBounds)).
Proof.
  intros Hwf. split.
  - intros [Hx Hy].
    destruct (at_inside c x y Hwf Hx Hy) as (p & Hp & Hat). by exists p.
  - intros Hout. unfold at_, coordinate_to_index.
    destruct (_ || _) eqn:E; [done|]. by apply inside_dec in E.
Qed.

Lemma at_defined_inside_witness :
  let c := (import_rgb_data (Canvas_init 2 2 (mkColor 0 0 0 1))
              [255; 0; 0; 0; 255; 0; 0; 0; 255; 255; 255; 255]).1 in
  (∃ p, at_ c 1 1 = Ok p ∧ canvas c !! 3%nat = Some p) ∧
  at_ c 2 0 = Raise (ValueError CoordinatesOutOfBounds).
Proof.
  intros c.
  destruct (at_defined_inside c 1 1) as [Hin _]; [reflexivity|].
  destruct (at_defined_inside c 2 0) as [_ Hout]; [reflexivity|].
  split.
  - apply Hin. unfold inside. simpl. lia.
  - apply Hout. unfold inside. simpl. lia.
Defined.

(** ** The shape of a canvas *)

Lemma blend_body_length sw sh srcw ox oy ign px i s px' :
  blend_body sw sh srcw ox oy ign px i s = Ok px' → length px' = length px.
Proof.
  unfold blend_body. intros H.
  apply bind_Ok in H as (src_x & _ & H).
  apply bind_Ok in H as (src_y & _ & H).
  case_match; [by injection H as <-|].
  apply bind_Ok in H as (k & _ & H).
  apply bind_Ok in H as (d & _ & H).
  apply bind_Ok in H as (d' & _ & H).
  injection H as <-. apply length_insert.
Qed.

Lemma setitem_length {A : Type} (l : list A) i x l' :
  setitem l i x = Ok l' → length l' = length l.
Proof.
  unfold setitem. intros (k & _ & [= <-])%bind_Ok. apply length_insert.
Qed.

Lemma blend_same_shape self src ox oy ign :
  same_shape self (blend self src ox oy ign).1.
Proof.
  unfold blend, same_shape.
  match goal with |- context [for_each ?f ?xs ?s] =>
    pose proof (for_each_inv (λ px, length px = length s) f xs s eq_refl) as H;
    destruct (for_each f xs s) as [px e] end.
  repeat split. apply H. intros px0 [i s] px1 _ <-. apply blend_body_length.
Qed.

Lemma blend_self_same_shape self ox oy ign :
  same_shape self (blend_self self ox oy ign).1.
Proof.
  unfold blend_self, same_shape.
  match goal with |- context [for_each ?f ?xs ?s] =>
    pose proof (for_each_inv (λ px, length px = length s) f xs s eq_refl) as H;
    destruct (for_each f xs s) as [px e] end.
  repeat split. apply H. intros px0 i px1 _ <-.
  intros (s & _ & Hbody)%bind_Ok. by eapply blend_body_length.
Qed.

Lemma import_data_same_shape stride color_of c data :
  same_shape c (import_data stride color_of c data).1.
Proof.
  unfold import_data, same_shape.
  destruct (range3 _ _ _) as [offsets|]; [|done].
  match goal with |- context [for_each ?f ?xs ?s] =>
    pose proof (for_each_inv (λ px, length px = length s) f xs s eq_refl) as H;
    destruct (for_each f xs s) as [px e] end.
  repeat split. apply H. intros px0 i px1 _ <-. unfold import_body.
  intros (channels & _ & (p & _ & Hset)%bind_Ok)%bind_Ok.
  by eapply setitem_length.
Qed.

(** What [rect] has checked when it returns, and the shape of what it
    returns. *)
Lemma rect_inv c x y w h rc :
  rect c x y w h = Ok rc →
  (0 ≤ x ≤ width c - 1 ∧ 0 ≤ y ≤ height c - 1 ∧ 0 ≤ w ∧ 0 ≤ h ∧
   x + w ≤ width c ∧ y + h ≤ height c) ∧
  width rc = w ∧ height rc = h ∧ bgcolor rc = bgcolor c ∧ canvas_wf rc.
Proof.
  unfold rect.
  repeat (case_match; [done|]).
  intros (px & Hpx & [= <-])%bind_Ok.
  split; [lia|]. repeat split. unfold canvas_wf. simpl.
  eapply (for_each_local_inv (λ px, length px = Z.to_nat (w * h)));
    [| |exact Hpx].
  { simpl. by rewrite length_fmap, range_length. }
  intros px0 ty px1 _ Hpx0.
  apply (for_each_local_inv (λ px, length px = Z.to_nat (w * h))); [done|].
  intros px2 tx px3 _ <-. unfold rect_body.
  intros (color & _ & Hset)%bind_Ok. by eapply setitem_length.
Qed.

(** X3.  No canvas operation changes the number of pixels, the dimensions
    or the background colour of the canvas it works on, also when an
    exception cuts it short: [clear] and the constructor make a canvas of
    width × height pixels (none, when that is negative), [copy], [blend]
    and the two imports keep the shape of the canvas, and the canvas that
    [rect] returns holds exactly the width × height it was asked for. *)
Theorem canvas_operations_preserve_shape self src :
  canvas_wf (clear self) ∧
  (∀ w h bg, canvas_wf (Canvas_init w h bg)) ∧
  same_shape self (copy self) ∧
  (∀ ox oy ign, same_shape self (blend self src ox oy ign).1) ∧
  (∀ ox oy ign, same_shape self (blend_self self ox oy ign).1) ∧
  (∀ data, same_shape self (import_rgb_data self data).1) ∧
  (∀ data, same_shape self (import_rgba_data self data).1) ∧
  (∀ x y w h rc, rect self x y w h = Ok rc →
     canvas_wf rc ∧ width rc = w ∧ height rc = h ∧
     bgcolor rc = bgcolor self).
Proof.
  assert (∀ c, canvas_wf (clear c)) as Hclear.
  { intros c. unfold canvas_wf, clear. simpl.
    by rewrite length_fmap, range_length. }
  split; [apply Hclear|].
  split; [intros w h bg; apply Hclear|].
  split; [repeat split; simpl; apply length_fmap|].
  split; [intros; apply blend_same_shape|].
  split; [intros; apply blend_self_same_shape|].
  split; [intros; apply import_data_same_shape|].
  split; [intros; apply import_data_same_shape|].
  intros x y w h rc (_ & Hw & Hh & Hbg & Hwf)%rect_inv. done.
Qed.

(** ** Rectangles of rectangles *)

(** A canvas is determined by its shape and the pixels at its
    coordinates. *)
Lemma canvas_ext c1 c2 :
  canvas_wf c1 → canvas_wf c2 →
  width c2 = width c1 → height c2 = height c1 → bgcolor c2 = bgcolor c1 →
  0 ≤ width c1 →
  (∀ i j, inside c1 i j → at_ c2 i j = at_ c1 i j) →
  c2 = c1.
Proof.
  intros Hwf1 Hwf2 Hw Hh Hbg Hpos Hat.
  assert (canvas c2 = canvas c1) as Hpx.
  { apply list_eq. intros k.
    destruct (decide (k < length (canvas c1))%nat) as [Hk|Hk].
    - unfold canvas_wf in Hwf1.
      assert (0 < width c1 * height c1) as Harea by lia.
      assert (0 < width c1) as Hwpos.
      { destruct (decide (width c1 = 0)) as [E|?]; [|lia].
        rewrite E in Harea. lia. }
      set (i := Z.of_nat k `mod` width c1).
      set (j := Z.of_nat k `div` width c1).
      pose proof (Z.mod_pos_bound (Z.of_nat k) (width c1) Hwpos) as Hmod.
      assert (0 ≤ j < height c1) as Hdiv.
      { split; [apply Z.div_pos; lia|]. apply Z.div_lt_upper_bound; lia. }
      assert (Z.to_nat (i + width c1 * j) = k) as Hidx.
      { pose proof (Z.div_mod (Z.of_nat k) (width c1)). unfold i, j. lia. }
      destruct (at_inside c1 i j Hwf1) as (p1 & Hp1 & Hat1); [done..|].
      destruct (at_inside c2 i j Hwf2) as (p2 & Hp2 & Hat2); [lia..|].
      rewrite Hw, Hidx in Hp2. rewrite Hidx in Hp1.
      rewrite Hat in Hat2 by done. congruence.
    - rewrite !lookup_ge_None_2; [done|lia|].
      unfold canvas_wf in *. rewrite Hwf2, Hw, Hh, <- Hwf1. lia. }
  destruct c1, c2; simpl in *. congruence.
Qed.

(** [rect] returns the rectangle it was asked for, whenever it returns. *)
Lemma rect_Ok_rect_of c x y w h rc :
  canvas_wf c → rect c x y w h = Ok rc → rect_of c x y w h rc.
Proof.
  intros Hwf Hrect.
  pose proof (rect_inv _ _ _ _ _ _ Hrect) as [(? & ? & ? & ? & ? & ?) _].
  destruct (rect_Ok c x y w h) as (rc' & Hrect' & Hof); [done..|].
  congruence.
Qed.

(** X4.  The rectangle that covers a whole canvas is a copy of the canvas. *)
Theorem rect_of_whole_canvas_is_copy c :
  canvas_wf c → 0 < width c → 0 < height c →
  rect c 0 0 (width c) (height c) = Ok (copy c).
Proof.
  intros Hwf Hw Hh.
  destruct (rect_Ok c 0 0 (width c) (height c))
    as (rc & Hrect & Hrw & Hrh & Hbg & Hrwf & Hcells); [done|lia..|].
  rewrite Hrect. f_equal.
  apply canvas_ext; simpl; try done.
  - unfold canvas_wf. simpl. by rewrite length_fmap.
  - lia.
  - intros i j [Hi Hj]. simpl in Hi, Hj.
    destruct (Hcells i j) as (p & Hp & ->); [lia..|].
    rewrite !Z.add_0_l in Hp. rewrite <- Hp.
    unfold at_, coordinate_to_index. simpl. by rewrite list_fmap_id.
Qed.

Lemma rect_of_whole_canvas_is_copy_witness :
  let c := (import_rgb_data (Canvas_init 2 1 (mkColor 0 0 0 1))
              [255; 0; 0; 0; 255; 0]).1 in
  rect c 0 0 2 1 = Ok (copy c).
Proof.
  intros c. apply (rect_of_whole_canvas_is_copy c); [reflexivity|simpl; lia..].
Defined.

(** X5.  Taking a rectangle of a rectangle is taking the rectangle of the
    canvas at the sum of the two corners. *)
Theorem rect_of_rect c x y w h rc x' y' w' h' rc' :
  canvas_wf c →
  rect c x y w h = Ok rc → rect rc x' y' w' h' = Ok rc' →
  rect c (x + x') (y + y') w' h' = Ok rc'.
Proof.
  intros Hwf Hrc Hrc'.
  pose proof (rect_inv _ _ _ _ _ _ Hrc)
    as [(Hx & Hy & Hw & Hh & Hfx & Hfy) (Hrw & Hrh & Hbg & Hrwf)].
  pose proof (rect_inv _ _ _ _ _ _ Hrc')
    as [(Hx' & Hy' & Hw' & Hh' & Hfx' & Hfy') (Hrw' & Hrh' & Hbg' & Hrwf')].
  pose proof (rect_Ok_rect_of _ _ _ _ _ _ Hwf Hrc) as (_ & _ & _ & _ & Hcells).
  pose proof (rect_Ok_rect_of _ _ _ _ _ _ Hrwf Hrc')
    as (_ & _ & _ & _ & Hcells').
  destruct (rect_Ok c (x + x') (y + y') w' h')
    as (rc'' & -> & Hrw'' & Hrh'' & Hbg'' & Hrwf'' & Hcells''); [done|lia..|].
  f_equal. apply canvas_ext; try done; try congruence; try lia.
  intros i j [Hi Hj].
  destruct (Hcells'' i j) as (p & Hp & ->); [lia..|].
  destruct (Hcells' i j) as (p' & Hp' & ->); [lia..|].
  destruct (Hcells (x' + i) (y' + j)) as (p'' & Hp'' & Hp'''); [lia..|].
  rewrite !Z.add_assoc in Hp''. congruence.
Qed.

Lemma rect_of_rect_witness :
  let c := (import_rgb_data (Canvas_init 3 2 (mkColor 0 0 0 1))
              [1; 2; 3; 4; 5; 6; 7; 8; 9;
               10; 11; 12; 13; 14; 15; 16; 17; 18]).1 in
  ∃ rc rc', rect c 1 0 2 2 = Ok rc ∧ rect rc 1 1 1 1 = Ok rc' ∧
            rect c 2 1 1 1 = Ok rc'.
Proof.
  intros c.
  destruct (rect c 1 0 2 2) as [rc|] eqn:Hrc; [|by vm_compute in Hrc].
  destruct (rect rc 1 1 1 1) as [rc'|] eqn:Hrc'.
  2:{ vm_compute in Hrc. injection Hrc as <-. by vm_compute in Hrc'. }
  exists rc, rc'. split; [done|]. split; [done|].
  by apply (rect_of_rect c 1 0 2 2 rc 1 1 1 1 rc').
Defined.

(** ** What [blend] leaves alone, and what it can raise *)

Lemma enumerate_elem_lt {A : Type} (l : list A) i x :
  (i, x) ∈ enumerate l → ∃ k : nat, i = Z.of_nat k ∧ l !! k = Some x.
Proof.
  intros [k Hk]%list_elem_of_lookup.
  apply enumerate_lookup in Hk as [-> Hx]. by exists k.
Qed.

(** The target of source pixel [k] lies under the source. *)
Lemma target_under src ox oy (k : nat) :
  canvas_wf src → 0 ≤ width src → width src ≠ 0 →
  (k < length (canvas src))%nat →
  under ox oy (width src) (height src)
        (ox + Z.of_nat k `mod` width src) (oy + Z.of_nat k `div` width src).
Proof.
  intros Hwf Hw Hne Hk. unfold canvas_wf in Hwf.
  assert (0 < width src) as Hpos by lia.
  pose proof (Z.mod_pos_bound (Z.of_nat k) (width src) Hpos).
  assert (0 ≤ Z.of_nat k `div` width src < height src).
  { split; [apply Z.div_pos; lia|]. apply Z.div_lt_upper_bound; lia. }
  unfold under. lia.
Qed.

Lemma cell_inj W x1 y1 x2 y2 :
  0 ≤ x1 < W → 0 ≤ x2 < W → y1 * W + x1 = x2 + W * y2 → x1 = x2 ∧ y1 = y2.
Proof. intros H1 H2 Heq. assert (y1 = y2) by nia. split; [nia | done]. Qed.

(** X6.  [blend] changes no pixel of the destination but those that lie
    under the source: a pixel outside the rectangle that the source covers
    at its offset reads the same after the call as before, for all flags,
    and also when the call is cut short by an exception. *)
Theorem blend_leaves_outside_unchanged self src ox oy ign X Y :
  canvas_wf self → canvas_wf src → 0 ≤ width src →
  ¬ under ox oy (width src) (height src) X Y →
  at_ (blend self src ox oy ign).1 X Y = at_ self X Y.
Proof.
  intros Hself Hsrc Hw Hout.
  destruct (blend_same_shape self src ox oy ign) as (Hsw & Hsh & _ & Hlen).
  unfold at_, coordinate_to_index. rewrite Hsw, Hsh.
  destruct (_ || _) eqn:Hin; [done|]. simpl.
  apply inside_dec in Hin as [HX HY].
  apply getitem_agree; [done | nia |].
  enough (length (canvas (blend self src ox oy ign).1) = length (canvas self)
          ∧ canvas (blend self src ox oy ign).1
              !! Z.to_nat (X + width self * Y)
            = canvas self !! Z.to_nat (X + width self * Y)) as [_ ?]; [done|].
  clear Hlen Hsw Hsh. unfold blend.
  match goal with |- context [for_each ?f ?xs ?s] =>
    pose proof (for_each_inv
      (λ px, length px = length s ∧
             px !! Z.to_nat (X + width self * Y)
             = s !! Z.to_nat (X + width self * Y)) f xs s) as Hinv;
    destruct (for_each f xs s) as [px e] end.
  simpl in *. apply Hinv; [done|].
  intros px0 [i s] px1 (k & -> & Hk)%enumerate_elem_lt [Hlen0 Hsame] Hbody.
  split; [rewrite <- Hlen0; by eapply blend_body_length|].
  rewrite <- Hsame. revert Hbody. unfold blend_body.
  intros (src_x & [Hne ->]%mod_Ok & Hbody)%bind_Ok.
  apply bind_Ok in Hbody as (src_y & [_ ->]%floordiv_Ok & Hbody).
  destruct (_ || _) eqn:Htarget; [by injection Hbody as <-|].
  assert (length px0 = Z.to_nat (width self * height self)) as Hlen1
    by (by rewrite Hlen0).
  destruct (target_index px0 _ _ _ _ Hlen1 Htarget) as [Hidx Hrange].
  rewrite Hidx in Hbody. simpl in Hbody.
  apply bind_Ok in Hbody as (d & _ & Hbody).
  apply bind_Ok in Hbody as (d' & _ & [= <-]).
  apply list_lookup_insert_ne.
  pose proof (target_under src ox oy k Hsrc Hw Hne
                (lookup_lt_Some _ _ _ Hk)) as Hunder.
  apply inside_dec in Htarget as [Htx Hty].
  intros Heq. apply Hout.
  assert (0 ≤ width self * Y) by nia.
  destruct (cell_inj (width self) (ox + Z.of_nat k `mod` width src)
              (oy + Z.of_nat k `div` width src) X Y) as [<- <-];
    [done | done | lia | done].
Qed.

Lemma blend_leaves_outside_unchanged_witness :
  let self := (import_rgb_data (Canvas_init 2 2 (mkColor 0 0 0 1))
                 [255; 0; 0; 0; 255; 0; 0; 0; 255; 255; 255; 255]).1 in
  let src := Canvas_init 1 2 (mkColor 1 1 1 (q 1 2)) in
  at_ (blend self src 1 0 false).1 0 1 = at_ self 0 1.
Proof.
  intros self src. apply blend_leaves_outside_unchanged.
  - reflexivity.
  - reflexivity.
  - simpl. lia.
  - unfold under. simpl. lia.
Defined.

(** X7.  A source placed wholly outside the destination, to the right of
    it, below it, to the left of it or above it, changes nothing and raises
    nothing, whatever the two canvases hold. *)
Theorem blend_outside_changes_nothing self src ox oy ign :
  canvas_wf src → 0 ≤ width src →
  width self ≤ ox ∨ height self ≤ oy ∨
  ox + width src ≤ 0 ∨ oy + height src ≤ 0 →
  blend self src ox oy ign = (self, None).
Proof.
  intros Hsrc Hw Hout. unfold blend.
  rewrite for_each_skip; [by destruct self|].
  intros [i s] (k & -> & Hk)%enumerate_elem_lt.
  assert (width src ≠ 0) as Hne.
  { apply canvas_wf_width; [done|]. intros E. by rewrite E in Hk. }
  pose proof (target_under src ox oy k Hsrc Hw Hne (lookup_lt_Some _ _ _ Hk))
    as [Hx Hy].
  unfold blend_body, mod_, floordiv.
  destruct (width src =? 0) eqn:E; [lia|]. simpl.
  case_match eqn:Htarget; [done|]. lia.
Qed.

Lemma blend_outside_changes_nothing_witness :
  let self := Canvas_init 2 2 (mkColor 0 0 0 0) in
  let src := Canvas_init 2 1 (mkColor 0 0 0 0) in
  blend self src (-2) 1 false = (self, None).
Proof.
  intros self src. apply blend_outside_changes_nothing.
  - reflexivity.
  - simpl. lia.
  - simpl. lia.
Defined.

(** X8.  On a destination that holds width × height pixels, [blend] raises
    nothing but [ZeroDivisionError]: no [IndexError], whatever the source
    and the offsets are. *)
Theorem blend_raises_only_zero_division self src ox oy ign e :
  canvas_wf self →
  (blend self src ox oy ign).2 = Some e → e = ZeroDivisionError.
Proof.
  intros Hself. unfold blend.
  match goal with |- context [for_each ?f ?xs ?s] =>
    pose proof (for_each_raises
      (λ px, length px = Z.to_nat (width self * height self))
      (λ e, e = ZeroDivisionError) f xs s e Hself) as Hraises;
    destruct (for_each f xs s) as [px e'] end.
  simpl in *. apply Hraises.
  - intros px0 [i s] px1 _ <-. apply blend_body_length.
  - clear. intros px [i s] e _ Hlen. unfold blend_body, mod_, floordiv.
    destruct (width src =? 0); [by intros [= <-]|]. simpl.
    destruct (_ || _) eqn:Htarget; [done|].
    destruct (target_index px _ _ _ _ Hlen Htarget) as [Hidx Hrange].
    rewrite Hidx. simpl.
    match goal with |- context [getitem px ?i] =>
      destruct (lookup_lt_is_Some_2 px (Z.to_nat i)) as [d Hd]; [lia|];
      rewrite (getitem_nonneg px i d) by (done || lia) end.
    simpl. intros [Hcolor | (d' & _ & [=])]%bind_Raise.
    revert Hcolor. unfold blend_color. case_match; [done|].
    unfold over, truediv. cbv zeta.
    destruct (Qc_eq_bool _ _); [by intros [= <-]|]. simpl. by case_match.
Qed.

Lemma blend_raises_only_zero_division_witness :
  let self := Canvas_init 1 1 (mkColor 0 0 0 0) in
  (blend self self 0 0 false).2 = Some ZeroDivisionError.
Proof.
  intros self.
  destruct (blend self self 0 0 false).2 as [e|] eqn:He; [|by vm_compute in He].
  f_equal. by apply (blend_raises_only_zero_division self self 0 0 false).
Defined.

(** ** Blending onto an opaque destination *)

(** Over a destination pixel of alpha at least 0.999999, the alpha that
    [blend] computes is at least 0.999999 as well. *)
Lemma over_alpha_opaque (sa da : Qc) :
  (0 ≤ sa)%Qc → ¬ (q 999999 1000000 ≤ sa)%Qc → (q 999999 1000000 ≤ da)%Qc →
  (q 999999 1000000 ≤ sa + da * (1 - sa))%Qc.
Proof.
  intros Hs0 Hs1 Hd. apply Qcnot_le_lt in Hs1. qc_to_q.
  assert (0 <= (this da - (999999 # 1000000)) * (1 + - this sa))%Q by nra.
  nra.
Qed.

Lemma over_onto_opaque s d :
  (0 ≤ a s)%Qc → ¬ opaque s → opaque d →
  ∃ d', over s d = Ok d' ∧ opaque d'.
Proof.
  unfold opaque. intros Hs0 Hs1 Hd.
  pose proof (over_alpha_opaque (a s) (a d) Hs0 Hs1 Hd) as Hnew.
  assert ((a s + a d * (1 - a s))%Qc ≠ 0%Qc) as Hne.
  { intros E. by rewrite E in Hnew. }
  unfold over. cbv zeta.
  assert (∀ x : Qc, truediv x (a s + a d * (1 - a s))%Qc
                    = Ok (x / (a s + a d * (1 - a s)))%Qc) as Hdiv.
  { intros x. by apply truediv_Ok. }
  rewrite !Hdiv. simpl.
  assert (ltb (a s + a d * (1 - a s)) (q 1 1000000) = false) as ->.
  { apply ltb_false. eapply Qcle_trans; [|exact Hnew]. done. }
  eexists. split; [done|]. done.
Qed.

Lemma blend_color_onto_opaque s d :
  (0 ≤ a s)%Qc → opaque d →
  ∃ d', blend_color false s d = Ok d' ∧ opaque d'.
Proof.
  intros Hs Hd. unfold blend_color. simpl.
  destruct (leb _ _) eqn:E.
  - apply leb_spec in E. eexists. split; [done|]. done.
  - apply over_onto_opaque; [done| |done].
    unfold opaque. intros Hle%leb_spec. congruence.
Qed.

(** Blending onto pixels of alpha at least 0.999999 completes, and with
    [ignore_src_alpha] false leaves such pixels (in the exact arithmetic of
    the model; in binary64 the new alpha can round just below the bound). *)
Lemma blend_onto_opaque self src ox oy ign :
  canvas_wf self → canvas_wf src →
  Forall opaque (canvas self) →
  Forall (λ p, (0 ≤ a p)%Qc) (canvas src) →
  ∃ self', blend self src ox oy ign = (self', None) ∧
           (ign = false → Forall opaque (canvas self')).
Proof.
  intros Hself Hsrc Hopaque Hsa. unfold blend.
  match goal with |- context [for_each ?f ?xs ?s] =>
    destruct (for_each_counted
      (λ _ px, length px = Z.to_nat (width self * height self) ∧
               (ign = false → Forall opaque px)) f xs s)
      as (px & -> & Hlen & Hpx) end.
  - done.
  - intros k [i s] px [-> Hs]%enumerate_lookup [Hlen Hpx].
    unfold blend_body, mod_, floordiv.
    destruct (width src =? 0) eqn:E.
    { apply canvas_wf_width in Hsrc; [lia|]. intros E'. by rewrite E' in Hs. }
    simpl. destruct (_ || _) eqn:Htarget; [by exists px|].
    destruct (target_index px _ _ _ _ Hlen Htarget) as [-> Hrange]. simpl.
    match goal with |- context [getitem px ?i] =>
      destruct (lookup_lt_is_Some_2 px (Z.to_nat i)) as [d Hd]; [lia|];
      rewrite (getitem_nonneg px i d) by (done || lia) end.
    simpl. destruct ign.
    + rewrite blend_color_replace by (by left). simpl.
      eexists. split; [done|]. split; [by rewrite length_insert | done].
    + destruct (blend_color_onto_opaque s d) as (d' & -> & Hd').
      * apply (Forall_elem _ _ _ Hsa). by eapply list_elem_of_lookup_2.
      * apply (Forall_elem _ _ _ (Hpx eq_refl)).
        by eapply list_elem_of_lookup_2.
      * simpl. eexists. split; [done|].
        split; [by rewrite length_insert|].
        intros _. apply Forall_insert; [by apply Hpx | done].
  - by eexists.
Qed.

(** X9.  Blending onto a destination whose pixels all have alpha at least
    0.999999 never raises, whatever the offsets are, provided that no source
    pixel has a negative alpha: the destination keeps its shape, and with
    [ignore_src_alpha] false every one of its pixels has alpha at least 0.999
    afterwards, the threshold from which [bytes] takes a pixel as it is. *)
Theorem blend_onto_opaque_never_raises self src ox oy ign :
  canvas_wf self → canvas_wf src →
  Forall opaque (canvas self) →
  Forall (λ p, (0 ≤ a p)%Qc) (canvas src) →
  ∃ self', blend self src ox oy ign = (self', None) ∧
           same_shape self self' ∧ canvas_wf self' ∧
           (ign = false →
            Forall (λ p, (q 999 1000 ≤ a p)%Qc) (canvas self')).
Proof.
  intros Hself Hsrc Hopaque Hsa.
  destruct (blend_onto_opaque self src ox oy ign)
    as (self' & Hblend & Hopaque'); [done..|].
  exists self'. split; [done|].
  pose proof (blend_same_shape self src ox oy ign) as Hshape.
  rewrite Hblend in Hshape. split; [done|]. split.
  - destruct Hshape as (Hw & Hh & _ & Hlen). simpl in Hw, Hh, Hlen.
    unfold canvas_wf in *. by rewrite Hlen, Hw, Hh.
  - intros Hign. eapply Forall_impl; [|exact (Hopaque' Hign)].
    intros p Hp. unfold opaque in Hp.
    apply Qcle_trans with (q 999999 1000000); [done | exact Hp].
Qed.

Lemma blend_onto_opaque_never_raises_witness :
  let self := Canvas_init 2 2 (mkColor 0 0 0 1) in
  let src := Canvas_init 2 1 (mkColor 1 1 1 0) in
  ∃ self', blend self src 1 1 false = (self', None) ∧
           same_shape self self' ∧
           Forall (λ p, (q 999 1000 ≤ a p)%Qc) (canvas self').
Proof.
  intros self src.
  destruct (blend_onto_opaque_never_raises self src 1 1 false)
    as (self' & Hblend & Hshape & _ & Hopaque).
  - reflexivity.
  - reflexivity.
  - repeat constructor; vm_compute; discriminate.
  - repeat constructor; vm_compute; discriminate.
  - exists self'. split; [done|]. split; [done | by apply Hopaque].
Defined.

(** ** Flattening any canvas *)

(** A channel composited over a background channel is a channel. *)
Lemma composite_ok x al y :
  channel_ok x → channel_ok al → channel_ok y →
  channel_ok (x * al + y * (1 - al))%Qc.
Proof.
  intros [Hx0 Hx1] [Ha0 Ha1] [Hy0 Hy1]. qc_to_q.
  assert (0 <= this x * this al)%Q by nra.
  assert (this x * this al <= this al)%Q by nra.
  assert (0 <= this y * (1 + - this al))%Q by nra.
  assert (this y * (1 + - this al) <= 1 + - this al)%Q by nra.
  split; lra.
Qed.

Lemma flat_rgb_bytes bg p :
  color_ok bg → color_ok p →
  Forall (λ n, 0 ≤ n ≤ 255) (flat_rgb bg p) ∧ length (flat_rgb bg p) = 3%nat.
Proof.
  intros (Hbr & Hbg & Hbb & _) (Hr & Hg & Hb & Ha). unfold flat_rgb.
  destruct (leb _ _).
  - split; [|done]. repeat constructor; by apply floor_channel.
  - split; [|done]. repeat constructor; by apply floor_channel, composite_ok.
Qed.

Lemma pack_B_Ok bs : Forall (λ n, 0 ≤ n ≤ 255) bs → pack_B bs = Ok bs.
Proof.
  intros Hbs. unfold pack_B.
  assert (forallb (λ b, (0 <=? b) && (b <=? 255)) bs = true) as ->; [|done].
  induction Hbs as [|n bs Hn _ IH]; [done|]. simpl. rewrite IH. lia.
Qed.

Lemma bytes_body_flat bg filled (m rest : nat) p :
  length filled = (3 * m)%nat → color_ok bg → color_ok p →
  bytes_body bg (filled ++ replicate (3 * (1 + rest)) 0) (Z.of_nat m) p
  = Ok ((filled ++ flat_rgb bg p) ++ replicate (3 * rest) 0).
Proof.
  intros Hfilled Hbg Hp.
  destruct (flat_rgb_bytes bg p Hbg Hp) as [Hbytes Hlen].
  assert (bytes_body bg (filled ++ replicate (3 * (1 + rest)) 0) (Z.of_nat m) p
          = packed ← pack_B (flat_rgb bg p);
            Ok (setslice (filled ++ replicate (3 * (1 + rest)) 0)
                         (Z.of_nat m * 3) (Z.of_nat m * 3 + 3) packed)) as ->.
  { unfold bytes_body, flat_rgb, opaque_rgb. by destruct (leb _ _). }
  rewrite pack_B_Ok by done. unfold mbind, result_bind.
  by rewrite setslice_fill.
Qed.

Lemma length_flat_rgb bg l :
  Forall color_ok l → color_ok bg →
  length (l ≫= flat_rgb bg) = (3 * length l)%nat.
Proof.
  intros Hl Hbg. induction Hl as [|p l Hp _ IH]; [done|].
  rewrite bind_cons, length_app, IH.
  destruct (flat_rgb_bytes bg p Hbg Hp) as [_ ->]. simpl. lia.
Qed.

Lemma bytes_loop_flat bg l rest :
  Forall color_ok l → color_ok bg →
  for_each (λ data '(i, color), bytes_body bg data i color) (enumerate l)
           (replicate (3 * (length l + rest)) 0)
  = ((l ≫= flat_rgb bg) ++ replicate (3 * rest) 0, None).
Proof.
  revert rest. induction l as [|p l IH] using rev_ind; intros rest Hok Hbg.
  { done. }
  apply Forall_app in Hok as [Hok Hp%Forall_inv].
  rewrite enumerate_snoc, for_each_app, length_app.
  change (length [p]) with 1%nat.
  replace (length l + 1 + rest)%nat with (length l + (1 + rest))%nat by lia.
  rewrite IH by done. cbn [for_each].
  rewrite bytes_body_flat by (done || by apply length_flat_rgb).
  rewrite bind_app. simpl. by rewrite <- !app_assoc.
Qed.

(** What [bytes] returns for a canvas of valid pixels. *)
Lemma bytes_Ok c :
  canvas_wf c → 0 ≤ width c * height c → pixels_ok c →
  color_ok (bgcolor c) →
  bytes c = Ok (canvas c ≫= flat_rgb (bgcolor c)) ∧
  Z.of_nat (length (canvas c ≫= flat_rgb (bgcolor c)))
  = width c * height c * 3 ∧
  Forall is_byte (canvas c ≫= flat_rgb (bgcolor c)).
Proof.
  intros Hwf Harea Hok Hbg. split; [|split].
  - unfold bytes, bytearray. case_match; [lia|].
    simpl. unfold for_each_local.
    replace (Z.to_nat (width c * height c * 3))
      with (3 * (length (canvas c) + 0))%nat by (rewrite Hwf; lia).
    rewrite bytes_loop_flat by done. by rewrite app_nil_r.
  - rewrite length_flat_rgb by done. rewrite Hwf. lia.
  - unfold pixels_ok in Hok. clear Hwf.
    induction Hok as [|p l Hp _ IH]; [done|].
    rewrite bind_cons. apply Forall_app. split; [|done].
    destruct (flat_rgb_bytes (bgcolor c) p Hbg Hp) as [Hbytes _].
    eapply Forall_impl; [|exact Hbytes].
    intros n Hn. unfold is_byte. simpl in Hn. lia.
Qed.

(** X10.  On a canvas that holds width × height pixels with valid channels
    and a valid background colour, [bytes] never raises unless width ×
    height is negative, when [bytearray] refuses the size: no channel,
    composited over the background or not, leaves the range that [pack]
    accepts, and the result holds width × height × 3 values that all fit a
    byte. *)
Theorem bytes_never_raises_on_valid_pixels c :
  canvas_wf c → pixels_ok c → color_ok (bgcolor c) →
  if width c * height c <? 0
  then bytes c = Raise (ValueError NegativeCount)
  else ∃ image, bytes c = Ok image ∧
                Z.of_nat (length image) = width c * height c * 3 ∧
                Forall is_byte image.
Proof.
  intros Hwf Hok Hbg.
  destruct (Z.ltb_spec (width c * height c) 0) as [Hneg|Harea].
  - unfold bytes, bytearray. case_match; [done | lia].
  - eexists. by apply bytes_Ok.
Qed.

Lemma bytes_never_raises_on_valid_pixels_witness :
  let c := Canvas_init 1 2 (mkColor 1 (q 1 2) 0 (q 1 2)) in
  ∃ image, bytes c = Ok image ∧
           Z.of_nat (length image) = 1 * 2 * 3 ∧
           Forall is_byte image.
Proof.
  intros c. apply (bytes_never_raises_on_valid_pixels c).
  - reflexivity.
  - repeat constructor; vm_compute; discriminate.
  - repeat split; vm_compute; discriminate.
Defined.

(** ** Importing and flattening again *)

(** The byte that an imported channel flattens to is the byte it was
    imported from. *)
Lemma floor_channel_of_byte n : floor (channel_of_byte n * q 255 1)%Qc = n.
Proof.
  replace (channel_of_byte n * q 255 1)%Qc with (Qc_of_Z n).
  - unfold floor, Qc_of_Z. simpl. apply Qfloor_Z.
  - unfold channel_of_byte. field. done.
Qed.

Lemma opaque_rgb_rgb_pixel data k :
  opaque_rgb (rgb_pixel data k)
  = [data !!! (3 * k)%nat; data !!! (3 * k + 1)%nat; data !!! (3 * k + 2)%nat].
Proof.
  unfold opaque_rgb, rgb_pixel. simpl. by rewrite !floor_channel_of_byte.
Qed.

Lemma take_S_total (l : list Z) m :
  (m < length l)%nat → take (S m) l = take m l ++ [l !!! m].
Proof.
  intros Hm. destruct (lookup_lt_is_Some_2 l m Hm) as [x Hx].
  by rewrite (take_S_r _ _ _ Hx), (list_lookup_total_correct _ _ _ Hx).
Qed.

Lemma flatten_rgb_pixels data n :
  (3 * n ≤ length data)%nat →
  (rgb_pixel data <$> seq 0 n) ≫= opaque_rgb = take (3 * n) data.
Proof.
  induction n as [|n IH]; intros Hn; [done|].
  rewrite seq_S, fmap_app, bind_app, IH by lia.
  change ((rgb_pixel data <$> [(0 + n)%nat]) ≫= opaque_rgb)
    with (opaque_rgb (rgb_pixel data n) ++ []).
  rewrite opaque_rgb_rgb_pixel, app_nil_r.
  replace (3 * S n)%nat with (S (S (S (3 * n)))) by lia.
  replace (3 * n + 1)%nat with (S (3 * n)) by lia.
  replace (3 * n + 2)%nat with (S (S (3 * n))) by lia.
  rewrite !take_S_total by lia. by rewrite <- !app_assoc.
Qed.

Lemma rgb_pixel_ok data k :
  Forall is_byte data → (3 * k + 2 < length data)%nat →
  color_ok (rgb_pixel data k) ∧ a (rgb_pixel data k) = 1%Qc.
Proof.
  intros Hdata Hk. split; [|done].
  repeat split; simpl; try done;
    apply channel_of_byte_ok, Forall_lookup_total_byte; done || lia.
Qed.

(** X11.  Importing a raw RGB buffer that holds exactly width × height
    pixels, and flattening the canvas with [bytes], gives the buffer back,
    byte for byte (in exact arithmetic), whatever the canvas held before and
    whatever its background colour is. *)
Theorem import_rgb_data_then_bytes c data :
  canvas_wf c → Forall is_byte data →
  Z.of_nat (length data) = width c * height c * 3 →
  ∃ c', import_rgb_data c data = (c', None) ∧ bytes c' = Ok data.
Proof.
  intros Hwf Hdata Hlen. unfold canvas_wf in Hwf.
  set (n := length (canvas c)).
  assert (length data = 3 * n)%nat as Hn by (unfold n; lia).
  assert (length data `div` 3 = n)%nat as Hdiv.
  { rewrite Hn, Nat.mul_comm. by apply Nat.div_mul. }
  assert (length data `mod` 3 = 0)%nat as Hmod.
  { rewrite Hn, Nat.mul_comm. by apply Nat.Div0.mod_mul. }
  eexists. split.
  { apply import_rgb_data_whole; [done | lia | done]. }
  rewrite Hdiv. unfold overwritten. fold n.
  rewrite drop_ge, app_nil_r by (unfold n; lia).
  unfold bytes, bytearray. simpl. case_match; [lia|].
  simpl. unfold for_each_local.
  set (l := rgb_pixel data <$> seq 0 n).
  assert (length l = n) as Hl by (unfold l; by rewrite length_fmap, length_seq).
  replace (Z.to_nat (width c * height c * 3))
    with (3 * (length l + 0))%nat by lia.
  assert (Forall (λ p, color_ok p ∧ a p = 1%Qc) l) as Hpixels.
  { apply Forall_fmap, Forall_lookup_2. intros k j Hj.
    apply lookup_seq in Hj as [-> Hk]. apply rgb_pixel_ok; [done | lia]. }
  rewrite bytes_loop_opaque.
  - rewrite app_nil_r. unfold l. rewrite flatten_rgb_pixels by lia.
    rewrite take_ge; [done | lia].
  - eapply Forall_impl; [|exact Hpixels]. by intros p [? _].
  - eapply Forall_impl; [|exact Hpixels]. by intros p [_ ?].
Qed.

Lemma import_rgb_data_then_bytes_witness :
  let c := Canvas_init 2 1 (mkColor 0 0 1 (q 1 2)) in
  ∃ c', import_rgb_data c [255; 128; 0; 1; 2; 3] = (c', None) ∧
        bytes c' = Ok [255; 128; 0; 1; 2; 3].
Proof.
  intros c. apply (import_rgb_data_then_bytes c).
  - reflexivity.
  - repeat constructor; lia.
  - reflexivity.
Defined.

(** ** Importing more pixels than the canvas holds *)

Lemma import_data_overflows stride color_of pixel data c :
  (0 < stride)%nat →
  (∀ k, (k < length data `div` stride)%nat →
        color_of (take stride (drop (k * stride) data)) = Ok (pixel k)) →
  (length (canvas c) < length data `div` stride)%nat →
  import_data stride color_of c data
  = (with_canvas c (pixel <$> seq 0 (length (canvas c))), Some IndexError).
Proof.
  intros Hstride Hcolor Hover. unfold import_data.
  rewrite range3_offsets by done.
  set (n := length (canvas c)) in *.
  match goal with |- context [seq 0 ?m] =>
    replace m with (n + S (m - S n))%nat by lia end.
  rewrite seq_app, fmap_app, for_each_app.
  rewrite (import_whole_pixels stride color_of pixel data) by (done || lia).
  unfold overwritten. fold n. rewrite drop_ge, app_nil_r by (unfold n; lia).
  cbn [seq fmap list_fmap for_each].
  assert (import_body stride color_of data (pixel <$> seq 0 n)
            (0 + Z.of_nat (0 + n) * Z.of_nat stride) = Raise IndexError)
    as ->; [|done].
  unfold import_body, unpack_from_B.
  pose proof (Nat.div_mod_eq (length data) stride) as Hdiv.
  case_match; [nia|]. simpl.
  replace (Z.to_nat (0 + Z.of_nat n * Z.of_nat stride))
    with (n * stride)%nat by lia.
  rewrite Hcolor by done. simpl.
  replace ((0 + Z.of_nat n * Z.of_nat stride) `div` Z.of_nat stride)
    with (Z.of_nat n) by (rewrite Z.add_0_l, Z.div_mul; lia).
  unfold setitem, index. rewrite length_fmap, length_seq.
  repeat case_match; done || lia.
Qed.

(** X12.  A buffer that holds more pixels than the canvas makes the import
    fail with [IndexError]; every pixel of the canvas has by then been
    overwritten, in row-major order, by the pixels at the front of the
    buffer. *)
Theorem import_data_beyond_canvas_raises c data :
  Forall is_byte data →
  ((length (canvas c) < length data `div` 3)%nat →
   import_rgb_data c data
   = (with_canvas c (rgb_pixel data <$> seq 0 (length (canvas c))),
      Some IndexError)) ∧
  ((length (canvas c) < length data `div` 4)%nat →
   import_rgba_data c data
   = (with_canvas c (rgba_pixel data <$> seq 0 (length (canvas c))),
      Some IndexError)).
Proof.
  intros Hdata. split; intros Hover.
  - apply import_data_overflows; [lia| |done].
    intros k Hk. by apply rgb_color_of.
  - apply import_data_overflows; [lia| |done].
    intros k Hk. by apply rgba_color_of.
Qed.

Lemma import_data_beyond_canvas_raises_witness :
  let c := Canvas_init 1 1 (mkColor 0 0 0 1) in
  let data := [255; 0; 0; 0; 255; 0; 7] in
  import_rgb_data c data
  = (with_canvas c (rgb_pixel data <$> seq 0 1), Some IndexError).
Proof.
  intros c data.
  destruct (import_data_beyond_canvas_raises c data) as [Hrgb _].
  - repeat constructor; lia.
  - apply Hrgb. simpl. lia.
Defined.

End CanvasFacts.

(** * The colour arithmetic in binary64 *)

Module CanvasFacts64.

Import CanvasPy64.

Lemma byte_cases (P : Z → Prop) :
  Forall (λ k, P (Z.of_nat k)) (seq 0 256) → ∀ n, is_byte n → P n.
Proof.
  intros HP n [H0 H1]. rewrite Forall_forall in HP.
  replace n with (Z.of_nat (Z.to_nat n)) by lia.
  apply HP, in_seq. lia.
Qed.

(** A channel times the alpha 0.0 is 0.0. *)
Lemma mul_channel_zero n :
  is_byte n → mul (channel_of_byte n) (of_int 0) = of_int 0.
Proof.
  revert n. apply byte_cases.
  match goal with |- ?G => apply (bool_decide_unpack G) end. by vm_compute.
Qed.

(** Under the alpha 0.0 and over the alpha 1.0, every operation on a channel
    [n / 255] is exact. *)
Lemma channel_over_opaque n :
  is_byte n →
  SpecFloat.SFdiv prec emax
    (add (of_int 0)
         (mul (mul (channel_of_byte n) (of_int 1))
              (sub (of_int 1) (of_int 0))))
    (of_int 1)
  = channel_of_byte n.
Proof.
  revert n. apply byte_cases.
  match goal with |- ?G => apply (bool_decide_unpack G) end. by vm_compute.
Qed.

(** In binary64 too, a pixel of alpha 1.0 whose channels come from bytes is
    left as it is by a source pixel of alpha 0.0. *)
Lemma blend_color_transparent_source_on_opaque sr sg sb dr dg db :
  is_byte sr → is_byte sg → is_byte sb →
  is_byte dr → is_byte dg → is_byte db →
  let src := mkColor (channel_of_byte sr) (channel_of_byte sg)
                     (channel_of_byte sb) (of_int 0) in
  let dst := mkColor (channel_of_byte dr) (channel_of_byte dg)
                     (channel_of_byte db) (of_int 1) in
  blend_color false src dst = Ok dst.
Proof.
  intros Hsr Hsg Hsb Hdr Hdg Hdb src dst.
  unfold blend_color.
  change (false || leb (literal 999999 1000000) (a src)) with false.
  unfold over. cbn [r g b a src dst].
  rewrite !mul_channel_zero by done.
  assert (add (of_int 0) (mul (of_int 1) (sub (of_int 1) (of_int 0)))
          = of_int 1) as -> by (by vm_compute).
  assert (∀ x, truediv x (of_int 1)
               = Ok (SpecFloat.SFdiv prec emax x (of_int 1))) as Hdiv by done.
  rewrite !Hdiv, !channel_over_opaque by done.
  cbn [mbind result_bind].
  by assert (ltb (of_int 1) (literal 1 1000000) = false) as ->
    by (by vm_compute).
Qed.

End CanvasFacts64.

(** ** The chunk writer *)

Module PngFacts.

Import PngWriterPy PngSpec.

(** The writer [self] once [data] has been written to its stream, after
    what the stream held. *)
Local Abbreviation appended self data :=
  (mkPngWriter (stream self ++ data) (width self) (height self)
               (dynamic_filtering self)).

Lemma lxor_range n x y :
  0 ≤ n → 0 ≤ x < 2 ^ n → 0 ≤ y < 2 ^ n → 0 ≤ Z.lxor x y < 2 ^ n.
Proof.
  intros Hn Hx Hy.
  assert (0 ≤ Z.lxor x y) as Hnonneg by (apply Z.lxor_nonneg; split; lia).
  split; [done|].
  destruct (decide (Z.lxor x y = 0)) as [->|Hne]; [lia|].
  assert (0 < n) as Hpos.
  { destruct (decide (n = 0)) as [->|?]; [|lia].
    destruct Hne. replace x with 0 by lia. by replace y with 0 by lia. }
  apply Z.log2_lt_pow2; [lia|].
  eapply Z.le_lt_trans; [apply Z.log2_lxor; lia|].
  apply Z.max_lub_lt.
  - destruct (decide (x = 0)) as [->|?]; [simpl; lia|].
    apply Z.log2_lt_pow2; lia.
  - destruct (decide (y = 0)) as [->|?]; [simpl; lia|].
    apply Z.log2_lt_pow2; lia.
Qed.

Lemma crc32_shift_range c : word32 c → word32 (crc32_shift c).
Proof.
  unfold word32, crc32_shift. intros Hc.
  assert (0 ≤ Z.shiftr c 1 < 2 ^ 31) as Hs.
  { rewrite Z.shiftr_div_pow2 by lia.
    split; [apply Z.div_pos; lia | apply Z.div_lt_upper_bound; lia]. }
  destruct (Z.odd c); [|lia].
  apply (lxor_range 32); lia.
Qed.

Lemma crc32_byte_range c byte :
  word32 c → is_byte byte → word32 (crc32_byte c byte).
Proof.
  intros Hc Hb. unfold crc32_byte.
  assert (word32 (Z.lxor c byte)) as H.
  { apply (lxor_range 32); unfold word32, is_byte in *; lia. }
  simpl. by do 8 apply crc32_shift_range.
Qed.

Lemma crc32_fold_range data c :
  Forall is_byte data → word32 c → word32 (fold_left crc32_byte data c).
Proof.
  intros Hdata. revert c. induction Hdata as [|byte data Hb _ IH]; [done|].
  intros c Hc. simpl. by apply IH, crc32_byte_range.
Qed.

Lemma crc32_init_range value :
  word32 (Z.lxor (value `mod` 2 ^ 32) 0xFFFFFFFF).
Proof.
  apply (lxor_range 32); [lia| |lia]. apply Z.mod_pos_bound. lia.
Qed.

(** A CRC-32 fits four bytes. *)
Lemma crc32_range data value : Forall is_byte data → word32 (crc32 data value).
Proof.
  intros Hdata. unfold crc32. apply (lxor_range 32); [lia| |lia].
  apply crc32_fold_range; [done|]. apply crc32_init_range.
Qed.

(** The running value chains: the CRC of [data] started from the CRC of
    [type] is the CRC of their concatenation. *)
Lemma crc32_app type data value :
  Forall is_byte type →
  crc32 data (crc32 type value) = crc32 (type ++ data) value.
Proof.
  intros Htype. unfold crc32 at 1 3. rewrite fold_left_app. do 2 f_equal.
  rewrite Z.mod_small by (by apply crc32_range).
  unfold crc32. rewrite Z.lxor_assoc, Z.lxor_nilpotent. apply Z.lxor_0_r.
Qed.

(** The checksum of the IEND chunk, as every PNG file ends with it, and the
    check value of the CRC-32 catalogue (the CRC of "123456789"). *)
Example crc32_IEND : crc32 [73; 69; 78; 68] 0 = 0xAE426082.
Proof. reflexivity. Qed.

Example crc32_check : crc32 [49; 50; 51; 52; 53; 54; 55; 56; 57] 0 = 0xCBF43926.
Proof. reflexivity. Qed.

Lemma pack_I_big_endian n :
  0 ≤ n < 2 ^ 32 → pack_I n = Ok (big_endian 4 n).
Proof.
  intros Hn. unfold pack_I. case_match; [|lia].
  cbn [big_endian app]. rewrite !Z.div_div by lia. reflexivity.
Qed.

Lemma big_endian_length k n : length (big_endian k n) = k.
Proof.
  revert n. induction k as [|k IH]; intros n; simpl; [done|].
  rewrite length_app, IH. simpl. lia.
Qed.

Lemma big_endian_bytes k n : Forall is_byte (big_endian k n).
Proof.
  revert n. induction k as [|k IH]; intros n; simpl; [done|].
  apply Forall_app. split; [apply IH|].
  repeat constructor; apply Z.mod_pos_bound; lia.
Qed.

(** The bytes of [big_endian k n] denote [n]. *)
Lemma big_endian_value_big_endian k n :
  0 ≤ n < 256 ^ Z.of_nat k → big_endian_value (big_endian k n) = n.
Proof.
  unfold big_endian_value. revert n.
  induction k as [|k IH]; intros n Hn; simpl; [simpl in Hn; lia|].
  rewrite fold_left_app. simpl. rewrite IH.
  - pose proof (Z.div_mod n 256). lia.
  - rewrite Nat2Z.inj_succ, Z.pow_succ_r in Hn by lia.
    split; [apply Z.div_pos; lia|]. apply Z.div_lt_upper_bound; lia.
Qed.

Lemma pack_4s_tag type : length type = 4%nat → pack_4s type = type.
Proof.
  intros Hlen. unfold pack_4s. rewrite Hlen. simpl.
  rewrite app_nil_r. by rewrite take_ge by lia.
Qed.

(** C5.  [write_chunk] appends to the stream, after what it held, in this
    order and nothing else: the payload length as a 4-byte big-endian
    integer, the 4-byte type tag, the payload, and the CRC-32 of tag followed
    by payload as a 4-byte big-endian integer. *)
Theorem write_chunk_layout self type data :
  length type = 4%nat → Forall is_byte type → Forall is_byte data →
  Z.of_nat (length data) < 2 ^ 32 →
  write_chunk self type data =
  (appended self
     (big_endian 4 (Z.of_nat (length data)) ++ type ++ data
      ++ big_endian 4 (crc32 (type ++ data) 0)),
   None) ∧
  big_endian_value (big_endian 4 (Z.of_nat (length data)))
  = Z.of_nat (length data) ∧
  big_endian_value (big_endian 4 (crc32 (type ++ data) 0))
  = crc32 (type ++ data) 0.
Proof.
  intros Hlen Htype Hdata Hsize.
  pose proof (crc32_range (type ++ data) 0) as Hcrc.
  split; [|split].
  - unfold write_chunk.
    rewrite pack_I_big_endian by lia.
    rewrite crc32_app by done.
    rewrite pack_I_big_endian by (apply Hcrc, Forall_app; done).
    rewrite pack_4s_tag by done.
    unfold stream_write. simpl. by rewrite <- !app_assoc.
  - apply big_endian_value_big_endian. simpl. lia.
  - apply big_endian_value_big_endian.
    apply Hcrc, Forall_app; done.
Qed.

Lemma write_chunk_layout_witness :
  write_chunk (mkPngWriter [137; 80] 1 1 true) [73; 69; 78; 68] [] =
  (mkPngWriter [137; 80; 0; 0; 0; 0; 73; 69; 78; 68; 174; 66; 96; 130]
               1 1 true, None).
Proof.
  destruct (write_chunk_layout (mkPngWriter [137; 80] 1 1 true)
              [73; 69; 78; 68] []) as [H _].
  - reflexivity.
  - repeat constructor; lia.
  - constructor.
  - simpl. lia.
  - exact H.
Defined.

(** ** The scanline filters *)

Lemma setbyte_Ok l i v :
  0 ≤ v < 256 → 0 ≤ i < Z.of_nat (length l) →
  setbyte l i v = Ok (<[Z.to_nat i:=v]> l).
Proof.
  intros Hv Hi. unfold setbyte, setitem. case_match; [|lia].
  by rewrite index_nonneg.
Qed.

(** The frame of the four computing filters returns the tag followed by one
    value a byte, when every value is computed without exception and fits a
    byte. *)
Lemma filter_frame_Ok tag (value : Z → Z → result Z) (f : nat → Z → Z)
    scanline :
  0 ≤ tag < 256 →
  (∀ k x, scanline !! k = Some x →
          value (Z.of_nat k) x = Ok (f k x) ∧ 0 ≤ f k x < 256) →
  filter_frame tag value scanline = Ok (tag :: imap f scanline).
Proof.
  intros Htag Hvalue. unfold filter_frame, bytearray.
  case_match; [lia|].
  replace (Z.to_nat (1 + Z.of_nat (length scanline)))
    with (S (length scanline)) by lia.
  cbn [mbind result_bind].
  rewrite setbyte_Ok by (done || (rewrite length_replicate; lia)).
  cbn [mbind result_bind]. unfold for_each_local.
  change (<[Z.to_nat 0:=tag]> (replicate (S (length scanline)) 0))
    with (tag :: replicate (length scanline) 0).
  set (out := imap f scanline).
  assert (length out = length scanline) as Hout by apply length_imap.
  match goal with |- context [for_each ?body ?xs ?s] =>
    destruct (for_each_counted
      (λ m st, st = tag :: take m out ++ replicate (length scanline - m) 0)
      body xs s) as (st & -> & Hst) end.
  - by rewrite Nat.sub_0_r.
  - intros k [i x] st [-> Hx]%enumerate_lookup ->.
    destruct (Hvalue k x Hx) as [-> Hbyte]. simpl.
    assert (out !! k = Some (f k x)) as Hk.
    { unfold out. by rewrite list_lookup_imap, Hx. }
    pose proof (lookup_lt_Some _ _ _ Hx) as Hlt.
    rewrite setbyte_Ok; [|done|].
    2:{ simpl. rewrite length_app, length_take, length_replicate. lia. }
    eexists. split; [done|].
    replace (Z.to_nat (Z.of_nat k + 1)) with (S k) by lia. simpl. f_equal.
    rewrite (take_S_r _ _ _ Hk), <- app_assoc.
    rewrite insert_app_r_alt by (rewrite length_take; lia).
    rewrite length_take. replace (k - k `min` length out)%nat with 0%nat by lia.
    f_equal.
    replace (length scanline - k)%nat with (S (length scanline - S k)) by lia.
    done.
  - rewrite enumerate_length in Hst. subst st.
    rewrite Nat.sub_diag, take_ge by lia. simpl. by rewrite app_nil_r.
Qed.

Lemma left_of_Ok (line : list Z) (k : nat) :
  (k < length line + 3)%nat →
  left_of line (Z.of_nat k) = Ok (byte_at (Some line) (Z.of_nat k - 3)).
Proof.
  intros Hk. unfold left_of, byte_at.
  destruct (Z.of_nat k <? 3) eqn:E.
  - case_match; [done | lia].
  - case_match; [lia|].
    destruct (lookup_lt_is_Some_2 line (Z.to_nat (Z.of_nat k - 3)))
      as [x Hx]; [lia|].
    rewrite (list_lookup_total_correct _ _ _ Hx).
    apply getitem_nonneg; [lia | done].
Qed.

Lemma above_Ok (prev : list Z) (k : nat) :
  (k < length prev)%nat →
  getitem prev (Z.of_nat k) = Ok (byte_at (Some prev) (Z.of_nat k)).
Proof.
  intros Hk. unfold byte_at. case_match; [lia|]. rewrite Nat2Z.id.
  destruct (lookup_lt_is_Some_2 prev k Hk) as [x Hx].
  rewrite (list_lookup_total_correct _ _ _ Hx).
  apply getitem_nonneg; [lia | by rewrite Nat2Z.id].
Qed.

(** The comparison chain of [paeth_filter] picks the nearest of [a], [b],
    [c], the earlier one on ties. *)
Lemma paeth_predictor_nearest a b c : paeth_predictor a b c = nearest_of a b c.
Proof.
  unfold paeth_predictor, nearest_of.
  repeat case_match; lia.
Qed.

(** With no previous line, or an empty one, every byte of it reads 0. *)
Lemma byte_at_falsy scanline prev_scanline i :
  same_length scanline prev_scanline →
  truthy prev_scanline = None →
  scanline = [] ∨ byte_at prev_scanline i = 0.
Proof.
  intros Hsame Hfalsy. destruct prev_scanline as [[|x prev]|]; [|done|].
  - left. specialize (Hsame [] eq_refl). by destruct scanline.
  - by right.
Qed.

(** C6.  For every scanline, with no previous scanline or with one of the
    same length, [paeth_filter] returns the tag byte 4 followed, for each
    byte [x] at position [i], by [(x - pr) mod 256], [pr] being the nearest
    to [p = a + b - c] of [a] (the byte 3 positions left, 0 if none), [b]
    (the byte above, 0 if none) and [c] (the byte 3 positions left of [b], 0
    if none), [a] before [b] before [c] on ties. *)
Theorem paeth_filter_spec scanline prev_scanline :
  same_length scanline prev_scanline →
  paeth_filter scanline prev_scanline = Ok (paeth_line scanline prev_scanline).
Proof.
  intros Hsame. unfold paeth_filter, paeth_line.
  apply filter_frame_Ok; [lia|].
  intros k x Hx. pose proof (lookup_lt_Some _ _ _ Hx) as Hk.
  split; [|apply Z.mod_pos_bound; lia].
  rewrite left_of_Ok by lia. simpl.
  destruct (truthy prev_scanline) as [prev|] eqn:Hprev.
  - assert (prev_scanline = Some prev) as ->.
    { by destruct prev_scanline as [[|? ?]|]; simplify_eq. }
    rewrite above_Ok by (rewrite (Hsame prev eq_refl); lia).
    rewrite left_of_Ok by (rewrite (Hsame prev eq_refl); lia).
    simpl. by rewrite paeth_predictor_nearest.
  - simpl. rewrite paeth_predictor_nearest.
    destruct (byte_at_falsy scanline prev_scanline (Z.of_nat k) Hsame Hprev)
      as [-> | ->]; [done|].
    destruct (byte_at_falsy scanline prev_scanline (Z.of_nat k - 3) Hsame Hprev)
      as [-> | ->]; done.
Qed.

Lemma paeth_filter_spec_witness :
  paeth_filter [10; 20; 30; 40; 50; 60] (Some [1; 2; 3; 100; 200; 250])
  = Ok [4; 9; 18; 27; 196; 106; 66].
Proof.
  rewrite paeth_filter_spec; [reflexivity|].
  by intros prev [= <-].
Defined.

(** ** Scoring and selecting *)

(** [sorted] puts first the first of the elements of least key. *)
Lemma sorted_head {A : Type} (key : A → Z) (xs : list A) :
  xs ≠ [] →
  ∃ k y ys, sorted xs key = y :: ys ∧ xs !! k = Some y ∧
    (∀ j x, xs !! j = Some x → key y ≤ key x) ∧
    (∀ j x, (j < k)%nat → xs !! j = Some x → key y < key x).
Proof.
  induction xs as [|x xs IH]; intros Hne; [done|].
  destruct xs as [|x' xs].
  { exists 0%nat, x, []. repeat split; [|lia].
    intros [|j] z; simpl; [by intros [= <-] | done]. }
  destruct IH as (k & y & ys & Hsorted & Hk & Hleast & Hfirst); [done|].
  unfold sorted in *. cbn [foldr] in *. rewrite Hsorted. cbn [insert_by].
  destruct (key x <=? key y) eqn:E.
  - exists 0%nat, x, (y :: ys). repeat split; [|lia].
    intros [|j] z Hz; simpl in Hz; [by simplify_eq|].
    specialize (Hleast j z Hz). lia.
  - exists (S k), y, (insert_by key x ys). repeat split; [done| |].
    + intros [|j] z Hz; simpl in Hz; [simplify_eq; lia|].
      by apply (Hleast j).
    + intros [|j] z Hj Hz; simpl in Hz; [simplify_eq; lia|].
      apply (Hfirst j); [lia | done].
Qed.

(** [c_byte] reads a byte as the signed 8-bit value. *)
Lemma c_byte_signed8 y : is_byte y → c_byte y = signed8 y.
Proof.
  intros [H0 H1]. unfold c_byte, signed8.
  destruct (y <? 128) eqn:E.
  - rewrite Z.mod_small; lia.
  - replace (y + 128) with (y - 128 + 1 * 256) by lia.
    rewrite Z.mod_add, Z.mod_small; lia.
Qed.

Lemma fold_abs_sum ys x0 :
  Forall is_byte ys →
  fold_left (λ x y, x + Z.abs (c_byte y)) ys x0
  = x0 + foldr (λ y acc, Z.abs (signed8 y) + acc) 0 ys.
Proof.
  intros Hys. revert x0. induction Hys as [|y ys Hy _ IH]; intros x0; simpl.
  - lia.
  - rewrite IH, c_byte_signed8 by done. lia.
Qed.

Lemma slice_tail {A : Type} (l : list A) :
  slice l 1 (Z.of_nat (length l)) = tail l.
Proof.
  destruct l as [|x l]; [done|]. unfold slice.
  rewrite !clamp_inside by (simpl; lia).
  rewrite Nat2Z.id. simpl. rewrite Nat.sub_0_r. by rewrite take_ge.
Qed.

(** What [min_sum_of_abs_diff] computes: [reduce] starts from the first
    filtered byte as it is, and adds the absolute signed values of the
    others. *)
Lemma min_sum_of_abs_diff_Ok tag x rest :
  Forall is_byte rest →
  min_sum_of_abs_diff (tag :: x :: rest)
  = Ok (x + abs_sum (tag :: rest)).
Proof.
  intros Hrest. unfold min_sum_of_abs_diff, abs_sum.
  rewrite slice_tail. simpl. by rewrite fold_abs_sum.
Qed.

(** The assigned score is the sum of absolute signed values but for the
    first filtered byte, counted unsigned: the two agree exactly when that
    byte is at most 128. *)
Lemma min_sum_of_abs_diff_vs_abs_sum tag x rest :
  is_byte x → Forall is_byte rest →
  min_sum_of_abs_diff (tag :: x :: rest)
  = Ok (abs_sum (tag :: x :: rest) + (x - Z.abs (signed8 x))).
Proof.
  intros Hx Hrest. rewrite min_sum_of_abs_diff_Ok by done.
  unfold abs_sum. simpl. f_equal. lia.
Qed.

Lemma min_sum_of_abs_diff_nonneg line score :
  Forall is_byte line → min_sum_of_abs_diff line = Ok score → 0 ≤ score.
Proof.
  intros Hline. destruct line as [|tag [|x rest]].
  - done.
  - unfold min_sum_of_abs_diff. by rewrite slice_tail.
  - apply Forall_inv_tail in Hline.
    pose proof (Forall_inv Hline) as Hx.
    pose proof (Forall_inv_tail Hline) as Hrest.
    rewrite min_sum_of_abs_diff_Ok by done. intros [= <-].
    assert (0 ≤ abs_sum (tag :: rest)); [|unfold is_byte in Hx; lia].
    unfold abs_sum. simpl. clear. induction rest as [|y rest IH]; simpl; lia.
Qed.

(** Every filter returns, and returns a line of bytes one longer than the
    scanline. *)
Lemma filter_frame_total tag (value : Z → Z → result Z) scanline :
  0 ≤ tag < 256 →
  (∀ k x, scanline !! k = Some x →
          ∃ v, value (Z.of_nat k) x = Ok v ∧ 0 ≤ v < 256) →
  ∃ out, filter_frame tag value scanline = Ok out ∧ filtered scanline out.
Proof.
  intros Htag Hvalue.
  set (f := λ (k : nat) x,
              match value (Z.of_nat k) x with Ok v => v | Raise _ => 0 end).
  assert (∀ k x, scanline !! k = Some x →
                 value (Z.of_nat k) x = Ok (f k x) ∧ 0 ≤ f k x < 256) as Hf.
  { intros k x Hx. destruct (Hvalue k x Hx) as (v & Hv & Hbyte).
    unfold f. by rewrite Hv. }
  exists (tag :: imap f scanline). split; [by apply filter_frame_Ok|].
  split; [simpl; by rewrite length_imap|].
  constructor; [done|].
  apply Forall_lookup_2. intros k v.
  rewrite list_lookup_imap. destruct (scanline !! k) as [x|] eqn:Hx; [|done].
  intros [= <-]. by apply Hf.
Qed.

Lemma above_total scanline prev_scanline (k : nat) :
  same_length scanline prev_scanline → (k < length scanline)%nat →
  ∃ b, match truthy prev_scanline with
       | Some prev => getitem prev (Z.of_nat k)
       | None => Ok 0
       end = Ok b.
Proof.
  intros Hsame Hk. destruct (truthy prev_scanline) as [prev|] eqn:Hprev.
  - assert (prev_scanline = Some prev) as ->.
    { by destruct prev_scanline as [[|? ?]|]; simplify_eq. }
    eexists. apply above_Ok. rewrite (Hsame prev eq_refl). lia.
  - by eexists.
Qed.

Lemma filters_total scanline prev_scanline :
  Forall is_byte scanline → same_length scanline prev_scanline →
  Forall (λ filter_, ∃ out, filter_ scanline prev_scanline = Ok out ∧
                            filtered scanline out) filters.
Proof.
  intros Hbytes Hsame. unfold filters.
  assert (∀ x y : Z, 0 ≤ (x - y) `mod` 256 < 256) as Hmod.
  { intros. apply Z.mod_pos_bound. lia. }
  repeat apply Forall_cons_2; [| | | | |done].
  - eexists. split; [done|]. split; [done|]. by constructor.
  - apply filter_frame_total; [lia|]. intros k x Hx.
    pose proof (lookup_lt_Some _ _ _ Hx).
    rewrite left_of_Ok by lia. eexists. split; [done|]. apply Hmod.
  - apply filter_frame_total; [lia|]. intros k x Hx.
    pose proof (lookup_lt_Some _ _ _ Hx) as Hk.
    destruct (above_total scanline prev_scanline k Hsame Hk) as [b ->].
    eexists. split; [done|]. apply Hmod.
  - apply filter_frame_total; [lia|]. intros k x Hx.
    pose proof (lookup_lt_Some _ _ _ Hx) as Hk.
    rewrite left_of_Ok by lia.
    destruct (above_total scanline prev_scanline k Hsame Hk) as [b ->].
    cbn [mbind result_bind]. unfold truediv.
    change (Qc_eq_bool (Qc_of_Z 2) 0) with false.
    eexists. split; [done|]. apply Hmod.
  - apply filter_frame_total; [lia|]. intros k x Hx.
    pose proof (lookup_lt_Some _ _ _ Hx) as Hk.
    rewrite left_of_Ok by lia. cbn [mbind result_bind].
    destruct (truthy prev_scanline) as [prev|] eqn:Hprev.
    + assert (prev_scanline = Some prev) as Heq.
      { by destruct prev_scanline as [[|? ?]|]; simplify_eq. }
      rewrite above_Ok by (rewrite (Hsame prev Heq); lia).
      rewrite left_of_Ok by (rewrite (Hsame prev Heq); lia).
      eexists. split; [done|]. apply Hmod.
    + eexists. split; [done|]. apply Hmod.
Qed.

Lemma mapM_Forall2 {A B : Type} (P : A → B → Prop) (f : A → result B) l :
  Forall (λ x, ∃ y, f x = Ok y ∧ P x y) l →
  ∃ ys, mapM f l = Ok ys ∧ Forall2 P l ys.
Proof.
  induction 1 as [|x l (y & Hy & HP) _ (ys & Hys & IH)].
  - by exists [].
  - exists (y :: ys). split; [|by constructor].
    cbn [mapM]. rewrite Hy. cbn [mbind result_bind]. by rewrite Hys.
Qed.

(** The five candidates of a line, in the order of [filters]. *)
Lemma results_Ok line previous_line :
  line ≠ [] → Forall is_byte line → same_length line previous_line →
  ∃ rs, results line previous_line = Ok rs ∧
        Forall2 (candidate line previous_line) filters rs.
Proof.
  intros Hne Hbytes Hsame. unfold results. apply mapM_Forall2.
  eapply Forall_impl; [|by apply filters_total].
  intros filter_ (out & Hfilter & Hlen & Hout).
  rewrite Hfilter. cbn [mbind result_bind].
  destruct out as [|tag [|x rest]];
    [done | by destruct line | ].
  assert (min_sum_of_abs_diff (tag :: x :: rest)
          = Ok (x + abs_sum (tag :: rest))) as Hscore.
  { apply min_sum_of_abs_diff_Ok.
    exact (Forall_inv_tail (Forall_inv_tail Hout)). }
  rewrite Hscore. cbn [mbind result_bind].
  eexists. split; [done|]. repeat split; simpl; [done..|].
  by eapply min_sum_of_abs_diff_nonneg.
Qed.

(** X30.  In adaptive mode the line kept for a scanline is the one of the
    five candidates, taken in the order None, Sub, Up, Average, Paeth, that
    comes first among those of least assigned score, the score being the
    number that [min_sum_of_abs_diff] returns; and for a scanline of zeros,
    with no previous line or a previous line of zeros, it is the output of
    the None filter. *)
Theorem dynamic_line_first_least line previous_line :
  line ≠ [] → Forall is_byte line → same_length line previous_line →
  (∃ rs k out score,
     results line previous_line = Ok rs ∧
     Forall2 (candidate line previous_line) filters rs ∧
     rs !! k = Some (out, score) ∧
     dynamic_line line previous_line = Ok out ∧
     (∀ j o s, rs !! j = Some (o, s) → score ≤ s) ∧
     (∀ j o s, (j < k)%nat → rs !! j = Some (o, s) → score < s)) ∧
  (Forall (λ x, x = 0) line →
   (∀ prev, previous_line = Some prev → Forall (λ x, x = 0) prev) →
   dynamic_line line previous_line = none_filter line previous_line).
Proof.
  intros Hne Hbytes Hsame.
  destruct (results_Ok line previous_line) as (rs & Hrs & Hcand); [done..|].
  assert (rs ≠ []) as Hrs_ne.
  { apply Forall2_length in Hcand. by destruct rs. }
  destruct (sorted_head snd rs Hrs_ne)
    as (k & [out score] & ys & Hsorted & Hk & Hleast & Hfirst).
  assert (dynamic_line line previous_line = Ok out) as Hdyn.
  { unfold dynamic_line. rewrite Hrs. cbn [mbind result_bind].
    by rewrite Hsorted. }
  split.
  - exists rs, k, out, score. repeat split; try done.
    + intros j o s Hj. apply (Hleast j (o, s) Hj).
    + intros j o s Hlt Hj. apply (Hfirst j (o, s) Hlt Hj).
  - intros Hzero Hprev. rewrite Hdyn.
    unfold filters in Hcand.
    apply Forall2_cons_inv_l in Hcand
      as ([o0 s0] & rs' & (Hnone & Hs0 & _) & Hcand & ->).
    simpl in Hnone, Hs0. rewrite Hnone.
    assert (s0 = 0) as ->.
    { injection Hnone as <-. destruct line as [|x rest]; [done|].
      pose proof (Forall_inv Hzero) as ->.
      apply Forall_inv_tail in Hzero.
      simpl in Hs0. rewrite min_sum_of_abs_diff_Ok in Hs0.
      - injection Hs0 as <-. unfold abs_sum. simpl. clear -Hzero.
        induction Hzero as [|y rest -> _ IH]; [done|]. simpl.
        change (signed8 0) with 0. lia.
      - eapply Forall_impl; [|exact Hzero]. intros y ->. unfold is_byte. lia. }
    destruct k as [|k]; [simpl in Hk; by simplify_eq|].
    specialize (Hfirst 0%nat (o0, 0) ltac:(lia) eq_refl). simpl in Hfirst.
    assert (0 ≤ score); [|lia].
    assert (Forall2 (candidate line previous_line) filters ((o0, 0) :: rs'))
      as Hall.
    { unfold filters. constructor; [|done]. by repeat split. }
    destruct (Forall2_lookup_r _ _ _ _ _ Hall Hk) as (f & _ & _ & _ & Hpos).
    done.
Qed.

Lemma dynamic_line_first_least_witness :
  dynamic_line [200; 0; 0] (Some [100; 0; 0]) = Ok [2; 100; 0; 0] ∧
  dynamic_line [0; 0; 0] None = Ok [0; 0; 0; 0].
Proof.
  destruct (dynamic_line_first_least [200; 0; 0] (Some [100; 0; 0]))
    as [(rs & k & out & score & _ & _ & _ & Hdyn & _) _].
  { done. }
  { repeat constructor; lia. }
  { by intros prev [= <-]. }
  destruct (dynamic_line_first_least [0; 0; 0] None) as [_ Hzero].
  { done. }
  { repeat constructor; lia. }
  { by intros prev. }
  split.
  - rewrite Hdyn. clear Hzero. vm_compute in Hdyn. by injection Hdyn as <-.
  - rewrite Hzero; [reflexivity | by repeat constructor | done].
Defined.

(** C2 fails on the code: the score assigned to the None candidate of the
    scanline (200, 0, 0) is 200, while the sum of the absolute values of its
    bytes read as signed 8-bit values is 56. *)
Theorem score_counts_first_byte_unsigned :
  results [200; 0; 0] None
  = Ok [ ([0; 200; 0; 0], 200); ([1; 200; 0; 0], 200); ([2; 200; 0; 0], 200);
         ([3; 200; 0; 0], 200); ([4; 200; 0; 0], 200) ] ∧
  abs_sum [0; 200; 0; 0] = 56.
Proof. split; reflexivity. Qed.

(** The same slip changes the selection: for the scanline (200, 0, 0) under
    the line (100, 0, 0), the None candidate has the least sum of absolute
    signed values, 56, but is assigned the score 200, and the Up candidate,
    of sum and score 100, is kept. *)
Lemma first_byte_changes_selection :
  dynamic_line [200; 0; 0] (Some [100; 0; 0]) = up_filter [200; 0; 0]
                                                  (Some [100; 0; 0]) ∧
  none_filter [200; 0; 0] (Some [100; 0; 0]) = Ok [0; 200; 0; 0] ∧
  up_filter [200; 0; 0] (Some [100; 0; 0]) = Ok [2; 100; 0; 0] ∧
  abs_sum [0; 200; 0; 0] = 56 ∧ abs_sum [2; 100; 0; 0] = 100.
Proof. repeat split; reflexivity. Qed.

(** C7 fails on the code: the line kept in adaptive mode is not always a
    candidate of least score, the score being the sum of the absolute values
    of the bytes after the tag, read as signed 8-bit values.  For the
    scanline (200, 0, 0) under the line (100, 0, 0) the five candidates, in
    the order None, Sub, Up, Average, Paeth, have the scores 56, 56, 100, 106
    and 100; the code assigns them 200, 200, 100, 150 and 100, and keeps the
    Up candidate, whose score 100 exceeds the 56 of None and of Sub.  So
    does [process_image_data] for the second line of the image of one pixel
    a line (100, 0, 0), (200, 0, 0). *)
Theorem dynamic_line_keeps_larger_absolute_sum :
  let line := [200; 0; 0] in
  let previous_line := Some [100; 0; 0] in
  results line previous_line
  = Ok [ ([0; 200; 0; 0], 200); ([1; 200; 0; 0], 200); ([2; 100; 0; 0], 100);
         ([3; 150; 0; 0], 150); ([4; 100; 0; 0], 100) ] ∧
  abs_sum <$> [ [0; 200; 0; 0]; [1; 200; 0; 0]; [2; 100; 0; 0];
                [3; 150; 0; 0]; [4; 100; 0; 0] ]
  = [56; 56; 100; 106; 100] ∧
  dynamic_line line previous_line = Ok [2; 100; 0; 0] ∧
  none_filter line previous_line = Ok [0; 200; 0; 0] ∧
  abs_sum [0; 200; 0; 0] < abs_sum [2; 100; 0; 0] ∧
  process_image_data (λ data, data) (mkPngWriter [] 1 2 true)
                     [100; 0; 0; 200; 0; 0]
  = Ok [0; 100; 0; 0; 2; 100; 0; 0].
Proof. repeat split; reflexivity. Qed.

(** ** Filtering a whole image *)

Lemma slice_length {A : Type} (l : list A) i n :
  0 ≤ i → 0 ≤ n → i + n ≤ Z.of_nat (length l) →
  length (slice l i (i + n)) = Z.to_nat n.
Proof.
  intros Hi Hn Hfit. unfold slice.
  rewrite !clamp_inside by lia.
  rewrite length_take, length_drop. lia.
Qed.

Lemma dynamic_line_total line previous_line :
  line ≠ [] → Forall is_byte line → same_length line previous_line →
  ∃ out, dynamic_line line previous_line = Ok out.
Proof.
  intros Hne Hbytes Hsame.
  destruct (results_Ok line previous_line) as (rs & Hrs & Hcand); [done..|].
  destruct (sorted_head snd rs) as (_ & [out score] & ys & Hsorted & _).
  { apply Forall2_length in Hcand. by destruct rs. }
  exists out. unfold dynamic_line. rewrite Hrs. cbn [mbind result_bind].
  by rewrite Hsorted.
Qed.

Section process.
Context (compress : list Z → list Z) (self : PngWriter) (image : list Z).
Context (Hbytes : Forall is_byte image).
Context (Hlen : Z.of_nat (length image) = width self * height self * 3).

Local Abbreviation scanline := (λ i : Z, slice image i (i + width self * 3)).
Local Abbreviation offset := (λ k : nat, 0 + Z.of_nat k * (width self * 3)).

Lemma offsets_positive_width :
  0 < width self →
  0 ≤ height self ∧
  range3 0 (width self * height self * 3) (width self * 3)
  = Ok (offset <$> seq 0 (Z.to_nat (height self))).
Proof using Hlen.
  intros Hw. assert (0 ≤ height self) as Hh by nia. split; [done|].
  unfold range3. case_match; [lia|]. case_match; [|lia].
  do 3 f_equal.
  replace (width self * height self * 3 - 0 + width self * 3 - 1)
    with (height self * (width self * 3) + (width self * 3 - 1)) by lia.
  rewrite Z.div_add_l, Z.div_small; lia.
Qed.

Lemma offsets_negative_width :
  width self < 0 →
  height self ≤ 0 ∧
  range3 0 (width self * height self * 3) (width self * 3) = Ok [].
Proof using Hlen.
  intros Hw. assert (height self ≤ 0) as Hh by nia. split; [done|].
  unfold range3. case_match; [lia|]. case_match; [lia|].
  match goal with |- context [Z.to_nat ?n] =>
    replace (Z.to_nat n) with 0%nat; [done|] end.
  match goal with |- _ = Z.to_nat ?n => assert (n < 1); [|lia] end.
  apply Z.div_lt_upper_bound; lia.
Qed.

Lemma scanline_ok (k : nat) :
  0 < width self → Z.of_nat k < height self →
  length (scanline (offset k)) = Z.to_nat (width self * 3) ∧
  Forall is_byte (scanline (offset k)) ∧
  getitem (scanline <$> (offset <$> seq 0 (Z.to_nat (height self))))
          (Z.of_nat k)
  = Ok (scanline (offset k)).
Proof using Hbytes Hlen.
  intros Hw Hk. split; [|split].
  - apply slice_length; nia.
  - unfold slice. by apply Forall_take, Forall_drop.
  - apply getitem_nonneg; [lia|].
    rewrite Nat2Z.id, !list_lookup_fmap, lookup_seq_lt by lia. done.
Qed.

(** The body of the loops over the lines returns for every line of an
    image of the right size. *)
Lemma line_total (k : nat) :
  0 < width self → Z.of_nat k < height self →
  ∃ out,
    (line ← getitem (scanline <$> (offset <$> seq 0 (Z.to_nat (height self))))
                    (Z.of_nat k);
     previous_line ←
       (if Z.of_nat k =? 0 then Ok None
        else Some <$> getitem (scanline <$> (offset <$> seq 0 (Z.to_nat
                                                        (height self))))
                              (Z.of_nat k - 1));
     if dynamic_filtering self
     then dynamic_line line previous_line
     else paeth_filter line previous_line) = Ok out.
Proof using Hbytes Hlen.
  intros Hw Hk.
  destruct (scanline_ok k Hw Hk) as (Hlength & Hline & ->).
  cbn [mbind result_bind].
  set (line := scanline (offset k)) in *.
  assert (line ≠ []) as Hne by (intros E; rewrite E in Hlength; simpl in *; lia).
  assert (∃ previous_line,
    (if Z.of_nat k =? 0 then Ok None
     else Some <$> getitem (scanline <$> (offset <$> seq 0 (Z.to_nat
                                                     (height self))))
                           (Z.of_nat k - 1)) = Ok previous_line ∧
    same_length line previous_line) as (previous_line & -> & Hsame).
  { destruct (Z.of_nat k =? 0) eqn:E; [by exists None|].
    destruct k as [|k]; [done|].
    destruct (scanline_ok k Hw) as (Hlength' & _ & Hprev); [lia|].
    replace (Z.of_nat (S k) - 1) with (Z.of_nat k) by lia. rewrite Hprev.
    eexists. split; [done|]. intros prev [= <-]. congruence. }
  cbn [mbind result_bind].
  destruct (dynamic_filtering self).
  - by apply dynamic_line_total.
  - pose proof (filters_total line previous_line Hline Hsame) as Hall.
    unfold filters in Hall.
    do 4 apply Forall_inv_tail in Hall.
    destruct (Forall_inv Hall) as (out & Hout & _). by exists out.
Qed.

(** What [process_image_data] does with an image of the right size: it
    returns, unless the width is 0, when [range] refuses the step. *)
Lemma process_image_data_right_size :
  if width self =? 0
  then process_image_data compress self image = Raise (ValueError RangeStepZero)
  else ∃ out, process_image_data compress self image = Ok out.
Proof using Hbytes Hlen.
  unfold process_image_data. rewrite Hlen, Z.eqb_refl. cbn [negb].
  destruct (Z.eqb_spec (width self) 0) as [Hw|Hw].
  { unfold range3. by rewrite Hw. }
  destruct (decide (0 < width self)) as [Hpos|Hneg].
  - destruct (offsets_positive_width Hpos) as [Hh ->].
    cbn [mbind result_bind].
    match goal with |- context [mapM ?f ?l] =>
      destruct (mapM_Forall2 (λ _ _, True) f l) as (processed & -> & _) end.
    + apply Forall_forall. intros i Hi.
      apply list_elem_of_In, list_elem_of_lookup in Hi as [k Hi].
      apply range_lookup in Hi as [-> Hk].
      destruct (line_total k Hpos Hk) as [out Hout].
      exists out. by split.
    + by eexists.
  - destruct offsets_negative_width as [Hh ->]; [lia|].
    cbn [mbind result_bind fmap list_fmap].
    replace (range (height self)) with (@nil Z).
    + by eexists.
    + unfold range. by replace (Z.to_nat (height self)) with 0%nat by lia.
Qed.

End process.

(** C8.  [process_image_data] raises the size-mismatch error exactly when
    the length of the buffer is not width × height × 3, the check being the
    first thing it does; [write_idat] then leaves the stream as it was.  A
    buffer of the right size is processed to the end, except for width 0,
    which [range] refuses with an error of its own. *)
Theorem size_mismatch_iff compress self image :
  Forall is_byte image →
  (process_image_data compress self image = Raise (ValueError SizeMismatch)
   ↔ Z.of_nat (length image) ≠ width self * height self * 3) ∧
  (Z.of_nat (length image) ≠ width self * height self * 3 →
   write_idat compress self image = (self, Some (ValueError SizeMismatch))) ∧
  (Z.of_nat (length image) = width self * height self * 3 →
   if width self =? 0
   then process_image_data compress self image
        = Raise (ValueError RangeStepZero)
   else ∃ out, process_image_data compress self image = Ok out).
Proof.
  intros Hbytes.
  assert (Z.of_nat (length image) ≠ width self * height self * 3 →
          process_image_data compress self image
          = Raise (ValueError SizeMismatch)) as Hfail.
  { intros Hne. unfold process_image_data.
    by destruct (Z.eqb_spec (Z.of_nat (length image))
                            (width self * height self * 3)). }
  split; [split; [|done]|split].
  - intros Hraise Hlen.
    pose proof (process_image_data_right_size compress self image Hbytes Hlen)
      as Hright.
    destruct (width self =? 0).
    + congruence.
    + destruct Hright as [out Hout]. congruence.
  - intros Hne. unfold write_idat. by rewrite Hfail.
  - by apply process_image_data_right_size.
Qed.

Lemma size_mismatch_iff_witness :
  let self := mkPngWriter [137; 80; 78; 71] 2 2 true in
  process_image_data (λ data, data) self [1; 2; 3]
  = Raise (ValueError SizeMismatch) ∧
  write_idat (λ data, data) self [1; 2; 3]
  = (self, Some (ValueError SizeMismatch)).
Proof.
  intros self.
  destruct (size_mismatch_iff (λ data, data) self [1; 2; 3])
    as (Hiff & Hidat & _).
  - repeat constructor; lia.
  - split; [apply Hiff | apply Hidat]; simpl; lia.
Defined.

(** ** The header and animation chunks *)

Lemma pack_I_spec n :
  pack_I n = if (0 <=? n) && (n <? 2 ^ 32) then Ok (big_endian 4 n)
             else Raise StructError.
Proof.
  destruct ((0 <=? n) && (n <? 2 ^ 32)) eqn:E.
  - apply pack_I_big_endian. lia.
  - unfold pack_I. by rewrite E.
Qed.

Lemma pack_H_spec n :
  pack_H n = if (0 <=? n) && (n <? 2 ^ 16) then Ok (big_endian 2 n)
             else Raise StructError.
Proof.
  unfold pack_H. case_match; [|done].
  cbn [big_endian app]. reflexivity.
Qed.

(** What [write_chunk] appends for a 4-byte type and data that fit. *)
Lemma write_chunk_Ok self type data :
  length type = 4%nat → Forall is_byte type → Forall is_byte data →
  Z.of_nat (length data) < 2 ^ 32 →
  write_chunk self type data = (stream_write self (chunk type data), None).
Proof.
  intros Hlen Htype Hdata Hsize.
  pose proof (crc32_range (type ++ data) 0) as Hcrc.
  unfold write_chunk, chunk.
  rewrite pack_I_big_endian by lia.
  rewrite crc32_app by done.
  rewrite pack_I_big_endian by (apply Hcrc, Forall_app; done).
  rewrite pack_4s_tag by done.
  unfold stream_write. simpl. by rewrite <- !app_assoc.
Qed.

Lemma chunk_length type data :
  length (chunk type data) = (4 + length type + length data + 4)%nat.
Proof.
  unfold chunk. rewrite !length_app, !big_endian_length. lia.
Qed.

Lemma ihdr_data_bytes width height :
  Forall is_byte (ihdr_data width height) ∧
  length (ihdr_data width height) = 13%nat.
Proof.
  unfold ihdr_data. split.
  - apply Forall_app_2; [apply big_endian_bytes|].
    apply Forall_app_2; [apply big_endian_bytes|].
    repeat constructor; lia.
  - by rewrite !length_app, !big_endian_length.
Qed.

Lemma write_ihdr_Ok self :
  unsigned 32 (width self) → unsigned 32 (height self) →
  write_ihdr self
  = (stream_write self (chunk IHDR (ihdr_data (width self) (height self))),
     None).
Proof.
  unfold unsigned. intros Hw Hh. unfold write_ihdr, pack.
  cbn [length Nat.eqb negb zip zip_with mapM pack_field].
  rewrite !pack_I_spec.
  destruct ((0 <=? width self) && _) eqn:Ew; [|lia].
  destruct ((0 <=? height self) && _) eqn:Eh; [|lia].
  cbn -[big_endian write_chunk].
  destruct (ihdr_data_bytes (width self) (height self)) as [Hbytes Hlen].
  apply (write_chunk_Ok self IHDR (ihdr_data (width self) (height self)));
    [done | repeat constructor; lia | done | rewrite Hlen; lia].
Qed.

Lemma write_ihdr_Raise self :
  ¬ (unsigned 32 (width self) ∧ unsigned 32 (height self)) →
  write_ihdr self = (self, Some StructError).
Proof.
  unfold unsigned. intros Hout. unfold write_ihdr, pack.
  cbn [length Nat.eqb negb zip zip_with mapM pack_field].
  rewrite !pack_I_spec.
  destruct ((0 <=? width self) && _) eqn:Ew; [|done].
  destruct ((0 <=? height self) && _) eqn:Eh; [lia|done].
Qed.

(** X13.  [write_ihdr] appends one chunk of 25 bytes: the length 13, the
    type IHDR, the width and the height as 4-byte big-endian integers, the
    bytes 8, 2, 0, 0, 0, and the checksum; when the width or the height does
    not fit 32 bits unsigned it raises [struct.error] and writes nothing. *)
Theorem write_ihdr_layout self :
  (unsigned 32 (width self) ∧ unsigned 32 (height self) →
   write_ihdr self
   = (appended self (chunk IHDR (ihdr_data (width self) (height self))),
      None) ∧
   length (chunk IHDR (ihdr_data (width self) (height self))) = 25%nat ∧
   take 8 (chunk IHDR (ihdr_data (width self) (height self)))
   = [0; 0; 0; 13; 73; 72; 68; 82]) ∧
  (¬ (unsigned 32 (width self) ∧ unsigned 32 (height self)) →
   write_ihdr self = (self, Some StructError)).
Proof.
  destruct (ihdr_data_bytes (width self) (height self)) as [_ Hlen].
  split.
  - intros [Hw Hh]. split; [by apply write_ihdr_Ok|]. split.
    + by rewrite chunk_length, Hlen.
    + unfold chunk. by rewrite Hlen.
  - apply write_ihdr_Raise.
Qed.

Lemma write_ihdr_layout_witness :
  let self := mkPngWriter signature 2 1 true in
  write_ihdr self
  = (appended self [0; 0; 0; 13; 73; 72; 68; 82;
                        0; 0; 0; 2; 0; 0; 0; 1; 8; 2; 0; 0; 0;
                        123; 64; 232; 221], None) ∧
  write_ihdr (mkPngWriter signature (-1) 1 true)
  = (mkPngWriter signature (-1) 1 true, Some StructError).
Proof.
  intros self. split.
  - destruct (write_ihdr_layout self) as [Hin _].
    destruct Hin as (-> & _); [|reflexivity].
    unfold unsigned. simpl. lia.
  - destruct (write_ihdr_layout (mkPngWriter signature (-1) 1 true))
      as [_ Hout].
    apply Hout. unfold unsigned. simpl. lia.
Defined.

(** X14.  The two animation chunks.  [write_actl] appends one chunk of 20
    bytes, of type acTL, that holds the two counts as 4-byte big-endian
    integers; [write_fctl] appends one chunk of 38 bytes, of type fcTL, that
    holds the sequence number, the width, the height and two zero offsets as
    4-byte integers, the delay as two 2-byte integers, and two zero bytes.
    Each raises [struct.error], and writes nothing, when one of its numbers
    does not fit its field. *)
Theorem animation_chunks_layout self :
  (∀ num_frames num_plays,
     if decide (unsigned 32 num_frames ∧ unsigned 32 num_plays)
     then write_actl self num_frames num_plays
          = (appended self (chunk acTL (actl_data num_frames num_plays)),
             None) ∧
          length (chunk acTL (actl_data num_frames num_plays)) = 20%nat
     else write_actl self num_frames num_plays = (self, Some StructError)) ∧
  (∀ seq delay_num delay_den,
     if decide (unsigned 32 seq ∧ unsigned 32 (width self) ∧
                unsigned 32 (height self) ∧
                unsigned 16 delay_num ∧ unsigned 16 delay_den)
     then write_fctl self seq delay_num delay_den
          = (appended self
               (chunk fcTL (fctl_data seq (width self) (height self)
                                      delay_num delay_den)),
             None) ∧
          length (chunk fcTL (fctl_data seq (width self) (height self)
                                        delay_num delay_den)) = 38%nat
     else write_fctl self seq delay_num delay_den
          = (self, Some StructError)).
Proof.
  split.
  - intros num_frames num_plays.
    unfold unsigned, write_actl, pack.
    cbn [length Nat.eqb negb zip zip_with mapM pack_field].
    rewrite !pack_I_spec.
    assert (length (actl_data num_frames num_plays) = 8%nat) as Hlen.
    { unfold actl_data. by rewrite !length_app, !big_endian_length. }
    destruct (decide _) as [[Hf Hp]|Hout].
    + destruct ((0 <=? num_frames) && _) eqn:Ef; [|lia].
      destruct ((0 <=? num_plays) && _) eqn:Ep; [|lia].
      cbn -[big_endian write_chunk]. rewrite app_nil_r.
      split; [|by rewrite chunk_length, Hlen].
      apply (write_chunk_Ok self acTL (actl_data num_frames num_plays)).
      * done.
      * repeat constructor; lia.
      * apply Forall_app_2; apply big_endian_bytes.
      * rewrite Hlen. lia.
    + destruct ((0 <=? num_frames) && _) eqn:Ef; [|done].
      destruct ((0 <=? num_plays) && _) eqn:Ep; [lia|done].
  - intros seq delay_num delay_den.
    unfold unsigned, write_fctl, pack.
    cbn [length Nat.eqb negb zip zip_with mapM pack_field].
    rewrite !pack_I_spec, !pack_H_spec.
    assert (length (fctl_data seq (width self) (height self)
                              delay_num delay_den) = 26%nat) as Hlen.
    { unfold fctl_data. by rewrite !length_app, !big_endian_length. }
    destruct (decide _) as [(Hs & Hw & Hh & Hn & Hd)|Hout].
    + destruct ((0 <=? seq) && _) eqn:Es; [|lia].
      destruct ((0 <=? width self) && _) eqn:Ew; [|lia].
      destruct ((0 <=? height self) && _) eqn:Eh; [|lia].
      destruct ((0 <=? delay_num) && _) eqn:En; [|lia].
      destruct ((0 <=? delay_den) && _) eqn:Ed; [|lia].
      cbn -[big_endian write_chunk].
      split; [|by rewrite chunk_length, Hlen].
      apply (write_chunk_Ok self fcTL
               (fctl_data seq (width self) (height self) delay_num delay_den)).
      * done.
      * repeat constructor; lia.
      * unfold fctl_data.
        repeat (apply Forall_app_2; [apply big_endian_bytes|]).
        repeat constructor; lia.
      * rewrite Hlen. lia.
    + destruct ((0 <=? seq) && _) eqn:Es; [|done].
      destruct ((0 <=? width self) && _) eqn:Ew; [|done].
      destruct ((0 <=? height self) && _) eqn:Eh; [|done].
      cbn -[big_endian write_chunk].
      destruct ((0 <=? delay_num) && _) eqn:En; [|done].
      destruct ((0 <=? delay_den) && _) eqn:Ed; [lia|done].
Qed.

(** ** The five filters *)

(** [floor((a + b) / 2)] is the integer quotient. *)
Lemma floor_half n : floor (Qc_of_Z n / Qc_of_Z 2)%Qc = n `div` 2.
Proof.
  unfold floor, Qcdiv, Qcmult, Qcinv, Q2Qc, Qc_of_Z. cbn [this].
  rewrite !Qred_correct.
  assert (inject_Z n * / inject_Z 2 == n # 2)%Q as ->; [|done].
  unfold Qeq. simpl. lia.
Qed.

Lemma above_falsy_Ok scanline prev_scanline (k : nat) :
  same_length scanline prev_scanline → (k < length scanline)%nat →
  match truthy prev_scanline with
  | Some prev => getitem prev (Z.of_nat k)
  | None => Ok 0
  end = Ok (byte_at prev_scanline (Z.of_nat k)).
Proof.
  intros Hsame Hk. destruct (truthy prev_scanline) as [prev|] eqn:Hprev.
  - assert (prev_scanline = Some prev) as ->.
    { by destruct prev_scanline as [[|? ?]|]; simplify_eq. }
    apply above_Ok. rewrite (Hsame prev eq_refl). lia.
  - destruct (byte_at_falsy scanline prev_scanline (Z.of_nat k) Hsame Hprev)
      as [-> | ->]; [simpl in Hk; lia | done].
Qed.

Lemma sub_filter_Ok scanline prev_scanline :
  sub_filter scanline prev_scanline
  = Ok (filtered_line 1 (λ a _ _, a) scanline prev_scanline).
Proof.
  unfold sub_filter, filtered_line. apply filter_frame_Ok; [lia|].
  intros k x Hx. pose proof (lookup_lt_Some _ _ _ Hx) as Hk.
  split; [|apply Z.mod_pos_bound; lia].
  by rewrite left_of_Ok by lia.
Qed.

Lemma up_filter_Ok scanline prev_scanline :
  same_length scanline prev_scanline →
  up_filter scanline prev_scanline
  = Ok (filtered_line 2 (λ _ b _, b) scanline prev_scanline).
Proof.
  intros Hsame. unfold up_filter, filtered_line.
  apply filter_frame_Ok; [lia|].
  intros k x Hx. pose proof (lookup_lt_Some _ _ _ Hx) as Hk.
  split; [|apply Z.mod_pos_bound; lia].
  by rewrite (above_falsy_Ok scanline) by done.
Qed.

Lemma average_filter_Ok scanline prev_scanline :
  same_length scanline prev_scanline →
  average_filter scanline prev_scanline
  = Ok (filtered_line 3 (λ a b _, (a + b) `div` 2) scanline prev_scanline).
Proof.
  intros Hsame. unfold average_filter, filtered_line.
  apply filter_frame_Ok; [lia|].
  intros k x Hx. pose proof (lookup_lt_Some _ _ _ Hx) as Hk.
  split; [|apply Z.mod_pos_bound; lia].
  rewrite left_of_Ok by lia. cbn [mbind result_bind].
  rewrite (above_falsy_Ok scanline) by done. cbn [mbind result_bind].
  unfold truediv. change (Qc_eq_bool (Qc_of_Z 2) 0) with false.
  cbn [fmap result_fmap mbind result_bind]. by rewrite floor_half.
Qed.

Lemma paeth_filter_Ok scanline prev_scanline :
  same_length scanline prev_scanline →
  paeth_filter scanline prev_scanline
  = Ok (filtered_line 4 paeth_predictor scanline prev_scanline).
Proof.
  intros Hsame. unfold paeth_filter, filtered_line.
  apply filter_frame_Ok; [lia|].
  intros k x Hx. pose proof (lookup_lt_Some _ _ _ Hx) as Hk.
  split; [|apply Z.mod_pos_bound; lia].
  rewrite left_of_Ok by lia. simpl.
  destruct (truthy prev_scanline) as [prev|] eqn:Hprev.
  - assert (prev_scanline = Some prev) as ->.
    { by destruct prev_scanline as [[|? ?]|]; simplify_eq. }
    rewrite above_Ok by (rewrite (Hsame prev eq_refl); lia).
    by rewrite left_of_Ok by (rewrite (Hsame prev eq_refl); lia).
  - simpl.
    destruct (byte_at_falsy scanline prev_scanline (Z.of_nat k) Hsame Hprev)
      as [-> | ->]; [done|].
    destruct (byte_at_falsy scanline prev_scanline (Z.of_nat k - 3) Hsame Hprev)
      as [-> | ->]; done.
Qed.

Lemma none_filter_Ok scanline prev_scanline :
  Forall is_byte scanline →
  none_filter scanline prev_scanline
  = Ok (filtered_line 0 (λ _ _ _, 0) scanline prev_scanline).
Proof.
  intros Hbytes. unfold none_filter, filtered_line. simpl. do 2 f_equal.
  apply list_eq. intros k. rewrite list_lookup_imap.
  destruct (scanline !! k) as [x|] eqn:Hx; [|done]. simpl. f_equal.
  assert (is_byte x) as Hbyte.
  { apply (Forall_elem _ _ _ Hbytes). by eapply list_elem_of_lookup_2. }
  unfold is_byte in Hbyte. rewrite Z.sub_0_r, Z.mod_small; lia.
Qed.

(** X15.  The None, Sub, Up and Average filters compute the filter types 0
    to 3 of PNG: for every scanline of bytes, with no previous scanline or
    one of the same length, each returns its type byte followed, for every
    byte [x], by [(x - prediction) mod 256], the prediction being 0 for
    None, [a] for Sub, [b] for Up and the integer quotient [(a + b) // 2]
    for Average ([a] the byte 3 positions left, [b] the byte above, 0 where
    there is none). *)
Theorem filters_compute_png_filter_types scanline prev_scanline :
  Forall is_byte scanline → same_length scanline prev_scanline →
  none_filter scanline prev_scanline
  = Ok (filtered_line 0 (λ _ _ _, 0) scanline prev_scanline) ∧
  sub_filter scanline prev_scanline
  = Ok (filtered_line 1 (λ a _ _, a) scanline prev_scanline) ∧
  up_filter scanline prev_scanline
  = Ok (filtered_line 2 (λ _ b _, b) scanline prev_scanline) ∧
  average_filter scanline prev_scanline
  = Ok (filtered_line 3 (λ a b _, (a + b) `div` 2) scanline prev_scanline).
Proof.
  intros Hbytes Hsame.
  split; [by apply none_filter_Ok|].
  split; [apply sub_filter_Ok|].
  split; [by apply up_filter_Ok | by apply average_filter_Ok].
Qed.

Lemma filters_compute_png_filter_types_witness :
  let line := [10; 20; 30; 40; 50; 60] in
  let prev := Some [1; 2; 3; 100; 200; 251] in
  none_filter line prev = Ok [0; 10; 20; 30; 40; 50; 60] ∧
  sub_filter line prev = Ok [1; 10; 20; 30; 30; 30; 30] ∧
  up_filter line prev = Ok [2; 9; 18; 27; 196; 106; 65] ∧
  average_filter line prev = Ok [3; 10; 19; 29; 241; 196; 176].
Proof.
  intros line prev.
  destruct (filters_compute_png_filter_types line prev)
    as (Hnone & Hsub & Hup & Haverage).
  - repeat constructor; lia.
  - by intros ? [= <-].
  - rewrite Hnone, Hsub, Hup, Haverage. repeat split; reflexivity.
Defined.

(** ** The filters lose nothing *)

Lemma byte_at_agree (l1 l2 : list Z) i :
  (0 ≤ i → l1 !! Z.to_nat i = l2 !! Z.to_nat i) →
  byte_at (Some l1) i = byte_at (Some l2) i.
Proof.
  intros H. unfold byte_at. case_match; [done|].
  rewrite !list_lookup_total_alt, H by lia. done.
Qed.

(** A filtered line determines the scanline, the previous scanline being
    known: the bytes come back one after the other, from the left. *)
Lemma filtered_line_inj tag predict l1 l2 prev :
  Forall is_byte l1 → Forall is_byte l2 →
  filtered_line tag predict l1 prev = filtered_line tag predict l2 prev →
  l1 = l2.
Proof.
  intros Hb1 Hb2 [= Heq].
  assert (length l1 = length l2) as Hlen.
  { apply (f_equal length) in Heq. by rewrite !length_imap in Heq. }
  apply list_eq. intros k.
  induction k as [k IH] using lt_wf_ind.
  apply (f_equal (λ l, l !! k)) in Heq. rewrite !list_lookup_imap in Heq.
  destruct (l1 !! k) as [x1|] eqn:H1, (l2 !! k) as [x2|] eqn:H2;
    cbn [fmap option_fmap option_map] in Heq; try done.
  injection Heq as Heq. f_equal.
  change (if Z.of_nat k - 3 <? 0 then 0 else l1 !!! Z.to_nat (Z.of_nat k - 3))
    with (byte_at (Some l1) (Z.of_nat k - 3)) in Heq.
  change (if Z.of_nat k - 3 <? 0 then 0 else l2 !!! Z.to_nat (Z.of_nat k - 3))
    with (byte_at (Some l2) (Z.of_nat k - 3)) in Heq.
  rewrite (byte_at_agree l1 l2) in Heq.
  2:{ intros Hk. apply IH. lia. }
  assert (is_byte x1) as Hx1.
  { apply (Forall_elem _ _ _ Hb1). by eapply list_elem_of_lookup_2. }
  assert (is_byte x2) as Hx2.
  { apply (Forall_elem _ _ _ Hb2). by eapply list_elem_of_lookup_2. }
  unfold is_byte in *.
  match type of Heq with (x1 - ?p) `mod` 256 = _ => generalize dependent p end.
  intros p Heq.
  assert ((x1 - x2) `mod` 256 = 0) as Hmod.
  { replace (x1 - x2) with ((x1 - p) - (x2 - p)) by lia.
    rewrite Zminus_mod, Heq, Z.sub_diag. done. }
  apply Z.mod_divide in Hmod as [m Hm]; lia.
Qed.

(** X16.  Each of the five filters is lossless: two scanlines of bytes that
    a filter maps, under the same previous scanline, to the same line are
    the same scanline. *)
Theorem filters_are_lossless filter_ l1 l2 prev_scanline out :
  filter_ ∈ filters →
  Forall is_byte l1 → Forall is_byte l2 →
  same_length l1 prev_scanline → same_length l2 prev_scanline →
  filter_ l1 prev_scanline = Ok out → filter_ l2 prev_scanline = Ok out →
  l1 = l2.
Proof.
  intros Hfilter Hb1 Hb2 Hs1 Hs2. unfold filters in Hfilter.
  repeat (apply elem_of_cons in Hfilter as [-> | Hfilter]).
  - by intros [= <-] [= ?].
  - rewrite !sub_filter_Ok. intros Hout1 Hout2.
    apply (filtered_line_inj 1 (λ a _ _, a) l1 l2 prev_scanline);
      [done..|]. congruence.
  - rewrite !up_filter_Ok by done. intros Hout1 Hout2.
    apply (filtered_line_inj 2 (λ _ b _, b) l1 l2 prev_scanline);
      [done..|]. congruence.
  - rewrite !average_filter_Ok by done. intros Hout1 Hout2.
    apply (filtered_line_inj 3 (λ a b _, (a + b) `div` 2) l1 l2 prev_scanline);
      [done..|]. congruence.
  - rewrite !paeth_filter_Ok by done. intros Hout1 Hout2.
    apply (filtered_line_inj 4 paeth_predictor l1 l2 prev_scanline);
      [done..|]. congruence.
  - by apply elem_of_nil in Hfilter.
Qed.

Lemma filters_are_lossless_witness :
  let l1 := [10; 20; 30] in
  let l2 := [10; 20; 286 - 256] in
  paeth_filter l1 (Some [1; 2; 3]) = Ok [4; 9; 18; 27] ∧ l1 = l2.
Proof.
  intros l1 l2. split; [reflexivity|].
  apply (filters_are_lossless paeth_filter l1 l2 (Some [1; 2; 3])
           [4; 9; 18; 27]).
  - unfold filters. set_solver.
  - repeat constructor; lia.
  - repeat constructor; lia.
  - by intros ? [= <-].
  - by intros ? [= <-].
  - reflexivity.
  - reflexivity.
Defined.

(** ** The first scanline *)

(** The score does not read the type byte. *)
Lemma min_sum_of_abs_diff_tag tag1 tag2 rest :
  min_sum_of_abs_diff (tag1 :: rest) = min_sum_of_abs_diff (tag2 :: rest).
Proof. unfold min_sum_of_abs_diff. by rewrite !slice_tail. Qed.

Lemma paeth_predictor_left a : paeth_predictor a 0 0 = a.
Proof. unfold paeth_predictor. repeat case_match; lia. Qed.

(** With no scanline above, Up leaves the bytes as None does, and Paeth
    predicts what Sub predicts. *)
Lemma first_line_candidates line :
  filtered_line 2 (λ _ b _, b) line None
  = 2 :: tail (filtered_line 0 (λ _ _ _, 0) line None) ∧
  filtered_line 4 paeth_predictor line None
  = 4 :: tail (filtered_line 1 (λ a _ _, a) line None).
Proof.
  split; [done|]. unfold filtered_line. simpl. f_equal.
  apply imap_ext. intros i x _. simpl. by rewrite paeth_predictor_left.
Qed.

(** X17.  For the first scanline of an image (no scanline above), adaptive
    filtering keeps the None, the Sub or the Average candidate, never the Up
    or the Paeth one: Up scores what None scores and Paeth what Sub scores,
    and of two candidates of equal score the earlier one is kept. *)
Theorem first_line_never_up_or_paeth line :
  line ≠ [] → Forall is_byte line →
  ∃ tag rest, dynamic_line line None = Ok (tag :: rest) ∧
              (tag = 0 ∨ tag = 1 ∨ tag = 3).
Proof.
  intros Hne Hbytes.
  assert (same_length line None) as Hsame by (by intros prev).
  destruct (results_Ok line None) as (rs & Hrs & Hcand); [done..|].
  destruct (sorted_head snd rs)
    as (k & [out score] & ys & Hsorted & Hk & _ & Hfirst).
  { apply Forall2_length in Hcand. by destruct rs. }
  assert (dynamic_line line None = Ok out) as ->.
  { unfold dynamic_line. rewrite Hrs. cbn [mbind result_bind].
    by rewrite Hsorted. }
  unfold filters in Hcand.
  apply Forall2_cons_inv_l in Hcand as ([o0 s0] & ? & (H0 & Hs0 & _) & Hcand & ->).
  apply Forall2_cons_inv_l in Hcand as ([o1 s1] & ? & (H1 & Hs1 & _) & Hcand & ->).
  apply Forall2_cons_inv_l in Hcand as ([o2 s2] & ? & (H2 & Hs2 & _) & Hcand & ->).
  apply Forall2_cons_inv_l in Hcand as ([o3 s3] & ? & (H3 & Hs3 & _) & Hcand & ->).
  apply Forall2_cons_inv_l in Hcand as ([o4 s4] & ? & (H4 & Hs4 & _) & Hcand & ->).
  apply Forall2_nil_inv_l in Hcand as ->.
  clear Hsorted Hrs. cbn [fst snd] in *.
  destruct (first_line_candidates line) as [Hup Hpaeth].
  rewrite none_filter_Ok in H0 by done.
  rewrite sub_filter_Ok in H1.
  rewrite up_filter_Ok, Hup in H2 by done.
  rewrite average_filter_Ok in H3 by done.
  rewrite paeth_filter_Ok, Hpaeth in H4 by done.
  unfold filtered_line in H0, H1, H2, H3, H4. cbn [tail] in H2, H4.
  injection H0 as <-. injection H1 as <-. injection H2 as <-.
  injection H3 as <-. injection H4 as <-.
  assert (s2 = s0) as ->.
  { rewrite (min_sum_of_abs_diff_tag 2 0) in Hs2. congruence. }
  assert (s4 = s1) as ->.
  { rewrite (min_sum_of_abs_diff_tag 4 1) in Hs4. congruence. }
  destruct k as [|[|[|[|[|k]]]]]; simpl in Hk; simplify_eq.
  - eexists _, _. split; [done|]. by left.
  - eexists _, _. split; [done|]. right. by left.
  - specialize (Hfirst 0%nat _ ltac:(lia) eq_refl). simpl in Hfirst. lia.
  - eexists _, _. split; [done|]. right. by right.
  - specialize (Hfirst 1%nat _ ltac:(lia) eq_refl). simpl in Hfirst. lia.
Qed.

Lemma first_line_never_up_or_paeth_witness :
  ∃ tag rest, dynamic_line [200; 100; 50; 201; 101; 51] None
              = Ok (tag :: rest) ∧ (tag = 0 ∨ tag = 1 ∨ tag = 3).
Proof.
  apply first_line_never_up_or_paeth; [done|].
  repeat constructor; lia.
Defined.

(** ** What is handed to the compressor *)

(** The line kept in adaptive mode is the output of one of the five
    filters. *)
Lemma dynamic_line_candidate line previous_line :
  line ≠ [] → Forall is_byte line → same_length line previous_line →
  ∃ out filter_, dynamic_line line previous_line = Ok out ∧
                 filter_ ∈ filters ∧ filter_ line previous_line = Ok out.
Proof.
  intros Hne Hbytes Hsame.
  destruct (results_Ok line previous_line) as (rs & Hrs & Hcand); [done..|].
  destruct (sorted_head snd rs) as (k & [out score] & ys & Hsorted & Hk & _).
  { apply Forall2_length in Hcand. by destruct rs. }
  destruct (Forall2_lookup_r _ _ _ _ _ Hcand Hk) as (filter_ & Hf & Hout & _).
  exists out, filter_. split; [|split].
  - unfold dynamic_line. rewrite Hrs. cbn [mbind result_bind].
    by rewrite Hsorted.
  - by eapply list_elem_of_lookup_2.
  - done.
Qed.

Lemma length_concat_uniform {A : Type} (ls : list (list A)) n :
  Forall (λ l, length l = n) ls → length (concat ls) = (length ls * n)%nat.
Proof.
  induction 1 as [|l ls Hl _ IH]; [done|].
  simpl. rewrite length_app, IH, Hl. done.
Qed.

Section lines.
Context (compress : list Z → list Z) (self : PngWriter) (image : list Z).
Context (Hbytes : Forall is_byte image).
Context (Hlen : Z.of_nat (length image) = width self * height self * 3).
Context (Hw : 0 < width self).

Local Abbreviation scanline := (λ i : Z, slice image i (i + width self * 3)).
Local Abbreviation offset := (λ k : nat, 0 + Z.of_nat k * (width self * 3)).

Local Abbreviation line_of := (PngSpec.line_of self image).

Lemma scanline_scanline_of (k : nat) :
  Z.of_nat k < height self →
  scanline (offset k) = scanline_of (width self) image k.
Proof using Hlen Hw.
  intros Hk. unfold slice, scanline_of.
  rewrite !clamp_inside by nia. f_equal; [lia|]. f_equal. lia.
Qed.

Lemma line_filtered (k : nat) :
  Z.of_nat k < height self →
  ∃ out,
    (line ← getitem (scanline <$> (offset <$> seq 0 (Z.to_nat (height self))))
                    (Z.of_nat k);
     previous_line ←
       (if Z.of_nat k =? 0 then Ok None
        else Some <$> getitem (scanline <$> (offset <$> seq 0 (Z.to_nat
                                                        (height self))))
                              (Z.of_nat k - 1));
     if dynamic_filtering self
     then dynamic_line line previous_line
     else paeth_filter line previous_line) = Ok out ∧
    line_of k out.
Proof using Hbytes Hlen Hw.
  intros Hk.
  destruct (scanline_ok self image Hbytes Hlen k Hw Hk)
    as (Hlength & Hline & ->).
  rewrite scanline_scanline_of in Hlength, Hline by done.
  rewrite scanline_scanline_of by done.
  cbn [mbind result_bind].
  set (line := scanline_of (width self) image k) in Hlength, Hline |- *.
  assert (line ≠ []) as Hne.
  { intros E. rewrite E in Hlength. simpl in Hlength. lia. }
  assert ((if Z.of_nat k =? 0 then Ok None
           else Some <$> getitem (scanline <$> (offset <$> seq 0 (Z.to_nat
                                                           (height self))))
                                 (Z.of_nat k - 1))
          = Ok (previous_of (width self) image k) ∧
          same_length line (previous_of (width self) image k))
    as [-> Hsame].
  { destruct k as [|k]; [done|].
    destruct (Z.of_nat (S k) =? 0) eqn:E; [lia|].
    destruct (scanline_ok self image Hbytes Hlen k Hw) as (Hlength' & _ & Hprev);
      [lia|].
    replace (Z.of_nat (S k) - 1) with (Z.of_nat k) by lia. rewrite Hprev.
    rewrite scanline_scanline_of in Hlength' by lia.
    rewrite scanline_scanline_of by lia.
    split; [done|]. intros prev [= <-]. congruence. }
  cbn [mbind result_bind].
  pose proof (filters_total line _ Hline Hsame) as Hall.
  assert (∀ filter_ out, filter_ ∈ filters →
            filter_ line (previous_of (width self) image k) = Ok out →
            filtered line out) as Hfiltered.
  { intros filter_ out Hf Hout.
    destruct (Forall_elem _ _ _ Hall Hf) as (out' & Hout' & ?). congruence. }
  unfold PngSpec.line_of. fold line. destruct (dynamic_filtering self).
  - destruct (dynamic_line_candidate line (previous_of (width self) image k))
      as (out & filter_ & -> & Hf & Hout); [done..|].
    exists out. split; [done|]. split; [by eapply Hfiltered|].
    by exists filter_.
  - assert (paeth_filter ∈ filters) as Hf.
    { unfold filters. rewrite !elem_of_cons. auto 6. }
    destruct (Forall_elem _ _ _ Hall Hf) as (out & Hout & ?).
    exists out. split; [done|]. split; [done|]. by exists paeth_filter.
Qed.

Lemma process_image_data_lines :
  ∃ processed,
    process_image_data compress self image = Ok (compress (concat processed)) ∧
    length processed = Z.to_nat (height self) ∧
    ∀ k out, processed !! k = Some out → line_of k out.
Proof using Hbytes Hlen Hw.
  unfold process_image_data. rewrite Hlen, Z.eqb_refl. cbn [negb].
  destruct (offsets_positive_width self image Hlen Hw) as [Hh ->].
  cbn [mbind result_bind].
  match goal with |- context [mapM ?f ?l] =>
    destruct (mapM_Forall2 (λ i out, line_of (Z.to_nat i) out) f l)
      as (processed & -> & Hlines) end.
  - apply Forall_forall. intros i Hi.
    apply list_elem_of_In, list_elem_of_lookup in Hi as [k Hi].
    apply range_lookup in Hi as [-> Hk].
    destruct (line_filtered k Hk) as (out & Hout & Hline).
    exists out. split; [done|]. by rewrite Nat2Z.id.
  - exists processed. split; [done|].
    pose proof (Forall2_length Hlines) as Hlength.
    rewrite range_length in Hlength. split; [done|].
    intros k out Hout.
    destruct (Forall2_lookup_r _ _ _ _ _ Hlines Hout) as (i & Hi & Hline).
    apply range_lookup in Hi as [-> _]. by rewrite Nat2Z.id in Hline.
Qed.

End lines.

Lemma scanline_of_length width image (k : nat) :
  0 ≤ width →
  (Z.of_nat k + 1) * (width * 3) ≤ Z.of_nat (length image) →
  length (scanline_of width image k) = Z.to_nat (width * 3).
Proof.
  intros Hw Hk. unfold scanline_of. rewrite length_take, length_drop. nia.
Qed.

(** X18.  For an image of bytes of the right size and of positive width,
    [process_image_data] hands to the compressor the concatenation of one
    line a scanline, in order: line [k] is the output, for scanline [k]
    under scanline [k - 1] (none for the first), of one of the five filters
    in adaptive mode and of the Paeth filter otherwise; it is one byte
    longer than the scanline, so that height × (width × 3 + 1) bytes are
    compressed. *)
Theorem process_image_data_filters_every_scanline compress self image :
  0 < width self → Forall is_byte image →
  Z.of_nat (length image) = width self * height self * 3 →
  ∃ processed,
    process_image_data compress self image
    = Ok (compress (concat processed)) ∧
    length processed = Z.to_nat (height self) ∧
    (∀ k out, processed !! k = Some out → line_of self image k out) ∧
    Z.of_nat (length (concat processed))
    = height self * (width self * 3 + 1) ∧
    Forall is_byte (concat processed).
Proof.
  intros Hw Hbytes Hlen.
  destruct (process_image_data_lines compress self image Hbytes Hlen Hw)
    as (processed & Hprocess & Hlength & Hlines).
  exists processed. split; [done|]. split; [done|]. split; [done|].
  assert (0 ≤ height self) as Hh by nia.
  split.
  - rewrite (length_concat_uniform processed (S (Z.to_nat (width self * 3)))).
    { rewrite Hlength. nia. }
    apply Forall_lookup_2. intros k out Hout.
    destruct (Hlines k out Hout) as [[-> _] _]. f_equal.
    apply lookup_lt_Some in Hout.
    apply scanline_of_length; [lia | nia].
  - apply Forall_concat, Forall_lookup_2. intros k out Hout.
    by destruct (Hlines k out Hout) as [[_ ?] _].
Qed.

Lemma process_image_data_filters_every_scanline_witness :
  let self := mkPngWriter [] 1 2 false in
  let image := [10; 20; 30; 40; 50; 60] in
  ∃ processed,
    process_image_data (λ data, data) self image = Ok (concat processed) ∧
    length processed = 2%nat ∧
    Z.of_nat (length (concat processed)) = 2 * (1 * 3 + 1).
Proof.
  intros self image.
  destruct (process_image_data_filters_every_scanline (λ data, data)
              self image) as (processed & Hprocess & Hlength & _ & Hsize & _).
  - simpl. lia.
  - repeat constructor; lia.
  - reflexivity.
  - by exists processed.
Defined.

(** ** Writing a whole image *)

Lemma process_image_data_stream compress self data image :
  process_image_data compress (stream_write self data) image
  = process_image_data compress self image.
Proof. done. Qed.

Lemma write_chunk_stream self type data self' e :
  write_chunk self type data = (self', e) →
  width self' = width self ∧ height self' = height self ∧
  dynamic_filtering self' = dynamic_filtering self.
Proof.
  unfold write_chunk. repeat case_match; by intros [= <- <-].
Qed.

(** What [write_image] appends once the image has been processed. *)
Lemma write_image_Ok compress self image data :
  unsigned 32 (width self) → unsigned 32 (height self) →
  process_image_data compress self image = Ok data →
  Forall is_byte data → Z.of_nat (length data) < 2 ^ 32 →
  write_image compress self image
  = (stream_write self
       (signature ++ chunk IHDR (ihdr_data (width self) (height self))
        ++ chunk IDAT data ++ chunk IEND []),
     None).
Proof.
  intros Hw Hh Hdata Hdata_bytes Hdata_len.
  unfold write_image, and_then, write_signature.
  rewrite write_ihdr_Ok by done.
  change (width (stream_write self _)) with (width self).
  change (height (stream_write self _)) with (height self).
  unfold write_idat. rewrite !process_image_data_stream, Hdata.
  rewrite (write_chunk_Ok _ IDAT); [|done|repeat constructor; lia|done..].
  unfold write_iend.
  rewrite (write_chunk_Ok _ IEND); [|done|repeat constructor; lia|done|done].
  unfold stream_write. cbn [stream width height dynamic_filtering].
  by rewrite <- !app_assoc.
Qed.

(** X19.  For an image of bytes of the right size, whose dimensions fit 32
    bits unsigned and whose width is positive, [write_image] appends to the
    stream the 8-byte signature, the IHDR chunk, one IDAT chunk that holds
    the compressed data, and the IEND chunk, in this order and nothing else
    (the compressed data being bytes, fewer than 2^32). *)
Theorem write_image_layout compress self image :
  0 < width self < 2 ^ 32 → 0 ≤ height self < 2 ^ 32 →
  Forall is_byte image →
  Z.of_nat (length image) = width self * height self * 3 →
  ∃ data,
    process_image_data compress self image = Ok data ∧
    (Forall is_byte data → Z.of_nat (length data) < 2 ^ 32 →
     write_image compress self image
     = (appended self
          (signature ++ chunk IHDR (ihdr_data (width self) (height self))
           ++ chunk IDAT data ++ chunk IEND []),
        None)).
Proof.
  intros Hw Hh Hbytes Hlen.
  pose proof (process_image_data_right_size compress self image Hbytes Hlen)
    as Hprocess.
  destruct (Z.eqb_spec (width self) 0) as [?|_]; [lia|].
  destruct Hprocess as [data Hdata]. exists data. split; [done|].
  intros Hdata_bytes Hdata_len.
  apply write_image_Ok; try done; unfold unsigned; lia.
Qed.

Lemma write_image_layout_witness :
  let self := mkPngWriter [] 1 1 false in
  write_image (λ data, data) self [10; 20; 30]
  = (appended self
       (signature ++ chunk IHDR (ihdr_data 1 1)
        ++ chunk IDAT [4; 10; 20; 30] ++ chunk IEND []),
     None).
Proof.
  intros self.
  destruct (write_image_layout (λ data, data) self [10; 20; 30])
    as (data & Hdata & Hwrite).
  - simpl. lia.
  - simpl. lia.
  - repeat constructor; lia.
  - reflexivity.
  - vm_compute in Hdata. injection Hdata as <-.
    apply Hwrite; [repeat constructor; lia | simpl; lia].
Defined.

(** X20.  [write_image] is not all or nothing.  When the dimensions do not
    fit 32 bits unsigned, it raises [struct.error] after the signature has
    been written; when they fit and the image has not width × height × 3
    bytes, it raises [ValueError] after the signature and the IHDR chunk
    have been written. *)
Theorem write_image_leaves_partial_output compress self image :
  (¬ (unsigned 32 (width self) ∧ unsigned 32 (height self)) →
   write_image compress self image
   = (appended self signature, Some StructError)) ∧
  (unsigned 32 (width self) ∧ unsigned 32 (height self) →
   Z.of_nat (length image) ≠ width self * height self * 3 →
   write_image compress self image
   = (appended self
        (signature ++ chunk IHDR (ihdr_data (width self) (height self))),
      Some (ValueError SizeMismatch))).
Proof.
  unfold write_image, and_then, write_signature. split.
  - intros Hout. by rewrite write_ihdr_Raise.
  - intros [Hw Hh] Hne. rewrite write_ihdr_Ok by done.
    change (width (stream_write self _)) with (width self).
    change (height (stream_write self _)) with (height self).
    unfold write_idat, process_image_data.
    change (width (stream_write _ _)) with (width self).
    change (height (stream_write _ _)) with (height self).
    destruct (Z.eqb_spec (Z.of_nat (length image))
                (width self * height self * 3)) as [?|_]; [done|].
    cbn [negb]. unfold stream_write.
    cbn [stream width height dynamic_filtering]. by rewrite <- !app_assoc.
Qed.

Lemma write_image_leaves_partial_output_witness :
  let self := mkPngWriter [] 2 1 true in
  write_image (λ data, data) self [10; 20; 30]
  = (appended self (signature ++ chunk IHDR (ihdr_data 2 1)),
     Some (ValueError SizeMismatch)).
Proof.
  intros self.
  destruct (write_image_leaves_partial_output (λ data, data) self [10; 20; 30])
    as [_ Hsize].
  apply Hsize; [unfold unsigned; simpl; lia | simpl; lia].
Defined.

(** X21.  [write_fdat] packs the sequence number before it looks at the
    image: a sequence number that does not fit 32 bits unsigned raises
    [struct.error] whatever the image is; otherwise an exception of
    [process_image_data] is passed on and nothing is written; otherwise one
    chunk of type fdAT is appended, whose data are the sequence number as a
    4-byte big-endian integer followed by the compressed image. *)
Theorem write_fdat_layout compress self seq image :
  (¬ unsigned 32 seq →
   write_fdat compress self seq image = (self, Some StructError)) ∧
  (unsigned 32 seq →
   match process_image_data compress self image with
   | Raise e => write_fdat compress self seq image = (self, Some e)
   | Ok data =>
       Forall is_byte data → 4 + Z.of_nat (length data) < 2 ^ 32 →
       write_fdat compress self seq image
       = (appended self (chunk fdAT (big_endian 4 seq ++ data)), None)
   end).
Proof.
  unfold unsigned, write_fdat, pack.
  cbn [length Nat.eqb negb zip zip_with mapM pack_field].
  rewrite pack_I_spec. split.
  - intros Hout. destruct ((0 <=? seq) && _) eqn:Es; [lia|done].
  - intros Hseq. destruct ((0 <=? seq) && _) eqn:Es; [|lia].
    cbn -[big_endian write_chunk]. rewrite app_nil_r.
    destruct (process_image_data compress self image) as [data|e]; [|done].
    intros Hdata Hlen. apply write_chunk_Ok.
    + done.
    + repeat constructor; lia.
    + apply Forall_app_2; [apply big_endian_bytes | done].
    + rewrite length_app, big_endian_length. lia.
Qed.

Lemma write_fdat_layout_witness :
  let self := mkPngWriter [] 1 1 false in
  write_fdat (λ data, data) self (-1) [] = (self, Some StructError) ∧
  write_fdat (λ data, data) self 7 [] = (self, Some (ValueError SizeMismatch)) ∧
  write_fdat (λ data, data) self 7 [10; 20; 30]
  = (appended self (chunk fdAT [0; 0; 0; 7; 4; 10; 20; 30]), None).
Proof.
  intros self. split; [|split].
  - destruct (write_fdat_layout (λ data, data) self (-1) []) as [Hout _].
    apply Hout. unfold unsigned. lia.
  - destruct (write_fdat_layout (λ data, data) self 7 []) as [_ Hin].
    apply Hin. unfold unsigned. lia.
  - destruct (write_fdat_layout (λ data, data) self 7 [10; 20; 30])
      as [_ Hin].
    specialize (Hin ltac:(unfold unsigned; lia)).
    change (process_image_data _ _ _) with (Ok [4; 10; 20; 30]) in Hin.
    apply Hin; [repeat constructor; lia | simpl; lia].
Defined.

End PngFacts.

(** * From the canvas to the PNG file *)

Module CanvasPngFacts.

Import CanvasPngPy.

(** What [to_png] leaves in the file. *)
Lemma to_png_Ok compress (self : CanvasPy.Canvas) :
  CanvasSpec.canvas_wf self → CanvasSpec.pixels_ok self →
  CanvasSpec.color_ok (CanvasPy.bgcolor self) →
  0 < CanvasPy.width self < 2 ^ 32 → 0 ≤ CanvasPy.height self < 2 ^ 32 →
  ∃ image data,
    CanvasPy.bytes self = Ok image ∧
    PngWriterPy.process_image_data compress
      (PngWriterPy.mkPngWriter [] (CanvasPy.width self)
                               (CanvasPy.height self) true) image
    = Ok data ∧
    (Forall is_byte data → Z.of_nat (length data) < 2 ^ 32 →
     to_png compress self
     = (PngSpec.signature
        ++ PngSpec.chunk PngSpec.IHDR
             (PngSpec.ihdr_data (CanvasPy.width self) (CanvasPy.height self))
        ++ PngSpec.chunk PngSpec.IDAT data
        ++ PngSpec.chunk PngSpec.IEND [],
        None)).
Proof.
  intros Hwf Hok Hbg Hw Hh.
  destruct (CanvasFacts.bytes_Ok self) as (Himage & Hlen & Hbytes);
    [done | nia | done..|].
  set (image := self.(CanvasPy.canvas)
                ≫= CanvasSpec.flat_rgb (CanvasPy.bgcolor self)) in *.
  set (w := PngWriterPy.mkPngWriter [] (CanvasPy.width self)
                                    (CanvasPy.height self) true).
  pose proof (PngFacts.process_image_data_right_size compress w image
                Hbytes Hlen) as Hprocess.
  change (PngWriterPy.width w) with (CanvasPy.width self) in Hprocess.
  destruct (Z.eqb_spec (CanvasPy.width self) 0) as [?|_]; [lia|].
  destruct Hprocess as [data Hdata].
  exists image, data. split; [done|]. split; [done|].
  intros Hdata_bytes Hdata_len. unfold to_png. rewrite Himage. fold w.
  rewrite (PngFacts.write_image_Ok compress w image data);
    [done | unfold PngSpec.unsigned; simpl; lia..| done | done | done].
Qed.

(** X22.  [to_png] of a canvas that holds width × height pixels with valid
    channels, whose dimensions fit 32 bits unsigned and whose width is
    positive, never fails on the size of the image: [bytes] returns an image
    of width × height × 3 bytes that [process_image_data] accepts, and the
    file receives the signature, the IHDR chunk with the dimensions of the
    canvas, one IDAT chunk with the compressed image and the IEND chunk (the
    compressed data being bytes, fewer than 2^32). *)
Theorem to_png_writes_a_png compress (self : CanvasPy.Canvas) :
  CanvasSpec.canvas_wf self → CanvasSpec.pixels_ok self →
  CanvasSpec.color_ok (CanvasPy.bgcolor self) →
  0 < CanvasPy.width self < 2 ^ 32 → 0 ≤ CanvasPy.height self < 2 ^ 32 →
  ∃ image data,
    CanvasPy.bytes self = Ok image ∧
    Z.of_nat (length image)
    = CanvasPy.width self * CanvasPy.height self * 3 ∧
    PngWriterPy.process_image_data compress
      (PngWriterPy.mkPngWriter [] (CanvasPy.width self)
                               (CanvasPy.height self) true) image
    = Ok data ∧
    (Forall is_byte data → Z.of_nat (length data) < 2 ^ 32 →
     to_png compress self
     = (PngSpec.signature
        ++ PngSpec.chunk PngSpec.IHDR
             (PngSpec.ihdr_data (CanvasPy.width self) (CanvasPy.height self))
        ++ PngSpec.chunk PngSpec.IDAT data
        ++ PngSpec.chunk PngSpec.IEND [],
        None)).
Proof.
  intros Hwf Hok Hbg Hw Hh.
  destruct (to_png_Ok compress self) as (image & data & Himage & Hdata & Hfile);
    [done..|].
  exists image, data. split; [done|]. split; [|done].
  destruct (CanvasFacts.bytes_Ok self) as (Himage' & Hlen & _);
    [done | nia | done..|].
  rewrite Himage in Himage'. by injection Himage' as ->.
Qed.

Lemma to_png_writes_a_png_witness :
  let self := (CanvasPy.import_rgb_data
                 (CanvasPy.Canvas_init 1 1 (CanvasPy.mkColor 0 0 0 1))
                 [10; 20; 30]).1 in
  ∃ data,
    to_png (λ data, data) self
    = (PngSpec.signature ++ PngSpec.chunk PngSpec.IHDR (PngSpec.ihdr_data 1 1)
       ++ PngSpec.chunk PngSpec.IDAT data ++ PngSpec.chunk PngSpec.IEND [],
       None).
Proof.
  intros self.
  destruct (to_png_writes_a_png (λ data, data) self)
    as (image & data & Himage & _ & Hdata & Hwrite).
  - reflexivity.
  - repeat constructor; vm_compute; discriminate.
  - repeat split; vm_compute; discriminate.
  - simpl. lia.
  - simpl. lia.
  - exists data. vm_compute in Himage. injection Himage as <-.
    vm_compute in Hdata. injection Hdata as <-.
    apply Hwrite; [repeat constructor; lia | simpl; lia].
Defined.

End CanvasPngFacts.

(** * The font *)

Module FontFacts.

Import CanvasPy CanvasSpec FontPy FontSpec CanvasFacts.

(** ** Loading a font *)

Lemma RgbaColor_init_transparent :
  RgbaColor_init 0 0 0 0 = Ok (mkColor 0 0 0 0).
Proof. reflexivity. Qed.

Lemma sheet_shape file n cw ch :
  canvas_wf (sheet file n cw ch) ∧
  width (sheet file n cw ch) = Z.of_nat n * cw ∧
  height (sheet file n cw ch) = ch ∧
  bgcolor (sheet file n cw ch) = mkColor 0 0 0 0 ∧
  pixels_ok (sheet file n cw ch).
Proof.
  unfold sheet.
  set (c := Canvas_init (Z.of_nat n * cw) ch (mkColor 0 0 0 0)).
  destruct (import_data_same_shape 4
              (λ channels,
                 match channels with
                 | [r; g; b; a] =>
                     RgbaColor_init (channel_of_byte r) (channel_of_byte g)
                                    (channel_of_byte b) (channel_of_byte a)
                 | _ => Raise StructError
                 end) c file) as (Hw & Hh & Hbg & Hlen).
  fold (import_rgba_data c file) in Hw, Hh, Hbg, Hlen.
  split; [|split; [done|split; [done|split; [done|]]]].
  - unfold canvas_wf. rewrite Hlen, Hw, Hh. unfold c. simpl.
    by rewrite length_fmap, range_length.
  - apply import_rgba_data_pixels_ok, Canvas_init_pixels_ok,
      color_ok_transparent_black.
Qed.

(** Cutting the cell of a letter out of the sheet never fails. *)
Lemma sheet_cell file n cw ch (i : nat) :
  0 < cw → 0 < ch → (i < n)%nat →
  ∃ letter, rect (sheet file n cw ch) (Z.of_nat i * cw) 0 cw ch = Ok letter ∧
            rect_of (sheet file n cw ch) (Z.of_nat i * cw) 0 cw ch letter.
Proof.
  intros Hcw Hch Hi.
  destruct (sheet_shape file n cw ch) as (Hwf & Hw & Hh & _).
  apply rect_Ok; rewrite ?Hw, ?Hh; try done; nia.
Qed.

(** The loop of [Font.load] completes; it leaves alone the characters that
    are not in the character map, and maps every character of the map to
    the cell at its last position. *)
Lemma load_loop file (charmap : str) cw ch cm0 :
  0 < cw → 0 < ch →
  ∃ cm,
    for_each (λ cm '(i, c),
                load_body (sheet file (length charmap) cw ch) cw ch cm i c)
             (enumerate charmap) cm0 = (cm, None) ∧
    (∀ c, c ∉ charmap → cm !! c = cm0 !! c) ∧
    (∀ i c, last_position charmap i c →
       ∃ letter, cm !! c = Some letter ∧
         rect (sheet file (length charmap) cw ch) (Z.of_nat i * cw) 0 cw ch
         = Ok letter).
Proof.
  intros Hcw Hch.
  set (canvas := sheet file (length charmap) cw ch).
  match goal with |- context [for_each ?f ?xs ?s] =>
    destruct (for_each_counted
      (λ m cm,
         (∀ c, c ∉ take m charmap → cm !! c = cm0 !! c) ∧
         (∀ i c, last_position (take m charmap) i c →
            ∃ letter, cm !! c = Some letter ∧
              rect canvas (Z.of_nat i * cw) 0 cw ch = Ok letter))
      f xs s) as (cm & Hrun & Hout & Hin) end.
  - split; [done|]. by intros i c [? _].
  - intros m [i c] cm [-> Hc]%enumerate_lookup [Hout Hin].
    pose proof (lookup_lt_Some _ _ _ Hc) as Hm.
    destruct (sheet_cell file (length charmap) cw ch m)
      as (letter & Hletter & _); [done..|].
    unfold load_body. fold canvas in Hletter. rewrite Hletter. simpl.
    eexists. split; [done|].
    rewrite (take_S_r _ _ _ Hc). split.
    + intros c' [Hc1 Hc2]%not_elem_of_app.
      rewrite lookup_insert_ne; [by apply Hout|].
      intros ->. apply Hc2. by left.
    + intros i c' [Hi Hlast].
      assert (length (take m charmap) = m) as Hlen
        by (rewrite length_take; lia).
      destruct (decide (i = m)) as [->|Hne].
      * rewrite lookup_app_r, Hlen, Nat.sub_diag in Hi by lia.
        injection Hi as <-. exists letter. by rewrite lookup_insert_eq.
      * assert (i < m)%nat as Hlt.
        { apply lookup_lt_Some in Hi. rewrite length_app, Hlen in Hi.
          simpl in Hi. lia. }
        rewrite lookup_app_l in Hi by lia.
        assert (c' ≠ c) as Hc'.
        { intros ->. apply (Hlast m); [done|].
          by rewrite lookup_app_r, Hlen, Nat.sub_diag by lia. }
        rewrite lookup_insert_ne by done. apply Hin. split; [done|].
        intros j Hj Hcj. apply (Hlast j Hj).
        by apply lookup_app_l_Some.
  - exists cm. split; [done|].
    rewrite enumerate_length, take_ge in Hout, Hin by lia. done.
Qed.

(** X23.  [Font.load] either fails and leaves the font exactly as it was, or
    succeeds.  It fails with the [ValueError] of its own exactly when a
    character dimension is not positive, and otherwise with the exception
    that importing the font file raised; cutting the letters out of the
    imported sheet never fails. *)
Theorem load_is_all_or_nothing self file (charmap : str) cw ch :
  match load self file charmap cw ch with
  | (font', None) =>
      0 < cw ∧ 0 < ch ∧
      (import_rgba_data
         (Canvas_init (Z.of_nat (length charmap) * cw) ch (mkColor 0 0 0 0))
         file).2 = None ∧
      char_width font' = cw ∧ char_height font' = ch
  | (font', Some e) =>
      font' = self ∧
      (e = CharacterDimensions ↔ cw ≤ 0 ∨ ch ≤ 0) ∧
      (∀ e', e = FromCanvas e' →
         (import_rgba_data
            (Canvas_init (Z.of_nat (length charmap) * cw) ch
                         (mkColor 0 0 0 0))
            file).2 = Some e')
  end.
Proof.
  unfold load.
  destruct ((cw <=? 0) || (ch <=? 0)) eqn:Hdim.
  { split; [done|]. split; [split; [lia | done] | done]. }
  rewrite RgbaColor_init_transparent.
  destruct (load_loop file charmap cw ch (FontPy.charmap self))
    as (cm & Hloop & _); [lia..|].
  unfold sheet in Hloop.
  destruct (import_rgba_data _ file) as [canvas [e|]] eqn:Himport.
  - split; [done|]. split; [split; [done | lia]|]. by intros e' [= ->].
  - simpl in Hloop. rewrite Hloop. simpl. repeat split; lia.
Qed.

(** The font file is imported without exception when it holds exactly the
    pixels of the sheet. *)
Lemma sheet_import file n cw ch :
  Forall is_byte file →
  Z.of_nat (length file) = Z.of_nat n * cw * ch * 4 →
  let c := Canvas_init (Z.of_nat n * cw) ch (mkColor 0 0 0 0) in
  import_rgba_data c file
  = (with_canvas c
       (overwritten (Z.to_nat (Z.of_nat n * cw * ch)) (rgba_pixel file)
                    (canvas c)),
     None).
Proof.
  intros Hbytes Hlen c.
  assert (length (canvas c) = Z.to_nat (Z.of_nat n * cw * ch)) as Hc.
  { unfold c. simpl. by rewrite length_fmap, range_length. }
  rewrite <- Hc. set (N := length (canvas c)) in *.
  assert (length file = 4 * N)%nat as HN by nia.
  assert (length file `div` 4 = N)%nat as Hdiv.
  { rewrite HN, Nat.mul_comm. by apply Nat.div_mul. }
  assert (length file `mod` 4 = 0)%nat as Hmod.
  { rewrite HN, Nat.mul_comm. by apply Nat.Div0.mod_mul. }
  pose proof (import_rgba_data_whole c file Hbytes ltac:(lia) Hmod) as Himport.
  by rewrite Hdiv in Himport.
Qed.

(** The pixels of the sheet are then the pixels of the file. *)
Lemma sheet_pixels file n cw ch X Y :
  Forall is_byte file →
  Z.of_nat (length file) = Z.of_nat n * cw * ch * 4 →
  0 ≤ X < Z.of_nat n * cw → 0 ≤ Y < ch →
  at_ (sheet file n cw ch) X Y
  = Ok (rgba_pixel file (Z.to_nat (X + Z.of_nat n * cw * Y))).
Proof.
  intros Hbytes Hlen HX HY.
  pose proof (sheet_import file n cw ch Hbytes Hlen) as Himport.
  destruct (sheet_shape file n cw ch) as (Hwf & Hw & Hh & _).
  destruct (at_inside (sheet file n cw ch) X Y) as (p & Hp & ->);
    [done | lia..|].
  f_equal. rewrite Hw in Hp. unfold sheet in Hp.
  cbv zeta in Himport. rewrite Himport in Hp.
  match type of Hp with context [overwritten ?N ?f ?l] =>
    change (overwritten N f l !! Z.to_nat (X + Z.of_nat n * cw * Y)
            = Some p) in Hp end.
  unfold overwritten in Hp.
  rewrite lookup_app_l in Hp by (rewrite length_fmap, length_seq; nia).
  rewrite list_lookup_fmap, lookup_seq_lt in Hp by nia.
  by injection Hp as <-.
Qed.

(** [Font.load] succeeds as soon as the character dimensions are positive
    and the import of the font file raises nothing. *)
Lemma load_Ok self file (charmap : str) cw ch :
  0 < cw → 0 < ch →
  (import_rgba_data
     (Canvas_init (Z.of_nat (length charmap) * cw) ch (mkColor 0 0 0 0))
     file).2 = None →
  ∃ font', load self file charmap cw ch = (font', None).
Proof.
  intros Hcw Hch Himport.
  destruct (load_loop file charmap cw ch (FontPy.charmap self))
    as (cm & Hloop & _); [done..|].
  unfold load. destruct ((cw <=? 0) || (ch <=? 0)) eqn:Hdim; [lia|].
  rewrite RgbaColor_init_transparent. unfold sheet in Hloop.
  destruct (import_rgba_data _ file) as [canvas e]. simpl in Himport, Hloop.
  subst e. rewrite Hloop. by eexists.
Qed.

(** X24.  When the character dimensions are positive and the font file
    holds exactly the RGBA pixels of a sheet of len(charmap) cells of
    char_width × char_height pixels side by side, [Font.load] succeeds: it
    leaves alone the letters of the characters that are not in the character
    map, and maps every character of the map to a canvas of char_width ×
    char_height pixels that holds the cell at the last position of the
    character in the map. *)
Theorem load_cuts_the_letters self file (charmap : str) cw ch :
  0 < cw → 0 < ch → Forall is_byte file →
  Z.of_nat (length file) = Z.of_nat (length charmap) * cw * ch * 4 →
  ∃ font', load self file charmap cw ch = (font', None) ∧
    (∀ c, c ∉ charmap →
       FontPy.charmap font' !! c = FontPy.charmap self !! c) ∧
    (∀ i c, last_position charmap i c →
       ∃ letter, FontPy.charmap font' !! c = Some letter ∧
         width letter = cw ∧ height letter = ch ∧ canvas_wf letter ∧
         ∀ u v, 0 ≤ u < cw → 0 ≤ v < ch →
           at_ letter u v
           = Ok (rgba_pixel file
                   (Z.to_nat (Z.of_nat i * cw + u
                              + Z.of_nat (length charmap) * cw * v)))).
Proof.
  intros Hcw Hch Hbytes Hlen.
  destruct (load_loop file charmap cw ch (FontPy.charmap self))
    as (cm & Hloop & Hout & Hin); [done..|].
  exists (mkFont cm ch cw). split; [|split; [done|]].
  - unfold load. destruct ((cw <=? 0) || (ch <=? 0)) eqn:Hdim; [lia|].
    rewrite RgbaColor_init_transparent. unfold sheet in Hloop.
    pose proof (sheet_import file (length charmap) cw ch Hbytes Hlen)
      as Himport.
    cbv zeta in Himport. rewrite Himport in Hloop |- *.
    cbn [fst] in Hloop. by rewrite Hloop.
  - intros i c Hlast. destruct (Hin i c Hlast) as (letter & Hc & Hrect).
    pose proof (lookup_lt_Some _ _ _ (proj1 Hlast)) as Hi.
    destruct (sheet_shape file (length charmap) cw ch) as (Hwf & Hw & Hh & _).
    destruct (rect_Ok_rect_of _ _ _ _ _ _ Hwf Hrect)
      as (Hlw & Hlh & _ & Hlwf & Hcells).
    exists letter. repeat split; try done.
    intros u v Hu Hv. destruct (Hcells u v Hu Hv) as (p & Hp & ->).
    rewrite (sheet_pixels file (length charmap) cw ch) in Hp
      by (done || nia). injection Hp as <-. by rewrite Z.add_0_l.
Qed.

Lemma load_cuts_the_letters_witness :
  let file := [1; 2; 3; 4; 5; 6; 7; 8; 9; 10; 11; 12] in
  ∃ font', load Font_init file ["A"; "B"; "A"]%char 1 1 = (font', None) ∧
    (∃ letter, charmap font' !! "A"%char = Some letter ∧
               at_ letter 0 0 = Ok (rgba_pixel file 2)) ∧
    charmap font' !! "C"%char = None.
Proof.
  intros file.
  destruct (load_cuts_the_letters Font_init file ["A"; "B"; "A"]%char 1 1)
    as (font' & Hload & Hout & Hin).
  - lia.
  - lia.
  - repeat constructor; lia.
  - reflexivity.
  - exists font'. split; [done|]. split.
    + destruct (Hin 2%nat "A"%char) as (letter & Hletter & _ & _ & _ & Hat).
      { split; [done|]. by intros [|[|[|j]]] Hj; try lia. }
      exists letter. split; [done|]. apply (Hat 0 0); lia.
    + rewrite Hout; [done|]. intros H.
      repeat (apply elem_of_cons in H as [?|H]; [done|]).
      by apply elem_of_nil in H.
Defined.

(** The letters that [Font.load] stores are valid, and those it finds
    stay. *)
Lemma load_letters_ok self file (charmap : str) cw ch :
  letters_ok Font_init ∧
  (letters_ok self → letters_ok (load self file charmap cw ch).1).
Proof.
  split; [done|]. intros Hself. unfold load.
  destruct ((cw <=? 0) || (ch <=? 0)); [done|].
  rewrite RgbaColor_init_transparent.
  destruct (sheet_shape file (length charmap) cw ch)
    as (Hwf & _ & _ & Hbg & Hok).
  unfold sheet in Hwf, Hbg, Hok.
  destruct (import_rgba_data _ file) as [canvas [e|]]; [done|].
  simpl in Hwf, Hbg, Hok.
  match goal with |- context [for_each ?f ?xs ?s] =>
    pose proof (for_each_inv
      (λ cm, ∀ c letter, cm !! c = Some letter →
                         canvas_wf letter ∧ pixels_ok letter)
      f xs s Hself) as Hinv;
    destruct (for_each f xs s) as [cm [e|]] end;
    simpl in Hinv; unfold letters_ok; simpl; apply Hinv.
  all: intros cm0 [i c] cm1 _ Hcm0 (letter & Hrect & [= <-])%bind_Ok.
  all: intros c' letter'; destruct (decide (c' = c)) as [->|Hne];
    [rewrite lookup_insert_eq; intros [= <-]
    |rewrite lookup_insert_ne by done; apply Hcm0].
  all: split; [by apply rect_inv in Hrect as [_ (_ & _ & _ & ?)]|].
  all: eapply rect_pixels_ok; [|done|done].
  all: rewrite Hbg; apply color_ok_transparent_black.
Qed.

(** X25.  A font only ever holds letters of width × height pixels with
    valid channels: the font that the constructor makes holds none, and
    [Font.load] keeps the property, whatever the file holds and however the
    call ends; the letters it stores are such canvases of char_width ×
    char_height pixels. *)
Theorem load_keeps_letters_valid self file (charmap : str) cw ch :
  letters_ok Font_init ∧
  (letters_ok self → letters_ok (load self file charmap cw ch).1) ∧
  (∀ font' c letter,
     load self file charmap cw ch = (font', None) → c ∈ charmap →
     FontPy.charmap font' !! c = Some letter →
     width letter = cw ∧ height letter = ch ∧
     canvas_wf letter ∧ pixels_ok letter).
Proof.
  split; [done|]. split; [apply load_letters_ok|].
  intros font' c letter Hload Hc Hletter.
  assert (0 < cw ∧ 0 < ch) as [Hcw Hch].
  { revert Hload. unfold load.
    destruct ((cw <=? 0) || (ch <=? 0)) eqn:Hdim; [done | lia]. }
  destruct (load_loop file charmap cw ch (FontPy.charmap self))
    as (cm & Hloop & _ & Hin); [done..|].
  assert (FontPy.charmap font' = cm) as Hcm.
  { revert Hload. unfold load.
    destruct ((cw <=? 0) || (ch <=? 0)); [done|].
    rewrite RgbaColor_init_transparent. unfold sheet in Hloop.
    destruct (import_rgba_data _ file) as [canvas [e|]]; [done|].
    simpl in Hloop. rewrite Hloop. by intros [= <-]. }
  assert (∃ i, last_position charmap i c) as [i Hlast].
  { clear -Hc. induction charmap as [|c' charmap IH] using rev_ind.
    { by apply elem_of_nil in Hc. }
    destruct (decide (c' = c)) as [->|Hne].
    - exists (length charmap). split; [by rewrite list_lookup_middle|].
      intros j Hj. rewrite lookup_ge_None_2; [done|].
      rewrite length_app. simpl. lia.
    - apply elem_of_app in Hc as [Hc|Hc%list_elem_of_singleton]; [|done].
      destruct (IH Hc) as (i & Hi & Hlast). exists i.
      split; [by apply lookup_app_l_Some|].
      intros j Hj Hcj. apply lookup_app_Some in Hcj as [Hcj|[_ Hcj]].
      + by apply (Hlast j).
      + apply list_lookup_singleton_Some in Hcj as [_ ?]. done. }
  destruct (Hin i c Hlast) as (letter' & Hletter' & Hrect).
  rewrite Hcm in Hletter. assert (letter' = letter) as -> by congruence.
  destruct (sheet_shape file (length charmap) cw ch)
    as (_ & _ & _ & Hbg & Hok).
  pose proof (rect_inv _ _ _ _ _ _ Hrect) as [_ (Hw & Hh & _ & Hwf)].
  repeat split; try done.
  eapply rect_pixels_ok; [|done|done].
  rewrite Hbg. apply color_ok_transparent_black.
Qed.

Lemma load_keeps_letters_valid_witness :
  letters_ok (load Font_init [1; 2; 3; 4; 5; 6; 7; 8] ["A"; "B"]%char 1 1).1.
Proof.
  destruct (load_keeps_letters_valid Font_init [1; 2; 3; 4; 5; 6; 7; 8]
              ["A"; "B"]%char 1 1) as (Hinit & Hload & _).
  by apply Hload.
Defined.

(** ** Writing text *)

Lemma write_run self target x y text :
  write self target x y text
  = ((for_each_mut (write_body self x y) text (target, 0, 0)).1.1.1,
     (for_each_mut (write_body self x y) text (target, 0, 0)).2).
Proof. unfold write. by destruct (for_each_mut _ _ _) as [[[? ?] ?] ?]. Qed.

Lemma write_skips self target x y text x_offset y_offset :
  (∀ c, c ∈ text → charmap self !! c = None) →
  ∃ x_offset' y_offset',
    for_each_mut (write_body self x y) text (target, x_offset, y_offset)
    = ((target, x_offset', y_offset'), None).
Proof.
  revert x_offset y_offset.
  induction text as [|c text IH]; intros x_offset y_offset Hnone.
  { by eexists _, _. }
  cbn [for_each_mut]. unfold write_body at 1.
  rewrite (Hnone c) by left.
  destruct (Ascii.eqb c "010"); cbn [and_then];
    apply IH; intros c' Hc'; apply Hnone; by right.
Qed.

(** X26.  [Font.write] draws nothing for the characters that have no letter
    in the font: a text none of whose characters has a letter (the empty
    text, any text for a font without letters) leaves the target canvas
    exactly as it was, and raises nothing. *)
Theorem write_draws_nothing_without_letters self target x y text :
  (∀ c, c ∈ text → charmap self !! c = None) →
  write self target x y text = (target, None).
Proof.
  intros Hnone. rewrite write_run.
  destruct (write_skips self target x y text 0 0 Hnone) as (xo & yo & ->).
  done.
Qed.

Lemma write_draws_nothing_without_letters_witness :
  let target := Canvas_init 2 2 (mkColor 0 0 0 1) in
  write Font_init target 0 0 ["H"; "i"; "010"; "!"]%char = (target, None).
Proof.
  intros target. apply write_draws_nothing_without_letters. by intros c _.
Defined.

(** Where a line without line feed leaves the two offsets. *)
Lemma write_line_offsets self x y line target x_offset y_offset st :
  newline ∉ line →
  for_each_mut (write_body self x y) line (target, x_offset, y_offset)
  = (st, None) →
  st.1.2 = x_offset + Z.of_nat (length line) * char_width self ∧
  st.2 = y_offset.
Proof.
  revert target x_offset.
  induction line as [|c line IH]; intros target x_offset Hline.
  { intros [= <-]. simpl. lia. }
  apply not_elem_of_cons in Hline as [Hc Hline].
  cbn [for_each_mut]. unfold write_body at 1.
  destruct (charmap self !! c) as [letter|].
  - destruct (blend _ _ _ _ _) as [target' [e|]]; [done|].
    cbn [and_then]. intros Hrun.
    destruct (IH _ _ Hline Hrun) as [-> ->]. simpl. lia.
  - assert (Ascii.eqb c "010" = false) as ->.
    { apply Ascii.eqb_neq. intros ->. by apply Hc. }
    cbn [and_then]. intros Hrun.
    destruct (IH _ _ Hline Hrun) as [-> ->]. simpl. lia.
Qed.

(** Moving the origin down is adding to the vertical offset. *)
Lemma write_body_shift_down self x y dy target x_offset y_offset c :
  write_body self x y (target, x_offset, y_offset + dy) c
  = let '(st, e) := write_body self x (y + dy) (target, x_offset, y_offset) c
    in ((st.1.1, st.1.2, st.2 + dy), e).
Proof.
  unfold write_body.
  replace (y + (y_offset + dy)) with (y + dy + y_offset) by lia.
  destruct (charmap self !! c) as [letter|].
  - by destruct (blend _ _ _ _ _) as [target' [e|]].
  - destruct (Ascii.eqb c "010"); simpl; do 2 f_equal; lia.
Qed.

Lemma write_shift_down self x y dy text target x_offset y_offset st e :
  for_each_mut (write_body self x (y + dy)) text (target, x_offset, y_offset)
  = (st, e) →
  for_each_mut (write_body self x y) text (target, x_offset, y_offset + dy)
  = ((st.1.1, st.1.2, st.2 + dy), e).
Proof.
  revert target x_offset y_offset.
  induction text as [|c text IH]; intros target x_offset y_offset.
  { by intros [= <- <-]. }
  cbn [for_each_mut]. rewrite write_body_shift_down.
  destruct (write_body self x (y + dy) _ c) as [[[target1 xo1] yo1] [e1|]];
    cbn [and_then fst snd].
  - by intros [= <- <-].
  - apply IH.
Qed.

(** Moving the origin right is adding to the horizontal offset, as long as
    no line feed resets it. *)
Lemma write_body_shift_right self x y dx target x_offset y_offset c :
  c ≠ newline →
  write_body self x y (target, x_offset + dx, y_offset) c
  = let '(st, e) := write_body self (x + dx) y (target, x_offset, y_offset) c
    in ((st.1.1, st.1.2 + dx, st.2), e).
Proof.
  intros Hc. unfold write_body.
  replace (x + (x_offset + dx)) with (x + dx + x_offset) by lia.
  destruct (charmap self !! c) as [letter|].
  - destruct (blend _ _ _ _ _) as [target' [e|]]; [done|].
    simpl. do 3 f_equal. lia.
  - assert (Ascii.eqb c "010" = false) as -> by (by apply Ascii.eqb_neq).
    simpl. do 3 f_equal. lia.
Qed.

Lemma write_shift_right self x y dx text target x_offset y_offset st e :
  newline ∉ text →
  for_each_mut (write_body self (x + dx) y) text (target, x_offset, y_offset)
  = (st, e) →
  for_each_mut (write_body self x y) text (target, x_offset + dx, y_offset)
  = ((st.1.1, st.1.2 + dx, st.2), e).
Proof.
  revert target x_offset y_offset.
  induction text as [|c text IH]; intros target x_offset y_offset Htext.
  { by intros [= <- <-]. }
  apply not_elem_of_cons in Htext as [Hc Htext].
  cbn [for_each_mut]. rewrite write_body_shift_right by done.
  destruct (write_body self (x + dx) y _ c) as [[[target1 xo1] yo1] [e1|]];
    cbn [and_then fst snd].
  - by intros [= <- <-].
  - by apply IH.
Qed.

(** X27.  [Font.write] writes line by line and letter by letter.  After a
    line without line feed, the rest of a text without line feed is written
    as by a call of its own, one character width further right for every
    character of the line, with or without a letter; and when the line feed
    has no letter in the font, the text after a line feed is written as by a
    call of its own, at the same x and char_height + 2 pixels further down.
    An exception in the line ends the whole. *)
Theorem write_line_by_line self target x y line :
  newline ∉ line →
  (∀ more, newline ∉ more →
     write self target x y (line ++ more)
     = and_then (write self target x y line)
         (λ target,
            write self target
                  (x + Z.of_nat (length line) * char_width self) y more)) ∧
  (∀ rest, charmap self !! newline = None →
     write self target x y (line ++ newline :: rest)
     = and_then (write self target x y line)
         (λ target, write self target x (y + (char_height self + 2)) rest)).
Proof.
  intros Hline. split.
  - intros more Hmore. rewrite !write_run, for_each_mut_app.
    destruct (for_each_mut _ line _) as [[[target1 xo] yo] [e|]] eqn:Hrun;
      [done|].
    destruct (write_line_offsets _ _ _ _ _ _ _ _ Hline Hrun) as [Hxo Hyo].
    simpl in Hxo, Hyo. subst xo yo. cbn [and_then fst snd].
    rewrite write_run.
    destruct (for_each_mut _ more (target1, 0, 0)) as [st e] eqn:Hmore_run.
    by rewrite (write_shift_right _ _ _ _ _ _ _ _ _ _ Hmore Hmore_run).
  - intros rest Hnewline. rewrite !write_run, for_each_mut_app.
    destruct (for_each_mut _ line _) as [[[target1 xo] yo] [e|]] eqn:Hrun;
      [done|].
    destruct (write_line_offsets _ _ _ _ _ _ _ _ Hline Hrun) as [Hxo Hyo].
    simpl in Hxo, Hyo. subst xo yo. cbn [and_then fst snd].
    rewrite write_run. cbn [for_each_mut].
    assert (∀ x_offset,
              write_body self x y (target1, x_offset, 0) newline
              = ((target1, 0, 0 + (char_height self + 2)), None)) as ->.
    { intros x_offset. unfold write_body. by rewrite Hnewline. }
    cbn [and_then].
    destruct (for_each_mut _ rest (target1, 0, 0)) as [st e] eqn:Hrest_run.
    by rewrite (write_shift_down _ _ _ _ _ _ _ _ _ _ Hrest_run).
Qed.

Lemma write_line_by_line_witness :
  let font := (load Font_init [255; 255; 255; 255; 0; 0; 0; 255]
                    ["A"; "B"]%char 1 1).1 in
  let target := Canvas_init 3 4 (mkColor 0 0 0 1) in
  write font target 0 0 ["A"; "?"; "010"; "B"]%char
  = and_then (write font target 0 0 ["A"; "?"]%char)
      (λ target, write font target 0 (0 + (1 + 2)) ["B"]%char).
Proof.
  intros font target.
  destruct (write_line_by_line font target 0 0 ["A"; "?"]%char) as [_ Hfeed].
  - intros H. repeat (apply elem_of_cons in H as [?|H]; [done|]).
    by apply elem_of_nil in H.
  - apply (Hfeed ["B"]%char). reflexivity.
Defined.

(** ** Writing onto an opaque canvas *)

Lemma write_onto_opaque self x y text target x_offset y_offset :
  letters_ok self → canvas_wf target → Forall opaque (canvas target) →
  ∃ st,
    for_each_mut (write_body self x y) text (target, x_offset, y_offset)
    = (st, None) ∧
    same_shape target st.1.1 ∧ Forall opaque (canvas st.1.1).
Proof.
  intros Hletters. revert target x_offset y_offset.
  induction text as [|c text IH]; intros target x_offset y_offset Hwf Hopaque.
  { eexists. split; [done|]. by repeat split. }
  cbn [for_each_mut]. unfold write_body at 1.
  destruct (charmap self !! c) as [letter|] eqn:Hc.
  - destruct (Hletters c letter Hc) as [Hlwf Hlok].
    destruct (blend_onto_opaque target letter (x + x_offset) (y + y_offset)
                false) as (target' & Hblend & Hopaque'); [done..| |].
    { eapply Forall_impl; [|exact Hlok]. by intros p (_ & _ & _ & [? _]). }
    pose proof (blend_same_shape target letter (x + x_offset) (y + y_offset)
                  false) as Hshape.
    rewrite Hblend in *. cbn [fst and_then] in *.
    destruct Hshape as (Hw & Hh & Hbg & Hlen).
    destruct (IH target' (x_offset + char_width self) y_offset)
      as (st & -> & (Hw' & Hh' & Hbg' & Hlen') & Hst).
    { unfold canvas_wf in *. by rewrite Hlen, Hw, Hh. }
    { by apply Hopaque'. }
    exists st. split; [done|]. split; [|done].
    repeat split; congruence.
  - destruct (Ascii.eqb c "010"); cbn [and_then]; by apply IH.
Qed.

(** X28.  Writing a text onto a canvas whose pixels all have alpha at least
    0.999999, with a font whose letters hold width × height pixels with
    valid channels (every font that [Font.load] has filled), never raises,
    whatever the text and the position are: the canvas keeps its shape, and
    all its pixels have alpha at least 0.999999 afterwards too. *)
Theorem write_onto_opaque_never_raises self target x y text :
  letters_ok self → canvas_wf target → Forall opaque (canvas target) →
  ∃ target', write self target x y text = (target', None) ∧
             same_shape target target' ∧ Forall opaque (canvas target').
Proof.
  intros Hletters Hwf Hopaque. rewrite write_run.
  destruct (write_onto_opaque self x y text target 0 0)
    as (st & -> & Hshape & Hst); [done..|].
  by exists st.1.1.
Qed.

Lemma write_onto_opaque_never_raises_witness :
  let font := (load Font_init [255; 255; 255; 255; 0; 0; 0; 0]
                    ["A"; "B"]%char 1 1).1 in
  let target := Canvas_init 3 2 (mkColor 0 0 0 1) in
  ∃ target', write font target 1 0 ["A"; "B"; "010"; "B"; "A"]%char
             = (target', None) ∧
             Forall opaque (canvas target').
Proof.
  intros font target.
  destruct (write_onto_opaque_never_raises font target 1 0
              ["A"; "B"; "010"; "B"; "A"]%char)
    as (target' & Hwrite & _ & Hopaque).
  - unfold font.
    apply (proj2 (load_letters_ok Font_init [255; 255; 255; 255; 0; 0; 0; 0]
                    ["A"; "B"]%char 1 1)).
    done.
  - reflexivity.
  - repeat constructor; vm_compute; discriminate.
  - by exists target'.
Defined.

(** [Font.write] keeps the channels of the target valid, however it ends. *)
Lemma write_pixels_ok self target x y text :
  letters_ok self → pixels_ok target →
  pixels_ok (write self target x y text).1.
Proof.
  intros Hletters Htarget. rewrite write_run. cbn [fst].
  apply (for_each_mut_inv (λ st, pixels_ok st.1.1)); [done|].
  intros [[target0 x_offset] y_offset] c _ Hst. cbn [fst] in Hst.
  unfold write_body. destruct (charmap self !! c) as [letter|] eqn:Hc.
  - destruct (Hletters c letter Hc) as [_ Hletter].
    pose proof (blend_pixels_ok target0 letter (x + x_offset) (y + y_offset)
                  false Hst Hletter) as Hblend.
    by destruct (blend _ _ _ _ _) as [target' [e|]].
  - by destruct (Ascii.eqb c "010").
Qed.

End FontFacts.

(** * The example script *)

Module ExampleFacts.

Import CanvasPy CanvasSpec FontPy FontSpec ExamplePy ExampleSpec.
Import CanvasFacts FontFacts.

Lemma opaque_canvas_init w h bg :
  color_ok bg → opaque bg → opaque_canvas w h (Canvas_init w h bg).
Proof.
  intros Hbg Hopaque. split; [done|]. split; [done|]. split; [|split].
  - unfold canvas_wf, Canvas_init, clear. cbn [canvas with_canvas width height].
    by rewrite length_fmap, range_length.
  - by apply Canvas_init_pixels_ok.
  - split; [done|]. unfold Canvas_init, clear. cbn [canvas with_canvas bgcolor].
    apply Forall_fmap, Forall_true. by intros ?.
Qed.

(** Importing whole RGB pixels that fit leaves an opaque canvas opaque. *)
Lemma import_rgb_data_opaque w h c file :
  opaque_canvas w h c → whole_pixels 3 (w * h) file →
  ∃ c', import_rgb_data c file = (c', None) ∧ opaque_canvas w h c'.
Proof.
  intros (Hw & Hh & Hwf & Hok & Hbg & Hopaque) (Hbytes & Hmod & Hfit).
  assert (length file `div` 3 ≤ length (canvas c))%nat as Hfit'.
  { unfold canvas_wf in Hwf. rewrite Hwf, Hw, Hh. lia. }
  pose proof (import_rgb_data_whole c file Hbytes Hfit' Hmod) as Himport.
  pose proof (import_rgb_data_pixels_ok c file Hok) as Hok'.
  pose proof (import_data_same_shape 3
                (λ channels,
                   match channels with
                   | [r; g; b] =>
                       RgbaColor_init (channel_of_byte r) (channel_of_byte g)
                                      (channel_of_byte b) 1
                   | _ => Raise StructError
                   end) c file) as (Hw' & Hh' & Hbg' & Hlen').
  fold (import_rgb_data c file) in Hw', Hh', Hbg', Hlen'.
  rewrite Himport in Hok', Hw', Hh', Hbg', Hlen'. cbn [fst] in *.
  eexists. split; [exact Himport|].
  split; [congruence|]. split; [congruence|].
  split; [unfold canvas_wf in *; congruence|].
  split; [done|]. split; [congruence|].
  cbn [canvas with_canvas]. unfold overwritten. apply Forall_app. split.
  - apply Forall_fmap, Forall_true. by intros k.
  - by apply Forall_drop.
Qed.

(** Importing whole RGBA pixels that fit raises nothing. *)
Lemma import_rgba_data_fits c file :
  canvas_wf c → pixels_ok c →
  whole_pixels 4 (width c * height c) file →
  ∃ c', import_rgba_data c file = (c', None) ∧
        canvas_wf c' ∧ pixels_ok c'.
Proof.
  intros Hwf Hok (Hbytes & Hmod & Hfit).
  assert (length file `div` 4 ≤ length (canvas c))%nat as Hfit'.
  { unfold canvas_wf in Hwf. rewrite Hwf. lia. }
  pose proof (import_rgba_data_whole c file Hbytes Hfit' Hmod) as Himport.
  pose proof (import_rgba_data_pixels_ok c file Hok) as Hok'.
  pose proof (import_data_same_shape 4
                (λ channels,
                   match channels with
                   | [r; g; b; a] =>
                       RgbaColor_init (channel_of_byte r) (channel_of_byte g)
                                      (channel_of_byte b) (channel_of_byte a)
                   | _ => Raise StructError
                   end) c file) as (Hw' & Hh' & _ & Hlen').
  fold (import_rgba_data c file) in Hw', Hh', Hlen'.
  rewrite Himport in Hok', Hw', Hh', Hlen'. cbn [fst] in *.
  eexists. split; [exact Himport|]. split; [|done].
  unfold canvas_wf in *. congruence.
Qed.

(** Blending valid pixels onto an opaque canvas leaves it opaque. *)
Lemma blend_opaque w h c src ox oy :
  opaque_canvas w h c → canvas_wf src → pixels_ok src →
  ∃ c', blend c src ox oy false = (c', None) ∧ opaque_canvas w h c'.
Proof.
  intros (Hw & Hh & Hwf & Hok & Hbg & Hopaque) Hsrc Hsrc_ok.
  destruct (blend_onto_opaque c src ox oy false)
    as (c' & Hblend & Hopaque'); [done..| |].
  { eapply Forall_impl; [|exact Hsrc_ok]. by intros p (_ & _ & _ & [? _]). }
  pose proof (blend_same_shape c src ox oy false) as (Hw' & Hh' & Hbg' & Hlen').
  pose proof (blend_pixels_ok c src ox oy false Hok Hsrc_ok) as Hok'.
  rewrite Hblend in Hw', Hh', Hbg', Hlen', Hok'. cbn [fst] in *.
  exists c'. split; [done|].
  split; [congruence|]. split; [congruence|].
  split; [unfold canvas_wf in *; congruence|].
  split; [done|]. split; [congruence | by apply Hopaque'].
Qed.

(** Writing with valid letters onto an opaque canvas leaves it opaque. *)
Lemma write_opaque w h font c x y text :
  letters_ok font → opaque_canvas w h c →
  ∃ c', write font c x y text = (c', None) ∧ opaque_canvas w h c'.
Proof.
  intros Hletters (Hw & Hh & Hwf & Hok & Hbg & Hopaque).
  pose proof (write_pixels_ok font c x y text Hletters Hok) as Hok'.
  rewrite write_run in Hok' |- *.
  destruct (write_onto_opaque font x y text c 0 0)
    as (st & Hrun & (Hw' & Hh' & Hbg' & Hlen') & Hopaque'); [done..|].
  rewrite Hrun in Hok' |- *. cbn [fst snd] in *.
  eexists. split; [done|].
  split; [congruence|]. split; [congruence|].
  split; [unfold canvas_wf in *; congruence|].
  split; [done|]. split; [congruence | done].
Qed.

Lemma charmap_length : length charmap = 94%nat.
Proof. unfold charmap. by rewrite length_fmap, length_seq. Qed.

(** The font of the script loads from a file of whole pixels that fit the
    sheet. *)
Lemma load_example_font font_file :
  whole_pixels 4 (94 * 8 * 16) font_file →
  ∃ font, load Font_init font_file charmap 8 16 = (font, None) ∧
          letters_ok font.
Proof.
  intros Hfile.
  set (sheet0 := Canvas_init (Z.of_nat (length charmap) * 8) 16
                             (mkColor 0 0 0 0)).
  destruct (import_rgba_data_fits sheet0 font_file)
    as (sheet1 & Himport & _).
  - unfold sheet0, canvas_wf, Canvas_init, clear.
    cbn [canvas with_canvas width height].
    by rewrite length_fmap, range_length.
  - apply Canvas_init_pixels_ok, color_ok_transparent_black.
  - unfold sheet0, Canvas_init, clear. cbn [with_canvas width height].
    by rewrite charmap_length.
  - destruct (load_Ok Font_init font_file charmap 8 16) as [font Hload];
      [lia | lia | |].
    { fold sheet0. by rewrite Himport. }
    exists font. split; [done|].
    pose proof (proj2 (load_letters_ok Font_init font_file charmap 8 16)
                  (proj1 (load_letters_ok Font_init font_file charmap 8 16)))
      as Hletters.
    by rewrite Hload in Hletters.
Qed.

(** X29.  The example script cannot fail on its pixels.  Whatever three
    files it is given, provided each holds whole pixels and no more of them
    than the canvas it is imported into (256 × 256 RGB pixels, 96 × 64 RGBA
    pixels, and the 94 letters of 8 × 16 RGBA pixels), every step of the
    script completes and no blend divides by zero; the canvas the script has
    drawn is 256 × 256 with every pixel opaque; [bytes] and the filtering of
    this canvas succeed; and the output file receives the PNG signature, the
    IHDR chunk of a 256 × 256 image, one IDAT chunk with the compressed
    image and the IEND chunk (the compressed data being bytes, fewer than
    2^32). *)
Theorem example_runs_to_the_end compress background overlay font_file :
  whole_pixels 3 (256 * 256) background →
  whole_pixels 4 (96 * 64) overlay →
  whole_pixels 4 (94 * 8 * 16) font_file →
  ∃ canvas image data,
    drawing background overlay font_file = (Some canvas, None) ∧
    opaque_canvas 256 256 canvas ∧
    bytes canvas = Ok image ∧
    PngWriterPy.process_image_data compress
      (PngWriterPy.mkPngWriter [] 256 256 true) image = Ok data ∧
    (Forall is_byte data → Z.of_nat (length data) < 2 ^ 32 →
     example compress background overlay font_file
     = (Some (PngSpec.signature
              ++ PngSpec.chunk PngSpec.IHDR (PngSpec.ihdr_data 256 256)
              ++ PngSpec.chunk PngSpec.IDAT data
              ++ PngSpec.chunk PngSpec.IEND []),
        None)).
Proof.
  intros Hbackground Hoverlay Hfont.
  assert (RgbaColor_init 0 0 0 1 = Ok (mkColor 0 0 0 1)) as Hblack by done.
  assert (color_ok (mkColor 0 0 0 1) ∧ opaque (mkColor 0 0 0 1))
    as [Hblack_ok Hblack_opaque] by (by apply RgbaColor_init_ok in Hblack).
  destruct (import_rgb_data_opaque 256 256 (Canvas_init 256 256 (mkColor 0 0 0 1))
              background) as (c1 & Hc1 & Hc1_ok);
    [by apply opaque_canvas_init | done |].
  destruct (import_rgba_data_fits (Canvas_init 96 64 (mkColor 0 0 0 0)) overlay)
    as (fg & Hfg & Hfg_wf & Hfg_ok).
  { unfold canvas_wf, Canvas_init, clear.
    cbn [canvas with_canvas width height].
    by rewrite length_fmap, range_length. }
  { apply Canvas_init_pixels_ok, color_ok_transparent_black. }
  { done. }
  destruct (blend_opaque 256 256 c1 fg 32 32) as (c2 & Hc2 & Hc2_ok); [done..|].
  destruct (blend_opaque 256 256 c2 fg 64 64) as (c3 & Hc3 & Hc3_ok); [done..|].
  destruct (blend_opaque 256 256 c3 fg 96 96) as (c4 & Hc4 & Hc4_ok); [done..|].
  destruct (blend_opaque 256 256 c4 fg (-48) 224) as (c5 & Hc5 & Hc5_ok);
    [done..|].
  destruct (load_example_font font_file Hfont) as (font & Hload & Hletters).
  destruct (write_opaque 256 256 font c5 8 176 hello)
    as (c6 & Hc6 & Hc6_ok); [done..|].
  destruct (write_opaque 256 256 font c6 4 0 long)
    as (c7 & Hc7 & Hc7_ok); [done..|].
  pose proof Hc7_ok as (Hw7 & Hh7 & Hwf7 & Hok7 & Hbg7 & _).
  destruct (rect_Ok c7 8 176 24 32) as (rc & Hrc & _ & _ & _ & Hrc_wf & _);
    [done | rewrite ?Hw7, ?Hh7; lia..|].
  pose proof (rect_pixels_ok c7 8 176 24 32 rc Hbg7 Hok7 Hrc) as Hrc_ok.
  destruct (blend_opaque 256 256 c7 rc 160 176) as (c8 & Hc8 & Hc8_ok);
    [done..|].
  pose proof Hc8_ok as (Hw8 & Hh8 & Hwf8 & Hok8 & Hbg8 & _).
  destruct (CanvasPngFacts.to_png_Ok compress c8)
    as (image & data & Himage & Hdata & Hfile);
    [done | done | done | rewrite Hw8; lia | rewrite Hh8; lia |].
  rewrite Hw8, Hh8 in Hdata, Hfile.
  assert (drawing background overlay font_file = (Some c8, None)) as Hdrawing.
  { unfold drawing.
    rewrite Hblack. cbn [with_color]. rewrite Hc1. cbn [then_].
    rewrite RgbaColor_init_transparent. cbn [with_color].
    rewrite Hfg. cbn [then_].
    rewrite Hc2. cbn [then_]. rewrite Hc3. cbn [then_].
    rewrite Hc4. cbn [then_]. rewrite Hc5. cbn [then_].
    rewrite Hload, Hc6. cbn [then_]. rewrite Hc7. cbn [then_].
    by rewrite Hrc, Hc8. }
  exists c8, image, data.
  split; [done|]. split; [done|]. split; [done|]. split; [done|].
  intros Hdata_bytes Hdata_len. unfold example.
  by rewrite Hdrawing, (Hfile Hdata_bytes Hdata_len).
Qed.

(** The three files at their full size: a background of one colour, an
    overlay whose pixels all have alpha 128 / 255, and a font sheet of opaque
    white. *)
Lemma example_runs_to_the_end_witness :
  let background := replicate (Z.to_nat (256 * 256 * 3)) 200 in
  let overlay := replicate (Z.to_nat (96 * 64 * 4)) 128 in
  let font_file := replicate (Z.to_nat (94 * 8 * 16 * 4)) 255 in
  ∃ canvas image data,
    drawing background overlay font_file = (Some canvas, None) ∧
    opaque_canvas 256 256 canvas ∧
    bytes canvas = Ok image ∧
    PngWriterPy.process_image_data (λ data, take 100 data)
      (PngWriterPy.mkPngWriter [] 256 256 true) image = Ok data ∧
    (Forall is_byte data → Z.of_nat (length data) < 2 ^ 32 →
     example (λ data, take 100 data) background overlay font_file
     = (Some (PngSpec.signature
              ++ PngSpec.chunk PngSpec.IHDR (PngSpec.ihdr_data 256 256)
              ++ PngSpec.chunk PngSpec.IDAT data
              ++ PngSpec.chunk PngSpec.IEND []),
        None)).
Proof.
  intros background overlay font_file.
  apply (example_runs_to_the_end (λ data, take 100 data)
           background overlay font_file);
    subst background overlay font_file;
    (split; [apply Forall_replicate; unfold is_byte; lia|];
     rewrite length_replicate; split;
     [reflexivity | rewrite Z2Nat.inj_mul, Nat.div_mul by lia; lia]).
Defined.

End ExampleFacts.
